(** * EtherialSoul server: conversation state machine and block pacer

    A shallow embedding of the four manager classes of the server
    (UserSessionManager, TimerManager, BufferManager, StateOrchestrator),
    of the prompt builder of GeminiService.updateCheck and of the socket
    handlers of index.js, followed by the properties proved about them.

    The JavaScript objects are mutated in place; here every method takes
    the whole program state (a [World]) and returns the new one, together
    with its result when it has one.  Closures handed to [setTimeout] are
    defunctionalised ([Task], [TimerCallback]); an [await] on the language
    model splits a method in the part before the call and the part that
    runs when the call settles. *)

From Stdlib Require Import QArith.
From stdpp Require Import gmap strings list fin_maps.

Local Open Scope nat_scope.

(** ** Data model *)

(** A block of the buffer: { text, typingTime, group }.  [typingTime] is a
    JSON number of seconds, [group] a JSON number used as a tag. *)
Record Block := mkBlock {
  text : string;
  typingTime : Q;
  group : Z
}.

Inductive Role := User | Model.

Record HistoryEntry := mkEntry {
  role : Role;
  content : string;
  timestamp : nat
}.

(** session.buffer; [currentGroup] is a number or null. *)
Record Buffer := mkBuffer {
  blocks : list Block;
  currentIndex : nat;
  currentGroup : option Z;
  isComplete : bool;
  isPaused : bool
}.

Record TypingState := mkTyping {
  isTyping : bool;
  lastTypingTime : option nat;
  shouldUseIdleTimer : bool
}.

Record UpdateCheckState := mkUpdateCheck {
  needsUpdate : bool;
  waitingForGroup : bool;
  lastCheckTime : option nat
}.

Record EndUpdateState := mkEndUpdate {
  timerActive : bool;
  timerStartTime : option nat;
  userMessagedSinceLastEndUpdate : bool
}.

Record Session := mkSession {
  history : list HistoryEntry;
  buffer : Buffer;
  typing : TypingState;
  updateCheck : UpdateCheckState;
  endUpdate : EndUpdateState
}.

(** Events emitted to a client socket. *)
Inductive ServerEvent :=
| MessageReceived (id : nat) (msg : string) (time : nat)
| AiBlock (txt : string) (grp : Z) (time : nat)
| AiComplete
| ErrorEvent (message : string) (error : option string).

(** The closures the StateOrchestrator passes to the TimerManager. *)
Inductive TimerCallback :=
| CbMaxTyping (userId : string)            (* handleTypingStatus, typing started *)
| CbTypingIdle (userId : string)           (* handleTypingStatus, typing stopped *)
| CbGroupDelay (userId : string)           (* _startGroupDelayFlow, outer closure *)
| CbIdleAfterGroupDelay (userId : string)  (* _startGroupDelayFlow, inner closure *)
| CbEndUpdate (userId : string).           (* _handleBufferComplete *)

(** The two callbacks the StateOrchestrator passes to the BufferManager:
    [(userId, groupId) => this._handleGroupComplete(userId, groupId)] and
    [(userId) => this._handleBufferComplete(userId)]. *)
Inductive GroupCompleteCb := OnGroupComplete.
Inductive BufferCompleteCb := OnBufferComplete.

(** What a scheduled timeout runs when it fires. *)
Inductive Task :=
| TaskTimer (userTimers : nat) (timerType : string) (callback : TimerCallback)
    (* the closure of TimerManager._setTimer; it captured the user's
       timer object, not the user id *)
| TaskSendNext (userId : string) (socket : option string)
    (onGroupComplete : option GroupCompleteCb)
    (onBufferComplete : option BufferCompleteCb).
    (* the closure of BufferManager._sendNextBlock *)

Record Timeout := mkTimeout {
  task : Task;
  delay : Q   (* milliseconds *)
}.

(** A call to the language model that is awaited. *)
Inductive LLMCall :=
| CallUpdateBuffer (userId : string) (hist : list HistoryEntry)
    (pendingBlocks : list Block)
| CallUpdateCheck (userId : string) (recentHistory : list HistoryEntry)
    (currentBuffer : list Block) (index : nat).

(** The console lines that mark a decision of the pacer or of the
    orchestrator; the rest of the console output is not modelled. *)
Inductive LogLine :=
| LogCannotStart                             (* Cannot start sending: socket not connected *)
| LogSocketDisconnected (userId : string)    (* Socket disconnected for ..., stopping buffer send *)
| LogStoppingSend                            (* Stopping buffer send (UpdateCheck needs update, group complete) *)
| LogBlock (index : nat) (grp : option Z)    (* Block i [group g]: preview *)
| LogGroupComplete (grp : option Z)          (* Group g complete *)
| LogAllBlocksSent                           (* All blocks sent *)
| LogStartingEndUpdate                       (* Starting EndUpdate timer (25s)... *)
| LogSkippingEndUpdate                       (* Skipping EndUpdate timer ... *)
| LogGenerating                              (* AI: Generating response... *)
| LogUpdateBufferError (message : string)    (* UpdateBuffer error: ... *)
| LogNoSocket.                               (* No socket found for user *)

(** ** The program state *)

Record World := mkWorld {
  sessions : gmap string Session;  (* UserSessionManager.sessions *)
  timers : gmap string nat;  (* TimerManager.timers: userId -> reference of the user's timer object *)
  timerObjects : gmap nat (gmap string nat);  (* the timer objects themselves, { timerType -> timeoutId } *)
  nextObject : nat;  (* next fresh object reference *)
  sendingTimeouts : gmap string nat;  (* BufferManager.sendingTimeouts *)
  bmUserSockets : gmap string string;  (* BufferManager.userSockets *)
  userSockets : gmap string string;  (* StateOrchestrator.userSockets *)
  connected : gmap string bool;  (* socket.connected of every socket accepted so far *)
  pending : gmap nat Timeout;  (* timeouts scheduled with setTimeout and neither fired nor cleared *)
  nextTimeout : nat;  (* next fresh timeout id *)
  inflight : gmap nat LLMCall;  (* calls to the GeminiService that have not settled yet *)
  nextCall : nat;  (* next fresh call id *)
  out : list (string * ServerEvent);  (* every socket.emit, oldest first: (socket, event) *)
  console : list LogLine;  (* the console lines listed in LogLine, oldest first *)
  now : nat  (* the wall clock read by Date.now() and new Date() *)
}.

(** Field updates (the record is mutated in place in the source). *)
Definition set_sessions (v : gmap string Session) (w : World) : World :=
  mkWorld v (timers w) (timerObjects w) (nextObject w) (sendingTimeouts w)
    (bmUserSockets w) (userSockets w) (connected w) (pending w)
    (nextTimeout w) (inflight w) (nextCall w) (out w) (console w) (now w).
Definition set_timers (v : gmap string nat) (w : World) : World :=
  mkWorld (sessions w) v (timerObjects w) (nextObject w) (sendingTimeouts w)
    (bmUserSockets w) (userSockets w) (connected w) (pending w)
    (nextTimeout w) (inflight w) (nextCall w) (out w) (console w) (now w).
Definition set_timerObjects (v : gmap nat (gmap string nat)) (w : World) : World :=
  mkWorld (sessions w) (timers w) v (nextObject w) (sendingTimeouts w)
    (bmUserSockets w) (userSockets w) (connected w) (pending w)
    (nextTimeout w) (inflight w) (nextCall w) (out w) (console w) (now w).
Definition set_nextObject (v : nat) (w : World) : World :=
  mkWorld (sessions w) (timers w) (timerObjects w) v (sendingTimeouts w)
    (bmUserSockets w) (userSockets w) (connected w) (pending w)
    (nextTimeout w) (inflight w) (nextCall w) (out w) (console w) (now w).
Definition set_sendingTimeouts (v : gmap string nat) (w : World) : World :=
  mkWorld (sessions w) (timers w) (timerObjects w) (nextObject w) v
    (bmUserSockets w) (userSockets w) (connected w) (pending w)
    (nextTimeout w) (inflight w) (nextCall w) (out w) (console w) (now w).
Definition set_bmUserSockets (v : gmap string string) (w : World) : World :=
  mkWorld (sessions w) (timers w) (timerObjects w) (nextObject w)
    (sendingTimeouts w) v (userSockets w) (connected w) (pending w)
    (nextTimeout w) (inflight w) (nextCall w) (out w) (console w) (now w).
Definition set_userSockets (v : gmap string string) (w : World) : World :=
  mkWorld (sessions w) (timers w) (timerObjects w) (nextObject w)
    (sendingTimeouts w) (bmUserSockets w) v (connected w) (pending w)
    (nextTimeout w) (inflight w) (nextCall w) (out w) (console w) (now w).
Definition set_connected (v : gmap string bool) (w : World) : World :=
  mkWorld (sessions w) (timers w) (timerObjects w) (nextObject w)
    (sendingTimeouts w) (bmUserSockets w) (userSockets w) v (pending w)
    (nextTimeout w) (inflight w) (nextCall w) (out w) (console w) (now w).
Definition set_pending (v : gmap nat Timeout) (w : World) : World :=
  mkWorld (sessions w) (timers w) (timerObjects w) (nextObject w)
    (sendingTimeouts w) (bmUserSockets w) (userSockets w) (connected w) v
    (nextTimeout w) (inflight w) (nextCall w) (out w) (console w) (now w).
Definition set_nextTimeout (v : nat) (w : World) : World :=
  mkWorld (sessions w) (timers w) (timerObjects w) (nextObject w)
    (sendingTimeouts w) (bmUserSockets w) (userSockets w) (connected w)
    (pending w) v (inflight w) (nextCall w) (out w) (console w) (now w).
Definition set_inflight (v : gmap nat LLMCall) (w : World) : World :=
  mkWorld (sessions w) (timers w) (timerObjects w) (nextObject w)
    (sendingTimeouts w) (bmUserSockets w) (userSockets w) (connected w)
    (pending w) (nextTimeout w) v (nextCall w) (out w) (console w) (now w).
Definition set_nextCall (v : nat) (w : World) : World :=
  mkWorld (sessions w) (timers w) (timerObjects w) (nextObject w)
    (sendingTimeouts w) (bmUserSockets w) (userSockets w) (connected w)
    (pending w) (nextTimeout w) (inflight w) v (out w) (console w) (now w).
Definition set_out (v : list (string * ServerEvent)) (w : World) : World :=
  mkWorld (sessions w) (timers w) (timerObjects w) (nextObject w)
    (sendingTimeouts w) (bmUserSockets w) (userSockets w) (connected w)
    (pending w) (nextTimeout w) (inflight w) (nextCall w) v (console w)
    (now w).
Definition set_console (v : list LogLine) (w : World) : World :=
  mkWorld (sessions w) (timers w) (timerObjects w) (nextObject w)
    (sendingTimeouts w) (bmUserSockets w) (userSockets w) (connected w)
    (pending w) (nextTimeout w) (inflight w) (nextCall w) (out w) v (now w).
Definition set_now (v : nat) (w : World) : World :=
  mkWorld (sessions w) (timers w) (timerObjects w) (nextObject w)
    (sendingTimeouts w) (bmUserSockets w) (userSockets w) (connected w)
    (pending w) (nextTimeout w) (inflight w) (nextCall w) (out w) (console w)
    v.

(** Updates of one part of a session. *)
Definition withHistory (f : list HistoryEntry -> list HistoryEntry) (s : Session) : Session :=
  mkSession (f (history s)) (buffer s) (typing s) (updateCheck s) (endUpdate s).
Definition withBuffer (f : Buffer -> Buffer) (s : Session) : Session :=
  mkSession (history s) (f (buffer s)) (typing s) (updateCheck s) (endUpdate s).
Definition withTyping (f : TypingState -> TypingState) (s : Session) : Session :=
  mkSession (history s) (buffer s) (f (typing s)) (updateCheck s) (endUpdate s).
Definition withUpdateCheck (f : UpdateCheckState -> UpdateCheckState) (s : Session) : Session :=
  mkSession (history s) (buffer s) (typing s) (f (updateCheck s)) (endUpdate s).
Definition withEndUpdate (f : EndUpdateState -> EndUpdateState) (s : Session) : Session :=
  mkSession (history s) (buffer s) (typing s) (updateCheck s) (f (endUpdate s)).

(** The JavaScript event loop: setTimeout and clearTimeout.  Ids are never
    reused, so clearing the id of a timeout that has fired does nothing. *)
Definition setTimeout (t : Task) (ms : Q) (w : World) : nat * World :=
  let id := nextTimeout w in
  (id, set_nextTimeout (S id) (set_pending (<[id := mkTimeout t ms]> (pending w)) w)).

Definition clearTimeout (id : nat) (w : World) : World :=
  set_pending (delete id (pending w)) w.

(** socket.emit(event) *)
Definition emit (socket : string) (e : ServerEvent) (w : World) : World :=
  set_out (out w ++ [(socket, e)]) w.

(** socket.connected *)
Definition isConnected (socket : string) (w : World) : bool :=
  default false (connected w !! socket).

(** [!socket || !socket.connected] *)
Definition socketDead (socket : option string) (w : World) : bool :=
  match socket with
  | None => true
  | Some s => negb (isConnected s w)
  end.

Definition log (l : LogLine) (w : World) : World :=
  set_console (console w ++ [l]) w.

(** ** UserSessionManager *)

Module UserSessionManager.

(** The session created on first access. *)
Definition freshSession : Session :=
  mkSession []
    (mkBuffer [] 0 None false false)
    (mkTyping false None false)
    (mkUpdateCheck false false None)
    (mkEndUpdate false None false).

Definition getSession (userId : string) (w : World) : Session * World :=
  match sessions w !! userId with
  | Some s => (s, w)
  | None => (freshSession, set_sessions (<[userId := freshSession]> (sessions w)) w)
  end.

(** [const session = this.getSession(userId)] followed by assignments to
    fields of [session]. *)
Definition mutate (userId : string) (f : Session -> Session) (w : World) : World :=
  let '(s, w1) := getSession userId w in
  set_sessions (<[userId := f s]> (sessions w1)) w1.

(** The methods that push to the history return the history; no caller
    uses it. *)
Definition addUserMessage (userId message : string) (w : World) : World :=
  mutate userId (withHistory (fun h => h ++ [mkEntry User message (now w)])) w.

Definition addAIMessage (userId message : string) (w : World) : World :=
  mutate userId (withHistory (fun h => h ++ [mkEntry Model message (now w)])) w.

(** [slice(-limit)]: the last [limit] entries. *)
Definition lastN {A} (n : nat) (l : list A) : list A := drop (length l - n) l.

(** [limit] is null (None) or a number; [if (limit)] fails for null and 0. *)
Definition getHistory (userId : string) (limit : option nat) (w : World)
  : list HistoryEntry * World :=
  let '(s, w1) := getSession userId w in
  match limit with
  | Some (S n) => (lastN (S n) (history s), w1)
  | _ => (history s, w1)
  end.

Definition setBuffer (userId : string) (bs : list Block) (w : World) : World :=
  mutate userId (withBuffer (fun _ =>
    mkBuffer bs 0
      (match bs with b :: _ => Some (group b) | [] => None end)
      false false)) w.

(** [buffer.isComplete = true] *)
Definition markComplete (b : Buffer) : Buffer :=
  mkBuffer (blocks b) (currentIndex b) (currentGroup b) true (isPaused b).

Definition getNextBlock (userId : string) (w : World) : option Block * World :=
  let '(s, w1) := getSession userId w in
  let b := buffer s in
  if bool_decide (length (blocks b) <= currentIndex b) then
    (None, mutate userId (withBuffer markComplete) w1)
  else (blocks b !! currentIndex b, w1).

Definition advanceBuffer (b : Buffer) : Buffer :=
  let i := S (currentIndex b) in
  match blocks b !! i with
  | Some nb => mkBuffer (blocks b) i (Some (group nb)) (isComplete b) (isPaused b)
  | None => mkBuffer (blocks b) i None true (isPaused b)
  end.

(** Returns the new index; no caller uses it. *)
Definition advanceBlock (userId : string) (w : World) : World :=
  mutate userId (withBuffer advanceBuffer) w.

(** The loop scans the blocks from the cursor on for one of the current
    group. *)
Definition groupComplete (b : Buffer) : bool :=
  if isComplete b then true
  else if bool_decide (length (blocks b) <= currentIndex b) then true
  else negb (existsb (fun blk => bool_decide (Some (group blk) = currentGroup b))
               (drop (currentIndex b) (blocks b))).

Definition isCurrentGroupComplete (userId : string) (w : World) : bool * World :=
  let '(s, w1) := getSession userId w in (groupComplete (buffer s), w1).

Definition getCurrentGroup (userId : string) (w : World) : option Z * World :=
  let '(s, w1) := getSession userId w in (currentGroup (buffer s), w1).

Definition isBufferComplete (userId : string) (w : World) : bool * World :=
  let '(s, w1) := getSession userId w in (isComplete (buffer s), w1).

Definition pauseBuffer (userId : string) (w : World) : World :=
  mutate userId (withBuffer (fun b =>
    mkBuffer (blocks b) (currentIndex b) (currentGroup b) (isComplete b) true)) w.

Definition resumeBuffer (userId : string) (w : World) : World :=
  mutate userId (withBuffer (fun b =>
    mkBuffer (blocks b) (currentIndex b) (currentGroup b) (isComplete b) false)) w.

Definition isBufferPaused (userId : string) (w : World) : bool * World :=
  let '(s, w1) := getSession userId w in (isPaused (buffer s), w1).

Definition markBufferComplete (userId : string) (w : World) : World :=
  mutate userId (withBuffer markComplete) w.

Definition setTypingState (userId : string) (typingNow : bool) (w : World) : World :=
  mutate userId (withTyping (fun t =>
    mkTyping typingNow (if typingNow then Some (now w) else None)
      (shouldUseIdleTimer t))) w.

Definition getTypingState (userId : string) (w : World) : TypingState * World :=
  let '(s, w1) := getSession userId w in (typing s, w1).

Definition enableIdleTimer (userId : string) (w : World) : World :=
  mutate userId (withTyping (fun t =>
    mkTyping (isTyping t) (lastTypingTime t) true)) w.

Definition disableIdleTimer (userId : string) (w : World) : World :=
  mutate userId (withTyping (fun t =>
    mkTyping (isTyping t) (lastTypingTime t) false)) w.

Definition setUpdateCheckNeeded (userId : string) (needed : bool) (w : World) : World :=
  mutate userId (withUpdateCheck (fun c =>
    mkUpdateCheck needed (waitingForGroup c) (Some (now w)))) w.

Definition getUpdateCheckState (userId : string) (w : World) : UpdateCheckState * World :=
  let '(s, w1) := getSession userId w in (updateCheck s, w1).

Definition setWaitingForGroup (userId : string) (waiting : bool) (w : World) : World :=
  mutate userId (withUpdateCheck (fun c =>
    mkUpdateCheck (needsUpdate c) waiting (lastCheckTime c))) w.

Definition setEndUpdateTimer (userId : string) (active : bool) (w : World) : World :=
  mutate userId (withEndUpdate (fun e =>
    mkEndUpdate active (if active then Some (now w) else None)
      (userMessagedSinceLastEndUpdate e))) w.

Definition getEndUpdateState (userId : string) (w : World) : EndUpdateState * World :=
  let '(s, w1) := getSession userId w in (endUpdate s, w1).

Definition setUserMessagedSinceEndUpdate (userId : string) (messaged : bool) (w : World) : World :=
  mutate userId (withEndUpdate (fun e =>
    mkEndUpdate (timerActive e) (timerStartTime e) messaged)) w.

Definition hasUserMessagedSinceEndUpdate (userId : string) (w : World) : bool * World :=
  let '(s, w1) := getSession userId w in
  (userMessagedSinceLastEndUpdate (endUpdate s), w1).

Definition clearSession (userId : string) (w : World) : World :=
  set_sessions (delete userId (sessions w)) w.

Definition getActiveUsers (w : World) : list string :=
  (map_to_list (sessions w)).*1.

End UserSessionManager.

(** ** TimerManager *)

Module TimerManager.

(** The user's timer object, allocated on first access. *)
Definition _getUserTimers (userId : string) (w : World) : nat * World :=
  match timers w !! userId with
  | Some r => (r, w)
  | None =>
      let r := nextObject w in
      (r, set_nextObject (S r)
            (set_timerObjects (<[r := ∅]> (timerObjects w))
               (set_timers (<[userId := r]> (timers w)) w)))
  end.

(** The own properties of the object a reference points to. *)
Definition deref (r : nat) (w : World) : gmap string nat :=
  default ∅ (timerObjects w !! r).

(** The timer objects are created as [{}], so besides their own
    properties they have the ones of Object.prototype, whose values are
    functions (an object for __proto__): all truthy, none a timeout. *)
Definition objectPrototype : list string :=
  ["constructor"; "hasOwnProperty"; "isPrototypeOf"; "propertyIsEnumerable";
   "toLocaleString"; "toString"; "valueOf"; "__proto__";
   "__defineGetter__"; "__defineSetter__"; "__lookupGetter__"; "__lookupSetter__"].

Definition inherited (name : string) : bool := bool_decide (name ∈ objectPrototype).

(** [delete userTimers[timerType]] *)
Definition deleteEntry (r : nat) (timerType : string) (w : World) : World :=
  set_timerObjects (<[r := delete timerType (deref r w)]> (timerObjects w)) w.

(** A timeout id (a Timeout object in Node) is always truthy.  When the
    name is not an own property but an inherited one, the test succeeds as
    well, but then clearTimeout receives a value that is no timeout and
    delete finds no own property: nothing changes, as in the last branch. *)
Definition _clearTimer (userId timerType : string) (w : World) : World :=
  let '(r, w1) := _getUserTimers userId w in
  match deref r w1 !! timerType with
  | Some id => deleteEntry r timerType (clearTimeout id w1)
  | None => w1
  end.

(** Called by the four start methods below only, with their timer types. *)
Definition _setTimer (userId timerType : string) (callback : TimerCallback)
    (ms : Q) (w : World) : World :=
  let w1 := _clearTimer userId timerType w in
  let '(r, w2) := _getUserTimers userId w1 in
  let '(id, w3) := setTimeout (TaskTimer r timerType callback) ms w2 in
  set_timerObjects (<[r := <[timerType := id]> (deref r w3)]> (timerObjects w3)) w3.

Definition startTypingIdleTimer (userId : string) (callback : TimerCallback) :=
  _setTimer userId "typingIdle" callback 5000.

Definition startMaxTypingTimer (userId : string) (callback : TimerCallback) :=
  _setTimer userId "maxTyping" callback 30000.

Definition startGroupDelayTimer (userId : string) (callback : TimerCallback) :=
  _setTimer userId "groupDelay" callback 2000.

Definition startEndUpdateTimer (userId : string) (callback : TimerCallback) :=
  _setTimer userId "endUpdate" callback 25000.

(** [Object.keys(userTimers).forEach(timerType => this._clearTimer(...))] *)
Definition cancelAllTimers (userId : string) (w : World) : World :=
  let '(r, w1) := _getUserTimers userId w in
  let timerTypes := (map_to_list (deref r w1)).*1 in
  foldl (fun acc timerType => _clearTimer userId timerType acc) w1 timerTypes.

Definition cancelTypingTimers (userId : string) (w : World) : World :=
  _clearTimer userId "maxTyping" (_clearTimer userId "typingIdle" w).

Definition cancelEndUpdateTimer (userId : string) (w : World) : World :=
  _clearTimer userId "endUpdate" w.

Definition cancelGroupDelayTimer (userId : string) (w : World) : World :=
  _clearTimer userId "groupDelay" w.

(** [!!userTimers[timerType]]: an own entry, or an inherited property. *)
Definition isTimerActive (userId timerType : string) (w : World) : bool * World :=
  let '(r, w1) := _getUserTimers userId w in
  (bool_decide (is_Some (deref r w1 !! timerType)) || inherited timerType, w1).

Definition cleanup (userId : string) (w : World) : World :=
  let w1 := cancelAllTimers userId w in
  set_timers (delete userId (timers w1)) w1.

End TimerManager.

(** ** BufferManager *)

(** [Math.max] on two numbers. *)
Definition Math_max (a b : Q) : Q := if Qlt_le_dec a b then b else a.

Module BufferManager.
Import UserSessionManager.

Section Callbacks.

(** How a callback received by startSendingBuffer is called. *)
Variable invokeGroupComplete : GroupCompleteCb -> string -> option Z -> World -> World.
Variable invokeBufferComplete : BufferCompleteCb -> string -> World -> World.

Definition stopSending (userId : string) (w : World) : World :=
  match sendingTimeouts w !! userId with
  | Some timeoutId =>
      let w1 := clearTimeout timeoutId w in
      set_sendingTimeouts (delete userId (sendingTimeouts w1)) w1
  | None => w
  end.

(** The branch taken when [!socket || !socket.connected]. *)
Definition socketGone (userId : string) (w : World) : World :=
  stopSending userId (log (LogSocketDisconnected userId) w).

(** The rest of _sendNextBlock once a block has been read. *)
Definition sendBlock (userId socket : string)
    (onGroupComplete : option GroupCompleteCb)
    (onBufferComplete : option BufferCompleteCb)
    (block : Block) (w : World) : World :=
  let '(currentGroup, w) := getCurrentGroup userId w in
  let '(session, w) := getSession userId w in
  let blockIndex := currentIndex (buffer session) in
  let w := log (LogBlock (blockIndex + 1) currentGroup) w in
  let w := emit socket (AiBlock (text block) (group block) (now w)) w in
  let w := addAIMessage userId (text block) w in
  let previousGroup := currentGroup in
  let w := advanceBlock userId w in
  let '(newGroup, w) := getCurrentGroup userId w in
  let w :=
    if bool_decide (previousGroup <> newGroup) then
      match onGroupComplete with
      | Some cb => invokeGroupComplete cb userId previousGroup w
      | None => w
      end
    else w in
  let ms := Math_max (typingTime block * 1000) 1000 in
  let '(timeoutId, w) :=
    setTimeout (TaskSendNext userId (Some socket) onGroupComplete onBufferComplete) ms w in
  set_sendingTimeouts (<[userId := timeoutId]> (sendingTimeouts w)) w.

Definition _sendNextBlock (userId : string) (socket : option string)
    (onGroupComplete : option GroupCompleteCb)
    (onBufferComplete : option BufferCompleteCb) (w : World) : World :=
  match socket with
  | None => socketGone userId w
  | Some s =>
    if negb (isConnected s w) then socketGone userId w
    else
      let '(paused, w) := isBufferPaused userId w in
      if paused then w
      else
        let '(updateCheckState, w) := getUpdateCheckState userId w in
        if needsUpdate updateCheckState && negb (waitingForGroup updateCheckState)
        then
          set_sendingTimeouts (delete userId (sendingTimeouts w)) (log LogStoppingSend w)
        else
          let '(block, w) := getNextBlock userId w in
          match block with
          | None =>
              let w := set_sendingTimeouts (delete userId (sendingTimeouts w)) w in
              match onBufferComplete with
              | Some cb => invokeBufferComplete cb userId w
              | None => w
              end
          | Some block => sendBlock userId s onGroupComplete onBufferComplete block w
          end
  end.

(** An async function without any await: it runs to its end at once. *)
Definition startSendingBuffer (userId : string) (socket : option string)
    (onGroupComplete : option GroupCompleteCb)
    (onBufferComplete : option BufferCompleteCb) (w : World) : World :=
  if socketDead socket w then log LogCannotStart w
  else
    let w :=
      match socket with
      | Some s => set_bmUserSockets (<[userId := s]> (bmUserSockets w)) w
      | None => w
      end in
    let w := stopSending userId w in
    let w := resumeBuffer userId w in
    _sendNextBlock userId socket onGroupComplete onBufferComplete w.

Definition pauseSending (userId : string) (w : World) : World :=
  pauseBuffer userId (stopSending userId w).

Definition resumeSending (userId : string) (socket : option string)
    (onGroupComplete : option GroupCompleteCb)
    (onBufferComplete : option BufferCompleteCb) (w : World) : World :=
  let '(paused, w) := isBufferPaused userId w in
  if negb paused then w
  else
    let w := resumeBuffer userId w in
    _sendNextBlock userId socket onGroupComplete onBufferComplete w.

Definition isSending (userId : string) (w : World) : bool :=
  bool_decide (is_Some (sendingTimeouts w !! userId)).

Definition cleanup (userId : string) (w : World) : World :=
  let w := stopSending userId w in
  set_bmUserSockets (delete userId (bmUserSockets w)) w.

End Callbacks.
End BufferManager.

(** ** GeminiService.updateCheck: the prompt *)

Module GeminiService.

(** [parts.join('\n')] *)
Fixpoint join (sep : string) (parts : list string) : string :=
  match parts with
  | [] => ""
  | [p] => p
  | p :: rest => p +:+ sep +:+ join sep rest
  end.

Definition newline : string := String (Ascii.ascii_of_nat 10) EmptyString.

(** [currentBuffer && currentBuffer.length > 0 ? currentBuffer.slice(0, currentIndex) : []] *)
Definition sentBlocks (currentBuffer : list Block) (index : nat) : list Block :=
  if bool_decide (0 < length currentBuffer) then take index currentBuffer else [].

Definition pendingBlocks (currentBuffer : list Block) (index : nat) : list Block :=
  if bool_decide (0 < length currentBuffer) then drop index currentBuffer else [].

Definition blocksText (bs : list Block) : string :=
  if bool_decide (0 < length bs) then join newline (text <$> bs) else "None".

Definition isUser (msg : HistoryEntry) : bool :=
  match role msg with User => true | Model => false end.

Definition userMessages (recentHistory : list HistoryEntry) : string :=
  join newline (content <$> List.filter isUser recentHistory).

(** The prompt sent to the evaluator model. *)
Definition checkPrompt (evaluatorPrompt : string) (recentHistory : list HistoryEntry)
    (currentBuffer : list Block) (index : nat) : string :=
  evaluatorPrompt +:+ newline +:+ newline +:+
  "SENT BLOCKS:" +:+ newline +:+
  blocksText (sentBlocks currentBuffer index) +:+ newline +:+ newline +:+
  "PENDING BLOCKS:" +:+ newline +:+
  blocksText (pendingBlocks currentBuffer index) +:+ newline +:+ newline +:+
  "USER MESSAGES:" +:+ newline +:+
  userMessages recentHistory.

End GeminiService.

(** ** StateOrchestrator *)

Module StateOrchestrator.
Import UserSessionManager.

Definition registerSocket (userId socket : string) (w : World) : World :=
  set_userSockets (<[userId := socket]> (userSockets w)) w.

Definition getSocket (userId : string) (w : World) : option string :=
  userSockets w !! userId.

Definition _startGroupDelayFlow (userId : string) (w : World) : World :=
  TimerManager.startGroupDelayTimer userId (CbGroupDelay userId) w.

Definition _handleGroupComplete (userId : string) (groupId : option Z) (w : World) : World :=
  let w := log (LogGroupComplete groupId) w in
  let '(updateCheckState, w) := getUpdateCheckState userId w in
  if needsUpdate updateCheckState && waitingForGroup updateCheckState then
    let w := setWaitingForGroup userId false w in
    _startGroupDelayFlow userId w
  else w.

Definition _handleBufferComplete (userId : string) (w : World) : World :=
  let w := log LogAllBlocksSent w in
  let w :=
    match getSocket userId w with
    | Some socket => emit socket AiComplete w
    | None => w
    end in
  let '(updateCheckState, w) := getUpdateCheckState userId w in
  if needsUpdate updateCheckState then _startGroupDelayFlow userId w
  else
    let '(hasUserMessaged, w) := hasUserMessagedSinceEndUpdate userId w in
    if hasUserMessaged then
      let w := log LogStartingEndUpdate w in
      let w := setEndUpdateTimer userId true w in
      TimerManager.startEndUpdateTimer userId (CbEndUpdate userId) w
    else log LogSkippingEndUpdate w.

Definition invokeGroupComplete (cb : GroupCompleteCb) :=
  match cb with OnGroupComplete => _handleGroupComplete end.

Definition invokeBufferComplete (cb : BufferCompleteCb) :=
  match cb with OnBufferComplete => _handleBufferComplete end.

(** The BufferManager of the server, called with these callbacks. *)
Definition stopSending := BufferManager.stopSending.
Definition isSending := BufferManager.isSending.
Definition _sendNextBlock :=
  BufferManager._sendNextBlock invokeGroupComplete invokeBufferComplete.
Definition startSendingBuffer :=
  BufferManager.startSendingBuffer invokeGroupComplete invokeBufferComplete.

(** Registers a pending call to the language model. *)
Definition callLLM (c : LLMCall) (w : World) : World :=
  let k := nextCall w in
  set_nextCall (S k) (set_inflight (<[k := c]> (inflight w)) w).

(** triggerUpdateBuffer up to [await this.geminiService.updateBuffer(...)]. *)
Definition triggerUpdateBuffer (userId : string) (w : World) : World :=
  let w := log LogGenerating w in
  let w := TimerManager.cancelAllTimers userId w in
  let w := stopSending userId w in
  let '(hist, w) := getHistory userId None w in
  let '(session, w) := getSession userId w in
  let index := currentIndex (buffer session) in
  let pendingBlocks := drop index (blocks (buffer session)) in
  callLLM (CallUpdateBuffer userId hist pendingBlocks) w.

(** triggerUpdateBuffer after the call has returned [newBlocks]. *)
Definition updateBufferResolved (userId : string) (newBlocks : list Block) (w : World) : World :=
  let w := setBuffer userId newBlocks w in
  let w := setUpdateCheckNeeded userId false w in
  let w := setWaitingForGroup userId false w in
  match getSocket userId w with
  | Some socket =>
      startSendingBuffer userId (Some socket) (Some OnGroupComplete) (Some OnBufferComplete) w
  | None => log LogNoSocket w
  end.

(** The catch block of triggerUpdateBuffer, entered when the call throws. *)
Definition updateBufferRejected (userId message : string) (w : World) : World :=
  let w := log (LogUpdateBufferError message) w in
  match getSocket userId w with
  | Some socket => emit socket (ErrorEvent "Failed to generate response" (Some message)) w
  | None => w
  end.

(** triggerUpdateCheck up to [await this.geminiService.updateCheck(...)]. *)
Definition triggerUpdateCheck (userId : string) (w : World) : World :=
  let '(recentHistory, w) := getHistory userId (Some 20) w in
  let '(session, w) := getSession userId w in
  let currentBuffer := blocks (buffer session) in
  let index := currentIndex (buffer session) in
  callLLM (CallUpdateCheck userId recentHistory currentBuffer index) w.

(** triggerUpdateCheck after the call has returned [needed]; updateCheck
    never throws, it answers false on every error. *)
Definition updateCheckSettled (userId : string) (needed : bool) (w : World) : World :=
  if needed then
    let w := setUpdateCheckNeeded userId true w in
    let '(isGroupComplete, w) := isCurrentGroupComplete userId w in
    if isGroupComplete then
      let w := stopSending userId w in
      _startGroupDelayFlow userId w
    else setWaitingForGroup userId true w
  else setUpdateCheckNeeded userId false w.

Definition handleUserMessage (userId message socket : string) (w : World) : World :=
  let w := registerSocket userId socket w in
  let w := addUserMessage userId message w in
  let w := setUserMessagedSinceEndUpdate userId true w in
  let w := TimerManager.cancelTypingTimers userId w in
  let w := setTypingState userId false w in
  let w := disableIdleTimer userId w in
  let w := TimerManager.cancelEndUpdateTimer userId w in
  let w := setEndUpdateTimer userId false w in
  let '(bufferComplete, w) := isBufferComplete userId w in
  let sending := isSending userId w in
  if sending && negb bufferComplete then triggerUpdateCheck userId w
  else triggerUpdateBuffer userId w.

Definition handleTypingStatus (userId : string) (typingNow : bool) (socket : string)
    (w : World) : World :=
  let w := registerSocket userId socket w in
  let w := setTypingState userId typingNow w in
  if typingNow then
    let w := TimerManager.cancelTypingTimers userId w in
    let w := TimerManager.cancelGroupDelayTimer userId w in
    let '(endUpdateState, w) := getEndUpdateState userId w in
    let w :=
      if timerActive endUpdateState then
        let w := TimerManager.cancelEndUpdateTimer userId w in
        let w := setEndUpdateTimer userId false w in
        enableIdleTimer userId w
      else w in
    TimerManager.startMaxTypingTimer userId (CbMaxTyping userId) w
  else
    let w := TimerManager.cancelTypingTimers userId w in
    let '(typingState, w) := getTypingState userId w in
    if shouldUseIdleTimer typingState then
      TimerManager.startTypingIdleTimer userId (CbTypingIdle userId) w
    else w.

(** The bodies of the timer closures. *)
Definition invokeTimerCallback (cb : TimerCallback) (w : World) : World :=
  match cb with
  | CbMaxTyping userId =>
      triggerUpdateBuffer userId (setUserMessagedSinceEndUpdate userId false w)
  | CbTypingIdle userId =>
      let w := disableIdleTimer userId w in
      let w := setUserMessagedSinceEndUpdate userId false w in
      triggerUpdateBuffer userId w
  | CbGroupDelay userId =>
      let '(typingState, w) := getTypingState userId w in
      if isTyping typingState then enableIdleTimer userId w
      else TimerManager.startTypingIdleTimer userId (CbIdleAfterGroupDelay userId) w
  | CbIdleAfterGroupDelay userId =>
      triggerUpdateBuffer userId (setUserMessagedSinceEndUpdate userId false w)
  | CbEndUpdate userId =>
      triggerUpdateBuffer userId (setUserMessagedSinceEndUpdate userId false w)
  end.

Definition stopAIResponse (userId : string) (socket : option string) (w : World) : World :=
  let w := TimerManager.cancelAllTimers userId w in
  let w := stopSending userId w in
  let w := markBufferComplete userId w in
  match socket with
  | Some s => emit s AiComplete w
  | None => w
  end.

Definition cleanup (userId : string) (w : World) : World :=
  let w := TimerManager.cleanup userId w in
  let w := BufferManager.cleanup userId w in
  let w := clearSession userId w in
  set_userSockets (delete userId (userSockets w)) w.

End StateOrchestrator.

(** ** The server: socket handlers of index.js and the event loop *)

(** What a timeout does when it fires. *)
Definition runTask (t : Task) (w : World) : World :=
  match t with
  | TaskTimer r timerType callback =>
      StateOrchestrator.invokeTimerCallback callback (TimerManager.deleteEntry r timerType w)
  | TaskSendNext userId socket onGroupComplete onBufferComplete =>
      StateOrchestrator._sendNextBlock userId socket onGroupComplete onBufferComplete w
  end.

(** One turn of the event loop.  The user id of a connection is its
    socket id. *)
Inductive Event :=
| EConnection (socket : string)
| EUserMessage (socket message : string)
    (* 'user_message', or 'set_chat_mode' with an initial message *)
| ETypingStatus (socket : string) (typingNow : bool)
| EStopAiResponse (socket : string)
| EEndChat (socket : string)
| EDisconnect (socket : string)
| ETimeout (id : nat)
| EUpdateBufferSettled (call : nat) (result : string + list Block)
    (* updateBuffer threw Error(message), or returned validated blocks *)
| EUpdateCheckSettled (call : nat) (needed : bool)
| EClock (t : nat).

Definition initialWorld : World :=
  mkWorld ∅ ∅ ∅ 0 ∅ ∅ ∅ ∅ ∅ 0 ∅ 0 [] [] 0.

(** [None] when the event cannot happen in [w]: a client event on a socket
    that is not connected, a timeout that is not pending, a call that is
    not awaited. *)
Definition step (e : Event) (w : World) : option World :=
  match e with
  | EConnection s =>
      match connected w !! s with
      | Some _ => None
      | None =>
          Some (StateOrchestrator.registerSocket s s
                  (set_connected (<[s := true]> (connected w)) w))
      end
  | EUserMessage s message =>
      if isConnected s w then
        Some (StateOrchestrator.handleUserMessage s message s
                (emit s (MessageReceived (now w) message (now w)) w))
      else None
  | ETypingStatus s typingNow =>
      if isConnected s w then Some (StateOrchestrator.handleTypingStatus s typingNow s w)
      else None
  | EStopAiResponse s =>
      if isConnected s w then Some (StateOrchestrator.stopAIResponse s (Some s) w)
      else None
  | EEndChat s =>
      if isConnected s w then
        Some (StateOrchestrator.cleanup s (StateOrchestrator.stopAIResponse s (Some s) w))
      else None
  | EDisconnect s =>
      if isConnected s w then
        Some (StateOrchestrator.cleanup s (set_connected (<[s := false]> (connected w)) w))
      else None
  | ETimeout id =>
      match pending w !! id with
      | Some t => Some (runTask (task t) (set_pending (delete id (pending w)) w))
      | None => None
      end
  | EUpdateBufferSettled k result =>
      match inflight w !! k with
      | Some (CallUpdateBuffer userId _ _) =>
          let w := set_inflight (delete k (inflight w)) w in
          match result with
          | inr newBlocks => Some (StateOrchestrator.updateBufferResolved userId newBlocks w)
          | inl message => Some (StateOrchestrator.updateBufferRejected userId message w)
          end
      | _ => None
      end
  | EUpdateCheckSettled k needed =>
      match inflight w !! k with
      | Some (CallUpdateCheck userId _ _ _) =>
          Some (StateOrchestrator.updateCheckSettled userId needed
                  (set_inflight (delete k (inflight w)) w))
      | _ => None
      end
  | EClock t => Some (set_now t w)
  end.

Fixpoint run (es : list Event) (w : World) : option World :=
  match es with
  | [] => Some w
  | e :: rest =>
      match step e w with
      | Some w' => run rest w'
      | None => None
      end
  end.

Definition reachable (w : World) : Prop := exists es, run es initialWorld = Some w.

(** * Specification-level definitions *)

(** The session [getSession] returns for a user: the stored one, or the
    fresh one it would create. *)
Definition sessionOf (userId : string) (w : World) : Session :=
  default UserSessionManager.freshSession (sessions w !! userId).

(** The state after [getSession] has been called for a user. *)
Definition touch (userId : string) (w : World) : World :=
  set_sessions (<[userId := sessionOf userId w]> (sessions w)) w.

(** The user and the timer type a timer closure was created for. *)
Definition callbackUser (cb : TimerCallback) : string :=
  match cb with
  | CbMaxTyping u | CbTypingIdle u | CbGroupDelay u
  | CbIdleAfterGroupDelay u | CbEndUpdate u => u
  end.

Definition callbackType (cb : TimerCallback) : string :=
  match cb with
  | CbMaxTyping _ => "maxTyping"
  | CbTypingIdle _ | CbIdleAfterGroupDelay _ => "typingIdle"
  | CbGroupDelay _ => "groupDelay"
  | CbEndUpdate _ => "endUpdate"
  end.

(** ** How the set of scheduled timeouts changes

    [Evolves P w w']: every timeout pending in [w'] was already pending in
    [w], or was scheduled in between with a task satisfying [P]. *)
Definition Evolves (P : Task -> Prop) (w w' : World) : Prop :=
  nextTimeout w <= nextTimeout w' /\
  forall i t, pending w' !! i = Some t ->
    pending w !! i = Some t \/
    (nextTimeout w <= i < nextTimeout w' /\ P (task t)).

Definition isTimerTask (t : Task) : Prop :=
  match t with TaskTimer _ _ _ => True | TaskSendNext _ _ _ _ => False end.

Definition isPacerTask (userId : string) (t : Task) : Prop :=
  match t with
  | TaskSendNext u s _ _ => u = userId /\ s = Some userId
  | TaskTimer _ _ _ => False
  end.

(** A timer task of the given type, set by the given closure. *)
Definition timerTaskOf (timerType : string) (cb : TimerCallback) (t : Task) : Prop :=
  exists r, t = TaskTimer r timerType cb.

(** ** The invariant of the server *)

Record Inv (w : World) : Prop := mkInv {
  (* timeout ids and object references below the counters are the only
     ones in use *)
  inv_ids : forall i t, pending w !! i = Some t -> i < nextTimeout w;
  inv_refs : forall u r, timers w !! u = Some r -> r < nextObject w;
  (* a pending timer timeout is the one recorded in the timer object of
     its user, under its type *)
  inv_timer : forall i r timerType cb d,
    pending w !! i = Some (mkTimeout (TaskTimer r timerType cb) d) ->
    timers w !! callbackUser cb = Some r /\
    TimerManager.deref r w !! timerType = Some i /\
    timerType = callbackType cb;
  (* a pending pacer timeout is the one recorded in sendingTimeouts, and
     sends to the socket of its user *)
  inv_pacer : forall i u s g b d,
    pending w !! i = Some (mkTimeout (TaskSendNext u s g b) d) ->
    sendingTimeouts w !! u = Some i /\ s = Some u;
  (* a user is registered with its own socket *)
  inv_sockets : forall u s, userSockets w !! u = Some s -> s = u
}.

(** No emission chain is scheduled for the user. *)
Definition NoChain (userId : string) (w : World) : Prop :=
  forall i s g b d, pending w !! i <> Some (mkTimeout (TaskSendNext userId s g b) d).

(** The pending pacer timeouts of a user, and its pending timer timeouts
    of one type. *)
Definition isChainOf (userId : string) (t : Timeout) : Prop :=
  exists s g b, task t = TaskSendNext userId s g b.

Definition isTimerOf (userId timerType : string) (t : Timeout) : Prop :=
  exists r cb, task t = TaskTimer r timerType cb /\ callbackUser cb = userId.

(** ** What a state change leaves alone *)

(** A UserSessionManager method changes the sessions only. *)
Class SessionOp (f : World -> World) : Prop := {
  sop_timers : forall w, timers (f w) = timers w;
  sop_timerObjects : forall w, timerObjects (f w) = timerObjects w;
  sop_nextObject : forall w, nextObject (f w) = nextObject w;
  sop_sendingTimeouts : forall w, sendingTimeouts (f w) = sendingTimeouts w;
  sop_bmUserSockets : forall w, bmUserSockets (f w) = bmUserSockets w;
  sop_userSockets : forall w, userSockets (f w) = userSockets w;
  sop_connected : forall w, connected (f w) = connected w;
  sop_pending : forall w, pending (f w) = pending w;
  sop_nextTimeout : forall w, nextTimeout (f w) = nextTimeout w;
  sop_inflight : forall w, inflight (f w) = inflight w;
  sop_nextCall : forall w, nextCall (f w) = nextCall w;
  sop_out : forall w, out (f w) = out w;
  sop_console : forall w, console (f w) = console w;
  sop_now : forall w, now (f w) = now w
}.

(** A TimerManager method changes the timers and the scheduled timeouts
    only. *)
Class TimerOp (f : World -> World) : Prop := {
  top_sessions : forall w, sessions (f w) = sessions w;
  top_sendingTimeouts : forall w, sendingTimeouts (f w) = sendingTimeouts w;
  top_bmUserSockets : forall w, bmUserSockets (f w) = bmUserSockets w;
  top_userSockets : forall w, userSockets (f w) = userSockets w;
  top_connected : forall w, connected (f w) = connected w;
  top_inflight : forall w, inflight (f w) = inflight w;
  top_nextCall : forall w, nextCall (f w) = nextCall w;
  top_out : forall w, out (f w) = out w;
  top_console : forall w, console (f w) = console w;
  top_now : forall w, now (f w) = now w
}.

(** The timer object of a user and the state once it exists. *)
Definition timerRef (userId : string) (w : World) : nat :=
  (TimerManager._getUserTimers userId w).1.

Definition alloc (userId : string) (w : World) : World :=
  (TimerManager._getUserTimers userId w).2.

(** The loop of cancelAllTimers. *)
Definition clearAll (u : string) (w : World) (timerTypes : list string) : World :=
  foldl (fun acc timerType => TimerManager._clearTimer u timerType acc) w timerTypes.

(** ** The emission step *)

(** A relevance-triggered interrupt is committed for the user:
    [needsUpdate && !waitingForGroup]. *)
Definition committed (userId : string) (w : World) : bool :=
  let c := updateCheck (sessionOf userId w) in
  needsUpdate c && negb (waitingForGroup c).

(** The block the emission step of the user sends on the socket, if it
    sends one: the socket is connected, the buffer is not paused, no
    interrupt is committed and the cursor is in range. *)
Definition nextEmission (userId socket : string) (w : World) : option Block :=
  let b := buffer (sessionOf userId w) in
  if isConnected socket w && negb (isPaused b) && negb (committed userId w)
  then blocks b !! currentIndex b
  else None.

(** The state in which the group callback is called or skipped: the block
    has been emitted and recorded, the cursor advanced. *)
Definition afterEmission (u s : string) (b : Block) (w : World) : World :=
  let buf := buffer (sessionOf u w) in
  touch u (UserSessionManager.advanceBlock u (UserSessionManager.addAIMessage u (text b)
    (emit s (AiBlock (text b) (group b) (now w))
       (log (LogBlock (currentIndex buf + 1) (currentGroup buf)) (touch u w))))).

(** ** Example executions *)

(** The state reached from the initial one by a list of events (the
    initial state if one of them cannot happen). *)
Definition exec (es : list Event) : World := default initialWorld (run es initialWorld).

Definition blockA : Block := mkBlock "a" 1 1.
Definition blockB : Block := mkBlock "b" 3 1.
Definition blockC : Block := mkBlock "c" 1 2.
Definition blockQuick : Block := mkBlock "ok" (1 # 2) 1.

(** A client connected, said "hi", and the model answered with three
    blocks; the first one has been sent. *)
Definition midStream : World :=
  exec [EConnection "s"; EUserMessage "s" "hi";
        EUpdateBufferSettled 0 (inr [blockA; blockB; blockC])].

(** The same when the second block types in half a second. *)
Definition midStreamQuick : World :=
  exec [EConnection "s"; EUserMessage "s" "hi";
        EUpdateBufferSettled 0 (inr [blockA; blockQuick])].

(** Stopping the pacer changes sendingTimeouts and the scheduled timeouts
    only. *)
Class ChainOp (f : World -> World) : Prop := {
  cop_sessions : forall w, sessions (f w) = sessions w;
  cop_timers : forall w, timers (f w) = timers w;
  cop_timerObjects : forall w, timerObjects (f w) = timerObjects w;
  cop_nextObject : forall w, nextObject (f w) = nextObject w;
  cop_bmUserSockets : forall w, bmUserSockets (f w) = bmUserSockets w;
  cop_userSockets : forall w, userSockets (f w) = userSockets w;
  cop_connected : forall w, connected (f w) = connected w;
  cop_nextTimeout : forall w, nextTimeout (f w) = nextTimeout w;
  cop_inflight : forall w, inflight (f w) = inflight w;
  cop_nextCall : forall w, nextCall (f w) = nextCall w;
  cop_out : forall w, out (f w) = out w;
  cop_console : forall w, console (f w) = console w;
  cop_now : forall w, now (f w) = now w
}.

(** ** Stop, twice *)

(** The claim that a second Stop right after a first one is not observable:
    no further emission, same sessions. *)
Definition StopIdempotent : Prop :=
  forall w s w1 w2,
    step (EStopAiResponse s) w = Some w1 ->
    step (EStopAiResponse s) w1 = Some w2 ->
    out w2 = out w1 /\ sessions w2 = sessions w1.

(** ** Regeneration *)

(** The buffer setBuffer installs. *)
Definition installed (bs : list Block) : Buffer :=
  mkBuffer bs 0 (match bs with b :: _ => Some (group b) | [] => None end) false false.

(** The claim that a buffer arriving for a user whose channel is not live
    is dropped, the sessions being left as they were. *)
Definition DropsBufferWhenNotLive : Prop :=
  forall w k u h p bs w',
    inflight w !! k = Some (CallUpdateBuffer u h p) ->
    socketDead (StateOrchestrator.getSocket u w) w = true ->
    step (EUpdateBufferSettled k (inr bs)) w = Some w' ->
    sessions w' = sessions w.

(** The claim that a failed generation leaves the buffer marked complete. *)
Definition FailureMarksComplete : Prop :=
  forall w k u h p message w',
    inflight w !! k = Some (CallUpdateBuffer u h p) ->
    step (EUpdateBufferSettled k (inl message)) w = Some w' ->
    isComplete (buffer (sessionOf u w')) = true.

(** A client connected and said "hi"; the call to the model is pending. *)
Definition awaitingAnswer : World :=
  exec [EConnection "s"; EUserMessage "s" "hi"].

(** The same after the client has disconnected. *)
Definition goneBeforeAnswer : World :=
  exec [EConnection "s"; EUserMessage "s" "hi"; EDisconnect "s"].

(** ** The end-update gate *)

(** userMessagedSinceLastEndUpdate of a user. *)
Definition flagOf (userId : string) (w : World) : bool :=
  userMessagedSinceLastEndUpdate (endUpdate (sessionOf userId w)).

(** A task that is not an endUpdate timer, or is the endUpdate timer of a
    user whose flag is true in [w0]. *)
Definition endUpdateGate (w0 : World) (t : Task) : Prop :=
  forall r cb, t = TaskTimer r "endUpdate" cb ->
    exists u, cb = CbEndUpdate u /\ flagOf u w0 = true.

(** The same for the endUpdate timer of one given user. *)
Definition endUpdateGateOf (userId : string) (w0 : World) (t : Task) : Prop :=
  forall r cb, t = TaskTimer r "endUpdate" cb ->
    cb = CbEndUpdate userId /\ flagOf userId w0 = true.

Definition notEndUpdate (t : Task) : Prop :=
  forall r cb, t <> TaskTimer r "endUpdate" cb.

(** A client connected, said "hi", and the model answered with one block,
    which has been sent. *)
Definition lastBlockSent : World :=
  exec [EConnection "s"; EUserMessage "s" "hi"; EUpdateBufferSettled 0 (inr [blockA])].

(** ** The committed interrupt *)

Definition isAiBlock (e : ServerEvent) : bool :=
  match e with AiBlock _ _ _ => true | _ => false end.

(** The ai_block events emitted on the socket of a user. *)
Definition aiBlocksTo (userId : string) (o : list (string * ServerEvent))
  : list (string * ServerEvent) :=
  List.filter (fun p => bool_decide (p.1 = userId) && isAiBlock p.2) o.

(** What an interrupt of a user is about: the two flags, the buffer with
    its cursor, and the blocks sent to the user so far. *)
Definition watchSession (s : Session) : bool * bool * list Block * nat :=
  (needsUpdate (updateCheck s), waitingForGroup (updateCheck s),
   blocks (buffer s), currentIndex (buffer s)).

Definition watch (userId : string) (w : World)
  : bool * bool * list Block * nat * list (string * ServerEvent) :=
  (watchSession (sessionOf userId w), aiBlocksTo userId (out w)).

(** An event that installs a buffer. *)
Definition installsBuffer (e : Event) : bool :=
  match e with EUpdateBufferSettled _ (inr _) => true | _ => false end.

(** The claim that once an interrupt is committed no block is sent to the
    user until a new buffer is installed. *)
Definition NoStaleEmission : Prop :=
  forall w, reachable w -> forall u, committed u w = true ->
  forall es w', run es w = Some w' ->
    (forall e, e ∈ es -> installsBuffer e = false) ->
    aiBlocksTo u (out w') = aiBlocksTo u (out w).

(** The events that end a committed interrupt of a user: the answer to a
    further relevance check of the user, a new buffer for the user, and the
    end of the user's session. *)
Definition disturbs (userId : string) (w : World) (e : Event) : bool :=
  match e with
  | EUpdateCheckSettled k _ =>
      match inflight w !! k with
      | Some (CallUpdateCheck u _ _ _) => bool_decide (u = userId)
      | _ => false
      end
  | EUpdateBufferSettled k (inr _) =>
      match inflight w !! k with
      | Some (CallUpdateBuffer u _ _) => bool_decide (u = userId)
      | _ => false
      end
  | EEndChat s | EDisconnect s => bool_decide (s = userId)
  | _ => false
  end.

Fixpoint undisturbed (userId : string) (es : list Event) (w : World) : bool :=
  match es with
  | [] => true
  | e :: rest =>
      negb (disturbs userId w e) &&
      match step e w with
      | Some w' => undisturbed userId rest w'
      | None => true
      end
  end.

(** The first two blocks of the answer have been sent, the user has said
    "wait" in between and the relevance check has answered yes: the first
    group is complete and the interrupt is committed. *)
Definition interruptCommitted : World :=
  exec [EConnection "s"; EUserMessage "s" "hi";
        EUpdateBufferSettled 0 (inr [blockA; blockB; blockC]);
        EUserMessage "s" "wait"; EUpdateCheckSettled 1 true; ETimeout 0].

(** The group delay passes, the user says "hmm", the relevance check now
    answers no, and the pacer wakes up. *)
Definition secondThoughts : list Event :=
  [ETimeout 1; EUserMessage "s" "hmm"; EUpdateCheckSettled 2 false; ETimeout 2].

(** ** Start *)

(** The claim that Start always cancels the chain scheduled before, also
    when it is called without a live socket. *)
Definition StartAlwaysCancels : Prop :=
  forall w, reachable w ->
  forall u s g bc i t,
    pending w !! i = Some t -> isChainOf u t ->
    pending (StateOrchestrator.startSendingBuffer u s g bc w) !! i = None.

(** A client is typing. *)
Definition clientTyping : World :=
  exec [EConnection "s"; ETypingStatus "s" true].

(** From the committed interrupt: the group delay passes and the pacer
    wakes up. *)
Definition pacerWakes : World :=
  default initialWorld (run [ETimeout 1; ETimeout 2] interruptCommitted).

(** From the committed interrupt: the user has second thoughts. *)
Definition staleBlockSent : World :=
  default initialWorld (run secondThoughts interruptCommitted).

(** ** The prompt of the relevance check, as the specification words it *)

(** The contents of the entries with role user, in the order of the
    history; the entries with role model are left out. *)
Fixpoint userContentsSpec (recentHistory : list HistoryEntry) : list string :=
  match recentHistory with
  | [] => []
  | msg :: rest =>
      match role msg with
      | User => content msg :: userContentsSpec rest
      | Model => userContentsSpec rest
      end
  end.

(** One line for each text; the word None for an empty list of blocks. *)
Definition sectionSpec (lines : list string) : string :=
  match lines with
  | [] => "None"
  | _ => String.concat GeminiService.newline lines
  end.

(** The evaluator prompt followed by the three sections: the blocks at the
    indices below currentIndex, the blocks from currentIndex on, and the
    user messages. *)
Definition checkPromptSpec (evaluatorPrompt : string) (recentHistory : list HistoryEntry)
    (currentBuffer : list Block) (currentIndex : nat) : list string :=
  [evaluatorPrompt; "";
   "SENT BLOCKS:"; sectionSpec (text <$> take currentIndex currentBuffer); "";
   "PENDING BLOCKS:"; sectionSpec (text <$> drop currentIndex currentBuffer); "";
   "USER MESSAGES:"; String.concat GeminiService.newline (userContentsSpec recentHistory)].

(** A history of two user messages around an answer of the model. *)
Definition exampleHistory : list HistoryEntry :=
  [mkEntry User "hi" 1; mkEntry Model "hello" 2; mkEntry User "wait" 3].

(** ** The cursor of a buffer *)

(** The cursor is within the blocks or just past them, and currentGroup is
    the group of the block under the cursor (null past the end). *)
Definition wellFormed (b : Buffer) : Prop :=
  currentIndex b <= length (blocks b) /\
  currentGroup b = group <$> blocks b !! currentIndex b.

(** What wellFormed looks at. *)
Definition cursorOf (b : Buffer) : list Block * nat * option Z :=
  (blocks b, currentIndex b, currentGroup b).

(** Every block has been sent. *)
Definition exhausted (b : Buffer) : bool :=
  bool_decide (length (blocks b) <= currentIndex b).

(** A buffer of three blocks is being sent; the first block is out. *)
Definition firstBlockSent : World :=
  exec [EConnection "s"; EUserMessage "s" "hi";
        EUpdateBufferSettled 0 (inr [blockA; blockB; blockC])].

(** ** A user message *)

(** The state of handleUserMessage before it chooses between the relevance
    check and a regeneration. *)
Definition messageRecorded (userId message socket : string) (w : World) : World :=
  let w := StateOrchestrator.registerSocket userId socket w in
  let w := UserSessionManager.addUserMessage userId message w in
  let w := UserSessionManager.setUserMessagedSinceEndUpdate userId true w in
  let w := TimerManager.cancelTypingTimers userId w in
  let w := UserSessionManager.setTypingState userId false w in
  let w := UserSessionManager.disableIdleTimer userId w in
  let w := TimerManager.cancelEndUpdateTimer userId w in
  UserSessionManager.setEndUpdateTimer userId false w.

(** The client of firstBlockSent has disconnected. *)
Definition afterDisconnect : World :=
  exec [EConnection "s"; EUserMessage "s" "hi";
        EUpdateBufferSettled 0 (inr [blockA; blockB; blockC]); EDisconnect "s"].

(** ** Starting and cancelling a timer *)

(** What a start method of the TimerManager does for its timer type and
    delay: one timeout is scheduled, with the delay, under the next id; the
    timer is active afterwards and the timers of the other types are as
    they were; clearing the timer removes the timeout again. *)
Definition startsTimer (start : string -> TimerCallback -> World -> World)
    (timerType : string) (ms : Q) : Prop :=
  forall userId callback w,
    let w1 := start userId callback w in
    (TimerManager.isTimerActive userId timerType w1).1 = true /\
    pending w1 !! nextTimeout w =
      Some (mkTimeout (TaskTimer (timerRef userId w) timerType callback) ms) /\
    nextTimeout w1 = S (nextTimeout w) /\
    (forall other, other <> timerType ->
       (TimerManager.isTimerActive userId other w1).1 =
       (TimerManager.isTimerActive userId other w).1) /\
    (TimerManager.isTimerActive userId timerType
       (TimerManager._clearTimer userId timerType w1)).1 = false /\
    pending (TimerManager._clearTimer userId timerType w1) !! nextTimeout w = None.

(** * Proofs *)

(** ** Field updates *)

Lemma world_eta (w : World) :
  mkWorld (sessions w) (timers w) (timerObjects w) (nextObject w) (sendingTimeouts w)
    (bmUserSockets w) (userSockets w) (connected w) (pending w) (nextTimeout w)
    (inflight w) (nextCall w) (out w) (console w) (now w) = w.
Proof. by destruct w. Qed.

Lemma set_sessions_id (w : World) : set_sessions (sessions w) w = w.
Proof. by destruct w. Qed.

(** ** UserSessionManager *)

Section SessionManagerFacts.
Import UserSessionManager.

Lemma sessionOf_set_sessions u m w :
  sessionOf u (set_sessions m w) = default freshSession (m !! u).
Proof. done. Qed.

Lemma sessionOf_insert u u' s w :
  sessionOf u (set_sessions (<[u' := s]> (sessions w)) w)
  = if decide (u' = u) then s else sessionOf u w.
Proof.
  unfold sessionOf; simpl. rewrite lookup_insert. by case_decide.
Qed.

Lemma getSession_eq u w : getSession u w = (sessionOf u w, touch u w).
Proof.
  unfold getSession, touch, sessionOf.
  destruct (sessions w !! u) as [s|] eqn:E; simpl; [|done].
  by rewrite insert_id, set_sessions_id.
Qed.

Lemma sessionOf_touch u u' w : sessionOf u (touch u' w) = sessionOf u w.
Proof.
  unfold touch. rewrite sessionOf_insert. case_decide; by subst.
Qed.

Lemma mutate_eq u f w :
  mutate u f w = set_sessions (<[u := f (sessionOf u w)]> (sessions w)) w.
Proof.
  unfold mutate. rewrite getSession_eq. unfold touch; simpl.
  by rewrite insert_insert_eq.
Qed.

Lemma sessionOf_mutate u u' f w :
  sessionOf u (mutate u' f w) = if decide (u' = u) then f (sessionOf u w) else sessionOf u w.
Proof. rewrite mutate_eq, sessionOf_insert. case_decide; by subst. Qed.

Lemma touch_touch u w : touch u (touch u w) = touch u w.
Proof.
  unfold touch at 1 3. rewrite sessionOf_touch. unfold touch; simpl.
  by rewrite insert_insert_eq.
Qed.

Lemma mutate_touch u f w : mutate u f (touch u w) = mutate u f w.
Proof.
  rewrite !mutate_eq, sessionOf_touch. unfold touch; simpl.
  by rewrite insert_insert_eq.
Qed.

Lemma touch_mutate u f w : touch u (mutate u f w) = mutate u f w.
Proof.
  unfold touch. rewrite sessionOf_mutate. rewrite decide_True by done.
  rewrite mutate_eq; simpl. by rewrite insert_insert_eq.
Qed.

Lemma getHistory_eq u limit w :
  getHistory u limit w =
  (match limit with
   | Some (S n) => lastN (S n) (history (sessionOf u w))
   | _ => history (sessionOf u w)
   end, touch u w).
Proof. unfold getHistory. rewrite getSession_eq. by destruct limit as [[|n]|]. Qed.

Lemma getNextBlock_eq u w :
  getNextBlock u w =
  let b := buffer (sessionOf u w) in
  if bool_decide (length (blocks b) <= currentIndex b)
  then (None, mutate u (withBuffer markComplete) w)
  else (blocks b !! currentIndex b, touch u w).
Proof.
  unfold getNextBlock. rewrite getSession_eq. simpl.
  case_bool_decide; [|done]. by rewrite mutate_touch.
Qed.

Lemma isCurrentGroupComplete_eq u w :
  isCurrentGroupComplete u w = (groupComplete (buffer (sessionOf u w)), touch u w).
Proof. unfold isCurrentGroupComplete. by rewrite getSession_eq. Qed.

Lemma getCurrentGroup_eq u w :
  getCurrentGroup u w = (currentGroup (buffer (sessionOf u w)), touch u w).
Proof. unfold getCurrentGroup. by rewrite getSession_eq. Qed.

Lemma isBufferComplete_eq u w :
  isBufferComplete u w = (isComplete (buffer (sessionOf u w)), touch u w).
Proof. unfold isBufferComplete. by rewrite getSession_eq. Qed.

Lemma isBufferPaused_eq u w :
  isBufferPaused u w = (isPaused (buffer (sessionOf u w)), touch u w).
Proof. unfold isBufferPaused. by rewrite getSession_eq. Qed.

Lemma getTypingState_eq u w : getTypingState u w = (typing (sessionOf u w), touch u w).
Proof. unfold getTypingState. by rewrite getSession_eq. Qed.

Lemma getUpdateCheckState_eq u w :
  getUpdateCheckState u w = (updateCheck (sessionOf u w), touch u w).
Proof. unfold getUpdateCheckState. by rewrite getSession_eq. Qed.

Lemma getEndUpdateState_eq u w :
  getEndUpdateState u w = (endUpdate (sessionOf u w), touch u w).
Proof. unfold getEndUpdateState. by rewrite getSession_eq. Qed.

Lemma hasUserMessagedSinceEndUpdate_eq u w :
  hasUserMessagedSinceEndUpdate u w =
  (userMessagedSinceLastEndUpdate (endUpdate (sessionOf u w)), touch u w).
Proof. unfold hasUserMessagedSinceEndUpdate. by rewrite getSession_eq. Qed.

Global Instance SessionOp_mutate u f : SessionOp (mutate u f).
Proof. split; intros w; by rewrite mutate_eq. Qed.

Global Instance SessionOp_touch u : SessionOp (touch u).
Proof. by split. Qed.

End SessionManagerFacts.

(** ** Scheduled timeouts *)

Lemma Evolves_refl P w : Evolves P w w.
Proof. split; [lia | auto]. Qed.

Lemma Evolves_trans P w1 w2 w3 :
  Evolves P w1 w2 -> Evolves P w2 w3 -> Evolves P w1 w3.
Proof.
  intros [Hn1 H1] [Hn2 H2]. split; [lia|].
  intros i t Hi. destruct (H2 i t Hi) as [Hold | [Hrange HP]].
  - destruct (H1 i t Hold) as [? | [? ?]]; [by left | right; split; [lia | done]].
  - right. split; [lia | done].
Qed.

Lemma Evolves_weaken (P Q : Task -> Prop) w w' :
  (forall t, P t -> Q t) -> Evolves P w w' -> Evolves Q w w'.
Proof.
  intros HPQ [Hn H]. split; [done|].
  intros i t Hi. destruct (H i t Hi) as [? | [? ?]]; [by left | right; auto].
Qed.

(** A state change that leaves the timeouts alone. *)
Lemma Evolves_same P w w' :
  pending w' = pending w -> nextTimeout w' = nextTimeout w -> Evolves P w w'.
Proof. intros Hp Hn. split; [lia|]. intros i t. rewrite Hp. auto. Qed.

Lemma Evolves_clearTimeout P id w : Evolves P w (clearTimeout id w).
Proof.
  split; [done|]. intros i t; simpl. rewrite lookup_delete.
  case_decide; [done | auto].
Qed.

Lemma Evolves_setTimeout (P : Task -> Prop) t ms w :
  P t -> Evolves P w (setTimeout t ms w).2.
Proof.
  intros HP. split; simpl; [lia|]. intros i t'. rewrite lookup_insert.
  case_decide as E; [|auto]. intros [= <-]. right. split; [lia | done].
Qed.

Lemma NoChain_Evolves u P w w' :
  (forall t, P t -> forall s g b, t <> TaskSendNext u s g b) ->
  Evolves P w w' -> NoChain u w -> NoChain u w'.
Proof.
  intros HP [_ H] Hno i s g b d Hi.
  destruct (H _ _ Hi) as [Hold | [_ Ht]]; [by eapply Hno|].
  by eapply HP.
Qed.

(** ** TimerManager *)

Section TimerManagerFacts.
Import TimerManager.

Lemma getUserTimers_eq u w : _getUserTimers u w = (timerRef u w, alloc u w).
Proof. unfold timerRef, alloc. by destruct (_getUserTimers u w). Qed.

Lemma alloc_registered u r w : timers w !! u = Some r -> alloc u w = w /\ timerRef u w = r.
Proof. unfold alloc, timerRef, _getUserTimers. by intros ->. Qed.

Lemma alloc_fresh u w :
  timers w !! u = None ->
  timerRef u w = nextObject w /\
  alloc u w = set_nextObject (S (nextObject w))
                (set_timerObjects (<[nextObject w := ∅]> (timerObjects w))
                   (set_timers (<[u := nextObject w]> (timers w)) w)).
Proof. unfold alloc, timerRef, _getUserTimers. by intros ->. Qed.

Lemma timers_alloc u w : timers (alloc u w) !! u = Some (timerRef u w).
Proof.
  destruct (timers w !! u) as [r|] eqn:E.
  - by destruct (alloc_registered _ _ _ E) as [-> ->].
  - destruct (alloc_fresh _ _ E) as [-> ->]. simpl. apply lookup_insert_eq.
Qed.

Lemma alloc_alloc u w : alloc u (alloc u w) = alloc u w.
Proof. by destruct (alloc_registered _ _ _ (timers_alloc u w)). Qed.

Lemma timerRef_alloc u w : timerRef u (alloc u w) = timerRef u w.
Proof. by destruct (alloc_registered _ _ _ (timers_alloc u w)). Qed.

Global Instance TimerOp_id : TimerOp (fun w => w).
Proof. by split. Qed.

Lemma TimerOp_compose f g : TimerOp f -> TimerOp g -> TimerOp (fun w => g (f w)).
Proof.
  intros [] []. split; intros w; congruence.
Qed.

Global Instance TimerOp_alloc u : TimerOp (alloc u).
Proof.
  split; intros w; destruct (timers w !! u) as [r|] eqn:E;
    first [ by destruct (alloc_registered _ _ _ E) as [-> _]
          | by destruct (alloc_fresh _ _ E) as [_ ->] ].
Qed.

Global Instance TimerOp_clearTimeout id : TimerOp (clearTimeout id).
Proof. by split. Qed.

Global Instance TimerOp_deleteEntry r n : TimerOp (deleteEntry r n).
Proof. by split. Qed.

Global Instance TimerOp_clearTimer u n : TimerOp (_clearTimer u n).
Proof.
  split; intros w; unfold _clearTimer; rewrite getUserTimers_eq;
    destruct (deref _ _ !! n); simpl; by rewrite ?top_sessions, ?top_sendingTimeouts,
      ?top_bmUserSockets, ?top_userSockets, ?top_connected, ?top_inflight, ?top_nextCall,
      ?top_out, ?top_console, ?top_now.
Qed.

Lemma clearTimer_eq u n w :
  _clearTimer u n w =
  match deref (timerRef u w) (alloc u w) !! n with
  | Some id => deleteEntry (timerRef u w) n (clearTimeout id (alloc u w))
  | None => alloc u w
  end.
Proof. unfold _clearTimer. by rewrite getUserTimers_eq. Qed.

Lemma setTimer_eq u n cb ms w :
  _setTimer u n cb ms w =
  let w1 := _clearTimer u n w in
  let r := timerRef u w1 in
  let w3 := (setTimeout (TaskTimer r n cb) ms (alloc u w1)).2 in
  set_timerObjects
    (<[r := <[n := nextTimeout (alloc u w1)]> (deref r w3)]> (timerObjects w3)) w3.
Proof. unfold _setTimer. by rewrite getUserTimers_eq. Qed.

(** The timer object of a registered user is not moved. *)
Lemma timers_clearTimer u n w : timers (_clearTimer u n w) = timers (alloc u w).
Proof. rewrite clearTimer_eq. by destruct (deref _ _ !! n). Qed.

Lemma nextObject_clearTimer u n w : nextObject (_clearTimer u n w) = nextObject (alloc u w).
Proof. rewrite clearTimer_eq. by destruct (deref _ _ !! n). Qed.

Lemma alloc_clearTimer u n w : alloc u (_clearTimer u n w) = _clearTimer u n w.
Proof.
  eapply alloc_registered. rewrite timers_clearTimer. apply timers_alloc.
Qed.

Lemma timerRef_clearTimer u n w : timerRef u (_clearTimer u n w) = timerRef u w.
Proof.
  eapply alloc_registered. rewrite timers_clearTimer. apply timers_alloc.
Qed.

Lemma deref_deleteEntry r r' n w :
  deref r' (deleteEntry r n w) = if decide (r = r') then delete n (deref r w) else deref r' w.
Proof.
  unfold deref, deleteEntry; simpl. rewrite lookup_insert. by case_decide.
Qed.

Lemma deref_alloc u r w : r < nextObject w -> deref r (alloc u w) = deref r w.
Proof.
  intros Hr. destruct (timers w !! u) as [r0|] eqn:E.
  - by destruct (alloc_registered _ _ _ E) as [-> _].
  - destruct (alloc_fresh _ _ E) as [_ ->]. unfold deref; simpl.
    rewrite lookup_insert_ne; [done | lia].
Qed.

Lemma pending_alloc u w : pending (alloc u w) = pending w.
Proof.
  destruct (timers w !! u) as [r0|] eqn:E.
  - by destruct (alloc_registered _ _ _ E) as [-> _].
  - by destruct (alloc_fresh _ _ E) as [_ ->].
Qed.

Lemma nextTimeout_alloc u w : nextTimeout (alloc u w) = nextTimeout w.
Proof.
  destruct (timers w !! u) as [r0|] eqn:E.
  - by destruct (alloc_registered _ _ _ E) as [-> _].
  - by destruct (alloc_fresh _ _ E) as [_ ->].
Qed.

Lemma Evolves_alloc P u w : Evolves P w (alloc u w).
Proof. apply Evolves_same; [apply pending_alloc | apply nextTimeout_alloc]. Qed.

Lemma Evolves_clearTimer P u n w : Evolves P w (_clearTimer u n w).
Proof.
  rewrite clearTimer_eq. destruct (deref _ _ !! n) as [id|].
  - eapply Evolves_trans; [apply Evolves_alloc|].
    eapply Evolves_trans; [apply (Evolves_clearTimeout _ id)|].
    by apply Evolves_same.
  - apply Evolves_alloc.
Qed.

Lemma Evolves_setTimer u n cb ms w :
  Evolves (timerTaskOf n cb) w (_setTimer u n cb ms w).
Proof.
  rewrite setTimer_eq; simpl.
  eapply Evolves_trans; [apply Evolves_clearTimer|].
  eapply Evolves_trans; [apply Evolves_alloc|].
  eapply Evolves_trans; [apply Evolves_setTimeout; by eexists|].
  by apply Evolves_same.
Qed.

Lemma Inv_alloc u w : Inv w -> Inv (alloc u w).
Proof.
  intros HI. destruct (timers w !! u) as [r0|] eqn:E.
  { by destruct (alloc_registered _ _ _ E) as [-> _]. }
  destruct (alloc_fresh _ _ E) as [_ ->]. destruct HI as [Hids Hrefs Htim Hpac Hsock].
  split; simpl; try done.
  - intros u' r. rewrite lookup_insert. case_decide; [intros [= <-]; lia|].
    intros H'. apply Hrefs in H'. lia.
  - intros i r n cb d Hi. destruct (Htim _ _ _ _ _ Hi) as (Hreg & Hent & Hty).
    split_and!; [|  | done].
    + rewrite lookup_insert_ne; [done | congruence].
    + unfold deref in *; simpl. rewrite lookup_insert_ne; [done|].
      apply Hrefs in Hreg. lia.
Qed.

Lemma Inv_clearTimer u n w : Inv w -> Inv (_clearTimer u n w).
Proof.
  intros HI. apply (Inv_alloc u) in HI. rewrite clearTimer_eq.
  destruct (deref _ _ !! n) as [id|] eqn:E; [|done].
  destruct HI as [Hids Hrefs Htim Hpac Hsock]. split; simpl; try done.
  - intros i t. rewrite lookup_delete. case_decide; [done | apply Hids].
  - intros i r ty cb d. rewrite lookup_delete. case_decide as Hne; [done|].
    intros Hi. destruct (Htim _ _ _ _ _ Hi) as (Hreg & Hent & Hty).
    split_and!; [done | | done].
    rewrite deref_deleteEntry. case_decide as Hr; [|done]. subst r.
    rewrite lookup_delete. case_decide as Hn; [|done]. subst ty.
    simpl in Hent. congruence.
  - intros i u' s g b d. rewrite lookup_delete. case_decide; [done | apply Hpac].
Qed.

Lemma deref_clearTimer_same u n w :
  deref (timerRef u w) (_clearTimer u n w) !! n = None.
Proof.
  rewrite clearTimer_eq.
  destruct (deref (timerRef u w) (alloc u w) !! n) as [id|] eqn:E; [|done].
  rewrite deref_deleteEntry. case_decide; [|done]. apply lookup_delete_eq.
Qed.

Lemma deref_setTimeout r t ms w : deref r (setTimeout t ms w).2 = deref r w.
Proof. done. Qed.

Lemma Inv_setTimer u n cb ms w :
  n = callbackType cb -> u = callbackUser cb -> Inv w -> Inv (_setTimer u n cb ms w).
Proof.
  intros Hn Hu HI. rewrite setTimer_eq; simpl.
  pose proof (deref_clearTimer_same u n w) as Hnone.
  apply (Inv_clearTimer u n) in HI.
  rewrite alloc_clearTimer, timerRef_clearTimer in *.
  pose proof (timers_alloc u (_clearTimer u n w)) as Hreg.
  rewrite alloc_clearTimer, timerRef_clearTimer in Hreg.
  set (w1 := _clearTimer u n w) in *. set (r := timerRef u w) in *.
  destruct HI as [Hids Hrefs Htim Hpac Hsock]. split; simpl; try done.
  - intros i t. rewrite lookup_insert. case_decide; [intros _; lia|].
    intros H'. apply Hids in H'. lia.
  - intros i r2 n2 cb2 d. rewrite lookup_insert. case_decide as Hi.
    + intros [= <- <- <- <-]. subst i.
      split_and!; [by rewrite <- Hu | | done].
      unfold deref; simpl. by rewrite lookup_insert_eq; simpl; rewrite lookup_insert_eq.
    + intros Hp. destruct (Htim _ _ _ _ _ Hp) as (Hreg2 & Hent & Hty).
      split_and!; [done | | done].
      unfold deref; simpl. rewrite lookup_insert. case_decide as Hr; [|done].
      subst r2. simpl. rewrite lookup_insert. case_decide as Hn2; [|done].
      subst n2. unfold deref in Hent, Hnone. congruence.
  - intros i u' s g b d. rewrite lookup_insert. case_decide; [done | apply Hpac].
Qed.

Global Instance TimerOp_setTimeout t ms : TimerOp (fun w => (setTimeout t ms w).2).
Proof. by split. Qed.

Global Instance TimerOp_setTimer u n cb ms : TimerOp (_setTimer u n cb ms).
Proof.
  split; intros w; rewrite setTimer_eq; simpl;
    by rewrite ?(top_sessions (f := alloc u)), ?(top_sessions (f := _clearTimer u n)),
      ?(top_sendingTimeouts (f := alloc u)), ?(top_sendingTimeouts (f := _clearTimer u n)),
      ?(top_bmUserSockets (f := alloc u)), ?(top_bmUserSockets (f := _clearTimer u n)),
      ?(top_userSockets (f := alloc u)), ?(top_userSockets (f := _clearTimer u n)),
      ?(top_connected (f := alloc u)), ?(top_connected (f := _clearTimer u n)),
      ?(top_inflight (f := alloc u)), ?(top_inflight (f := _clearTimer u n)),
      ?(top_nextCall (f := alloc u)), ?(top_nextCall (f := _clearTimer u n)),
      ?(top_out (f := alloc u)), ?(top_out (f := _clearTimer u n)),
      ?(top_console (f := alloc u)), ?(top_console (f := _clearTimer u n)),
      ?(top_now (f := alloc u)), ?(top_now (f := _clearTimer u n)).
Qed.

Lemma deref_clearTimer u n k w :
  deref (timerRef u w) (_clearTimer u n w) !! k =
  if decide (n = k) then None else deref (timerRef u w) (alloc u w) !! k.
Proof.
  case_decide as Hk; [subst; apply deref_clearTimer_same|].
  rewrite clearTimer_eq.
  destruct (deref (timerRef u w) (alloc u w) !! n) as [id|] eqn:E; [|done].
  rewrite deref_deleteEntry. case_decide; [|done]. by rewrite lookup_delete_ne.
Qed.

(** Clearing a timer that is not set changes nothing but allocates the
    timer object. *)
Lemma clearTimer_unset u n w :
  deref (timerRef u w) (alloc u w) !! n = None -> _clearTimer u n w = alloc u w.
Proof. intros E. by rewrite clearTimer_eq, E. Qed.

Lemma cancelAllTimers_eq u w :
  cancelAllTimers u w =
  clearAll u (alloc u w) (map_to_list (deref (timerRef u w) (alloc u w))).*1.
Proof. unfold cancelAllTimers. by rewrite getUserTimers_eq. Qed.

Lemma clearAll_cons u w k ks : clearAll u w (k :: ks) = clearAll u (_clearTimer u k w) ks.
Proof. done. Qed.

Lemma clearAll_ind (Q : World -> Prop) u :
  (forall n w, Q w -> Q (_clearTimer u n w)) ->
  forall ks w, Q w -> Q (clearAll u w ks).
Proof.
  intros Hstep ks. induction ks as [|k ks IH]; intros w Hw; simpl; [done|].
  apply IH, Hstep, Hw.
Qed.

Lemma clearAll_rel (R : World -> World -> Prop) u :
  (forall w, R w w) -> (forall w1 w2 w3, R w1 w2 -> R w2 w3 -> R w1 w3) ->
  (forall n w, R w (_clearTimer u n w)) ->
  forall ks w, R w (clearAll u w ks).
Proof.
  intros Hrefl Htrans Hstep ks. induction ks as [|k ks IH]; intros w; simpl; [done|].
  eapply Htrans; [apply Hstep | apply IH].
Qed.

Lemma Evolves_cancelAllTimers P u w : Evolves P w (cancelAllTimers u w).
Proof.
  rewrite cancelAllTimers_eq.
  eapply Evolves_trans; [apply Evolves_alloc|].
  apply clearAll_rel; [apply Evolves_refl | apply Evolves_trans | apply Evolves_clearTimer].
Qed.

Lemma Inv_cancelAllTimers u w : Inv w -> Inv (cancelAllTimers u w).
Proof.
  intros HI. rewrite cancelAllTimers_eq.
  apply clearAll_ind; [apply Inv_clearTimer | by apply Inv_alloc].
Qed.

Global Instance TimerOp_clearAll u ks : TimerOp (fun w => clearAll u w ks).
Proof.
  induction ks as [|k ks IH]; simpl; [apply TimerOp_id|].
  apply (TimerOp_compose (_clearTimer u k) (fun w => clearAll u w ks)); apply _.
Qed.

Global Instance TimerOp_cancelAllTimers u : TimerOp (cancelAllTimers u).
Proof.
  split; intros w; rewrite cancelAllTimers_eq.
  - by rewrite (top_sessions (f := fun w => clearAll u w _)), (top_sessions (f := alloc u)).
  - by rewrite (top_sendingTimeouts (f := fun w => clearAll u w _)),
      (top_sendingTimeouts (f := alloc u)).
  - by rewrite (top_bmUserSockets (f := fun w => clearAll u w _)),
      (top_bmUserSockets (f := alloc u)).
  - by rewrite (top_userSockets (f := fun w => clearAll u w _)),
      (top_userSockets (f := alloc u)).
  - by rewrite (top_connected (f := fun w => clearAll u w _)), (top_connected (f := alloc u)).
  - by rewrite (top_inflight (f := fun w => clearAll u w _)), (top_inflight (f := alloc u)).
  - by rewrite (top_nextCall (f := fun w => clearAll u w _)), (top_nextCall (f := alloc u)).
  - by rewrite (top_out (f := fun w => clearAll u w _)), (top_out (f := alloc u)).
  - by rewrite (top_console (f := fun w => clearAll u w _)), (top_console (f := alloc u)).
  - by rewrite (top_now (f := fun w => clearAll u w _)), (top_now (f := alloc u)).
Qed.

(** After the loop the entries of the listed types are gone and the
    others are as before. *)
Lemma clearAll_deref u r ks : forall w,
  timers w !! u = Some r ->
  timers (clearAll u w ks) = timers w /\
  forall k, deref r (clearAll u w ks) !! k =
            if decide (k ∈ ks) then None else deref r w !! k.
Proof.
  induction ks as [|n ks IH]; intros w Hreg.
  { split; [done|]. intros k. case_decide as H; [by apply elem_of_nil in H | done]. }
  destruct (alloc_registered _ _ _ Hreg) as [Ha Hr].
  assert (timers (_clearTimer u n w) !! u = Some r) as Hreg'.
  { by rewrite timers_clearTimer, Ha. }
  destruct (IH _ Hreg') as [Ht Hd]. rewrite clearAll_cons. split.
  { by rewrite Ht, timers_clearTimer, Ha. }
  intros k. rewrite Hd. pose proof (deref_clearTimer u n k w) as Hc.
  rewrite Hr, Ha in Hc. rewrite Hc.
  repeat case_decide; try done; exfalso;
    repeat match goal with
           | H : ¬ (_ ∈ _ :: _) |- _ => apply H, elem_of_cons; auto
           | H : _ ∈ _ :: _ |- _ => apply elem_of_cons in H as [->|?]; done
           end.
Qed.

Lemma cancelAllTimers_registered u w :
  timers (cancelAllTimers u w) !! u = Some (timerRef u w).
Proof.
  rewrite cancelAllTimers_eq.
  generalize (map_to_list (deref (timerRef u w) (alloc u w))).*1. intros ks.
  destruct (clearAll_deref u _ ks _ (timers_alloc u w)) as [Ht _].
  rewrite Ht. apply timers_alloc.
Qed.

Lemma cancelAllTimers_empty u w :
  deref (timerRef u w) (cancelAllTimers u w) = ∅.
Proof.
  rewrite cancelAllTimers_eq.
  set (ks := (map_to_list (deref (timerRef u w) (alloc u w))).*1).
  destruct (clearAll_deref u _ ks _ (timers_alloc u w)) as [_ Hd].
  apply map_eq. intros k. rewrite Hd, lookup_empty.
  case_decide as Hk; [done|].
  destruct (deref (timerRef u w) (alloc u w) !! k) as [id|] eqn:E; [|done].
  exfalso. apply Hk. apply list_elem_of_fmap. exists (k, id). split; [done|].
  by apply elem_of_map_to_list.
Qed.

(** Cancelling all timers of a user that has none changes nothing. *)
Lemma cancelAllTimers_none u r w :
  timers w !! u = Some r -> deref r w = ∅ -> cancelAllTimers u w = w.
Proof.
  intros Hreg He. rewrite cancelAllTimers_eq.
  destruct (alloc_registered _ _ _ Hreg) as [-> ->].
  by rewrite He, map_to_list_empty.
Qed.

Lemma Evolves_cleanup P u w : Evolves P w (cleanup u w).
Proof.
  unfold cleanup. eapply Evolves_trans; [apply Evolves_cancelAllTimers|].
  by apply Evolves_same.
Qed.

Lemma Inv_cleanup u w : Inv w -> Inv (cleanup u w).
Proof.
  intros HI. apply (Inv_cancelAllTimers u) in HI. unfold cleanup.
  pose proof (cancelAllTimers_registered u w) as Hreg.
  pose proof (cancelAllTimers_empty u w) as Hempty.
  set (w1 := cancelAllTimers u w) in *.
  destruct HI as [Hids Hrefs Htim Hpac Hsock]. split; simpl; try done.
  - intros u' r. rewrite lookup_delete. case_decide; [done | apply Hrefs].
  - intros i r n cb d Hp. destruct (Htim _ _ _ _ _ Hp) as (Hreg2 & Hent & Hty).
    split_and!; [| done | done].
    rewrite lookup_delete. case_decide as Hu; [|done]. exfalso.
    rewrite <- Hu, Hreg in Hreg2. injection Hreg2 as <-.
    unfold deref in Hent; simpl in Hent. fold (deref (timerRef u w) w1) in Hent.
    by rewrite Hempty in Hent.
Qed.

Global Instance TimerOp_cleanup u : TimerOp (cleanup u).
Proof.
  split; intros w; unfold cleanup; simpl;
    by rewrite ?(top_sessions (f := cancelAllTimers u)),
      ?(top_sendingTimeouts (f := cancelAllTimers u)),
      ?(top_bmUserSockets (f := cancelAllTimers u)),
      ?(top_userSockets (f := cancelAllTimers u)),
      ?(top_connected (f := cancelAllTimers u)),
      ?(top_inflight (f := cancelAllTimers u)),
      ?(top_nextCall (f := cancelAllTimers u)),
      ?(top_out (f := cancelAllTimers u)),
      ?(top_console (f := cancelAllTimers u)),
      ?(top_now (f := cancelAllTimers u)).
Qed.

End TimerManagerFacts.

(** ** Reading a field after a state change *)

Lemma sessionOf_ext u w w' : sessions w = sessions w' -> sessionOf u w = sessionOf u w'.
Proof. unfold sessionOf. by intros ->. Qed.

Lemma sessionOf_top u f `{!TimerOp f} w : sessionOf u (f w) = sessionOf u w.
Proof. apply sessionOf_ext, top_sessions. Qed.

Lemma committed_ext u w w' : sessionOf u w = sessionOf u w' -> committed u w = committed u w'.
Proof. unfold committed. by intros ->. Qed.

Arguments sessionOf : simpl never.
Arguments touch : simpl never.
Arguments committed : simpl never.

(** One rewriting step that pushes a field projection through the
    outermost state change. *)
Ltac frame1 :=
  match goal with
  | |- context [sessionOf ?u (UserSessionManager.mutate ?u' ?f ?w)] =>
      rewrite (sessionOf_mutate u u' f w)
  | |- context [sessionOf ?u (touch ?u' ?w)] => rewrite (sessionOf_touch u u' w)
  | |- context [sessionOf ?u (?f ?w)] => rewrite (sessionOf_top u f w)
  | |- context [sessionOf ?u (?f ?w)] => rewrite (sessionOf_ext u (f w) w eq_refl)
  | |- context [sessionOf ?u (?f ?w)] => rewrite (sessionOf_ext u (f w) w (cop_sessions (f := f) w))
  | |- context [sessions (?f ?w)] => rewrite (top_sessions (f := f) w)
  | |- context [sessions (?f ?w)] => rewrite (cop_sessions (f := f) w)
  | |- context [timers (?f ?w)] => rewrite (cop_timers (f := f) w)
  | |- context [timerObjects (?f ?w)] => rewrite (cop_timerObjects (f := f) w)
  | |- context [nextObject (?f ?w)] => rewrite (cop_nextObject (f := f) w)
  | |- context [bmUserSockets (?f ?w)] => rewrite (cop_bmUserSockets (f := f) w)
  | |- context [userSockets (?f ?w)] => rewrite (cop_userSockets (f := f) w)
  | |- context [connected (?f ?w)] => rewrite (cop_connected (f := f) w)
  | |- context [nextTimeout (?f ?w)] => rewrite (cop_nextTimeout (f := f) w)
  | |- context [inflight (?f ?w)] => rewrite (cop_inflight (f := f) w)
  | |- context [nextCall (?f ?w)] => rewrite (cop_nextCall (f := f) w)
  | |- context [out (?f ?w)] => rewrite (cop_out (f := f) w)
  | |- context [console (?f ?w)] => rewrite (cop_console (f := f) w)
  | |- context [now (?f ?w)] => rewrite (cop_now (f := f) w)
  | |- context [timers (?f ?w)] => rewrite (sop_timers (f := f) w)
  | |- context [timerObjects (?f ?w)] => rewrite (sop_timerObjects (f := f) w)
  | |- context [nextObject (?f ?w)] => rewrite (sop_nextObject (f := f) w)
  | |- context [sendingTimeouts (?f ?w)] => rewrite (sop_sendingTimeouts (f := f) w)
  | |- context [sendingTimeouts (?f ?w)] => rewrite (top_sendingTimeouts (f := f) w)
  | |- context [bmUserSockets (?f ?w)] => rewrite (sop_bmUserSockets (f := f) w)
  | |- context [bmUserSockets (?f ?w)] => rewrite (top_bmUserSockets (f := f) w)
  | |- context [userSockets (?f ?w)] => rewrite (sop_userSockets (f := f) w)
  | |- context [userSockets (?f ?w)] => rewrite (top_userSockets (f := f) w)
  | |- context [connected (?f ?w)] => rewrite (sop_connected (f := f) w)
  | |- context [connected (?f ?w)] => rewrite (top_connected (f := f) w)
  | |- context [pending (?f ?w)] => rewrite (sop_pending (f := f) w)
  | |- context [nextTimeout (?f ?w)] => rewrite (sop_nextTimeout (f := f) w)
  | |- context [inflight (?f ?w)] => rewrite (sop_inflight (f := f) w)
  | |- context [inflight (?f ?w)] => rewrite (top_inflight (f := f) w)
  | |- context [nextCall (?f ?w)] => rewrite (sop_nextCall (f := f) w)
  | |- context [nextCall (?f ?w)] => rewrite (top_nextCall (f := f) w)
  | |- context [out (?f ?w)] => rewrite (sop_out (f := f) w)
  | |- context [out (?f ?w)] => rewrite (top_out (f := f) w)
  | |- context [console (?f ?w)] => rewrite (sop_console (f := f) w)
  | |- context [console (?f ?w)] => rewrite (top_console (f := f) w)
  | |- context [now (?f ?w)] => rewrite (sop_now (f := f) w)
  | |- context [now (?f ?w)] => rewrite (top_now (f := f) w)
  | |- context [isConnected ?s (?f ?w)] =>
      change (isConnected s (f w)) with (default false (connected (f w) !! s))
  end.

(** The UserSessionManager methods that assign to a session. *)
Ltac unfold_sm :=
  unfold UserSessionManager.addUserMessage, UserSessionManager.addAIMessage,
    UserSessionManager.setBuffer, UserSessionManager.advanceBlock,
    UserSessionManager.pauseBuffer, UserSessionManager.resumeBuffer,
    UserSessionManager.markBufferComplete, UserSessionManager.setTypingState,
    UserSessionManager.enableIdleTimer, UserSessionManager.disableIdleTimer,
    UserSessionManager.setUpdateCheckNeeded, UserSessionManager.setWaitingForGroup,
    UserSessionManager.setEndUpdateTimer,
    UserSessionManager.setUserMessagedSinceEndUpdate.

Ltac frame := unfold_sm; repeat first [frame1 | progress simpl].

(** ** StateOrchestrator: the two pacer callbacks *)

Section CallbackFacts.
Import UserSessionManager StateOrchestrator.

Global Instance TimerOp_startGroupDelayFlow u : TimerOp (_startGroupDelayFlow u).
Proof. apply TimerOp_setTimer. Qed.

Lemma handleGroupComplete_eq u g w :
  _handleGroupComplete u g w =
  let w1 := touch u (log (LogGroupComplete g) w) in
  let c := updateCheck (sessionOf u w) in
  if needsUpdate c && waitingForGroup c
  then _startGroupDelayFlow u (setWaitingForGroup u false w1)
  else w1.
Proof. unfold _handleGroupComplete. by rewrite getUpdateCheckState_eq. Qed.

Lemma out_handleGroupComplete u g w : out (_handleGroupComplete u g w) = out w.
Proof.
  rewrite handleGroupComplete_eq; simpl. unfold setWaitingForGroup.
  case_match; by frame.
Qed.

Lemma console_handleGroupComplete u g w :
  console (_handleGroupComplete u g w) = console w ++ [LogGroupComplete g].
Proof.
  rewrite handleGroupComplete_eq; simpl. unfold setWaitingForGroup.
  case_match; by frame.
Qed.

Lemma buffer_handleGroupComplete u u' g w :
  buffer (sessionOf u' (_handleGroupComplete u g w)) = buffer (sessionOf u' w).
Proof.
  rewrite handleGroupComplete_eq; simpl. unfold setWaitingForGroup.
  case_match; frame; [|done]. by case_decide.
Qed.

End CallbackFacts.

(** ** BufferManager *)

Lemma stopSending_eq u w :
  BufferManager.stopSending u w =
  match sendingTimeouts w !! u with
  | Some id => set_sendingTimeouts (delete u (sendingTimeouts w)) (clearTimeout id w)
  | None => w
  end.
Proof. done. Qed.

Lemma stopSending_none u w :
  sendingTimeouts w !! u = None -> BufferManager.stopSending u w = w.
Proof. intros E. by rewrite stopSending_eq, E. Qed.

Lemma sendingTimeouts_stopSending u w :
  sendingTimeouts (BufferManager.stopSending u w) = delete u (sendingTimeouts w).
Proof.
  rewrite stopSending_eq. destruct (sendingTimeouts w !! u) eqn:E; [done|].
  by rewrite delete_id.
Qed.

Global Instance ChainOp_stopSending u : ChainOp (BufferManager.stopSending u).
Proof.
  split; intros w; rewrite stopSending_eq; by destruct (sendingTimeouts w !! u).
Qed.

Lemma Evolves_stopSending P u w : Evolves P w (BufferManager.stopSending u w).
Proof.
  rewrite stopSending_eq. destruct (sendingTimeouts w !! u) as [id|]; [|apply Evolves_refl].
  eapply Evolves_trans; [apply (Evolves_clearTimeout _ id)|]. by apply Evolves_same.
Qed.

Section PacerFacts.
Import UserSessionManager.
Variable ig : GroupCompleteCb -> string -> option Z -> World -> World.
Variable ib : BufferCompleteCb -> string -> World -> World.

Lemma nextEmission_Some u s b w :
  nextEmission u s w = Some b ->
  isConnected s w = true /\ isPaused (buffer (sessionOf u w)) = false /\
  committed u w = false /\
  blocks (buffer (sessionOf u w)) !! currentIndex (buffer (sessionOf u w)) = Some b.
Proof.
  unfold nextEmission.
  destruct (isConnected s w), (isPaused _), (committed u w); simpl; try done.
Qed.

(** The emission step when it sends a block. *)
Lemma sendNextBlock_emits u s g bc b w :
  nextEmission u s w = Some b ->
  BufferManager._sendNextBlock ig ib u (Some s) g bc w =
  BufferManager.sendBlock ig u s g bc b (touch u w).
Proof.
  intros (Hc & Hp & Hcom & Hb)%nextEmission_Some.
  unfold BufferManager._sendNextBlock. rewrite Hc; simpl.
  rewrite isBufferPaused_eq, Hp; simpl.
  rewrite getUpdateCheckState_eq; simpl. frame.
  unfold committed in Hcom. rewrite Hcom.
  rewrite getNextBlock_eq; simpl. frame.
  rewrite bool_decide_eq_false_2; [|apply lookup_lt_Some in Hb; lia].
  by rewrite Hb, !touch_touch.
Qed.

(** The emission step when it sends nothing because an interrupt is
    committed, the buffer is paused or the socket is gone. *)
Lemma sendNextBlock_committed u s g bc w :
  committed u w = true ->
  BufferManager._sendNextBlock ig ib u s g bc w =
  if socketDead s w then BufferManager.socketGone u w
  else if isPaused (buffer (sessionOf u w)) then touch u w
  else set_sendingTimeouts (delete u (sendingTimeouts w)) (log LogStoppingSend (touch u w)).
Proof.
  intros Hcom. unfold BufferManager._sendNextBlock, socketDead.
  destruct s as [s|]; [|done]. destruct (isConnected s w); simpl; [|done].
  rewrite isBufferPaused_eq; simpl. destruct (isPaused _); [done|].
  rewrite getUpdateCheckState_eq; simpl. frame.
  unfold committed in Hcom. by rewrite Hcom, touch_touch.
Qed.

Lemma sendBlock_eq u s g bc b w :
  BufferManager.sendBlock ig u s g bc b w =
  let previousGroup := currentGroup (buffer (sessionOf u w)) in
  let w1 := afterEmission u s b w in
  let newGroup := currentGroup (buffer (sessionOf u w1)) in
  let w2 :=
    if bool_decide (previousGroup <> newGroup) then
      match g with Some cb => ig cb u previousGroup w1 | None => w1 end
    else w1 in
  set_sendingTimeouts (<[u := nextTimeout w2]> (sendingTimeouts w2))
    (setTimeout (TaskSendNext u (Some s) g bc) (Math_max (typingTime b * 1000) 1000) w2).2.
Proof.
  unfold BufferManager.sendBlock, afterEmission.
  rewrite getCurrentGroup_eq; cbv beta iota zeta.
  rewrite getSession_eq; cbv beta iota zeta.
  rewrite getCurrentGroup_eq; cbv beta iota zeta.
  frame. by rewrite !touch_touch.
Qed.

Lemma sessionOf_afterEmission u s b w :
  sessionOf u (afterEmission u s b w) =
  withBuffer advanceBuffer
    (withHistory (fun h => h ++ [mkEntry Model (text b) (now w)]) (sessionOf u w)).
Proof.
  unfold afterEmission, advanceBlock, addAIMessage. frame.
  by rewrite !decide_True by done.
Qed.

Lemma out_afterEmission u s b w :
  out (afterEmission u s b w) = out w ++ [(s, AiBlock (text b) (group b) (now w))].
Proof. unfold afterEmission, advanceBlock, addAIMessage. by frame. Qed.

Lemma console_afterEmission u s b w :
  console (afterEmission u s b w) =
  console w ++ [LogBlock (currentIndex (buffer (sessionOf u w)) + 1)
                  (currentGroup (buffer (sessionOf u w)))].
Proof. unfold afterEmission, advanceBlock, addAIMessage. by frame. Qed.

Lemma advanceBuffer_spec b :
  blocks (advanceBuffer b) = blocks b /\
  currentIndex (advanceBuffer b) = S (currentIndex b) /\
  currentGroup (advanceBuffer b) = (group <$> blocks b !! S (currentIndex b)).
Proof. unfold advanceBuffer. by destruct (blocks b !! S (currentIndex b)). Qed.

End PacerFacts.

(** ** StateOrchestrator: regeneration *)

Section RegenerationFacts.
Import UserSessionManager StateOrchestrator.

Lemma triggerUpdateBuffer_eq u w :
  triggerUpdateBuffer u w =
  callLLM (CallUpdateBuffer u (history (sessionOf u w))
             (drop (currentIndex (buffer (sessionOf u w))) (blocks (buffer (sessionOf u w)))))
    (touch u (stopSending u (TimerManager.cancelAllTimers u (log LogGenerating w)))).
Proof.
  unfold triggerUpdateBuffer, stopSending.
  rewrite getHistory_eq; cbv beta iota zeta.
  rewrite getSession_eq; cbv beta iota zeta.
  frame. by rewrite touch_touch.
Qed.

Lemma triggerUpdateCheck_eq u w :
  triggerUpdateCheck u w =
  callLLM (CallUpdateCheck u (lastN 20 (history (sessionOf u w)))
             (blocks (buffer (sessionOf u w))) (currentIndex (buffer (sessionOf u w))))
    (touch u w).
Proof.
  unfold triggerUpdateCheck.
  rewrite getHistory_eq; cbv beta iota zeta.
  rewrite getSession_eq; cbv beta iota zeta.
  frame. by rewrite touch_touch.
Qed.

End RegenerationFacts.

(** ** Tactics for the handlers *)

(** Replaces the reads of the session by their values. *)
Ltac readers :=
  repeat (first
    [ rewrite getUpdateCheckState_eq
    | rewrite hasUserMessagedSinceEndUpdate_eq
    | rewrite getEndUpdateState_eq
    | rewrite getTypingState_eq
    | rewrite isBufferPaused_eq
    | rewrite isBufferComplete_eq
    | rewrite getCurrentGroup_eq
    | rewrite isCurrentGroupComplete_eq
    | rewrite getHistory_eq
    | rewrite getSession_eq
    | rewrite getNextBlock_eq ];
    cbv beta iota zeta).

Ltac unfold_tm :=
  unfold StateOrchestrator._startGroupDelayFlow,
    TimerManager.startTypingIdleTimer, TimerManager.startMaxTypingTimer,
    TimerManager.startGroupDelayTimer, TimerManager.startEndUpdateTimer,
    TimerManager.cancelTypingTimers, TimerManager.cancelEndUpdateTimer,
    TimerManager.cancelGroupDelayTimer.

Lemma Evolves_push_same P w X Y :
  pending Y = pending X -> nextTimeout Y = nextTimeout X ->
  Evolves P w X -> Evolves P w Y.
Proof. intros Hp Hn H. eapply Evolves_trans; [apply H | by apply Evolves_same]. Qed.

Lemma Evolves_push_sop P f `{!SessionOp f} w X : Evolves P w X -> Evolves P w (f X).
Proof. apply Evolves_push_same; [apply sop_pending | apply sop_nextTimeout]. Qed.

Lemma Evolves_push_setTimer (P : Task -> Prop) u n cb ms w X :
  (forall r, P (TaskTimer r n cb)) ->
  Evolves P w X -> Evolves P w (TimerManager._setTimer u n cb ms X).
Proof.
  intros HP H. eapply Evolves_trans; [apply H|].
  eapply Evolves_weaken; [|apply Evolves_setTimer]. intros t [r ->]. apply HP.
Qed.

Lemma Evolves_push_setTimeout (P : Task -> Prop) t ms w X :
  P t -> Evolves P w X -> Evolves P w (setTimeout t ms X).2.
Proof. intros HP H. eapply Evolves_trans; [apply H | by apply Evolves_setTimeout]. Qed.

(** Peels the state changes off the final state, outermost first. *)
Ltac evolves1 :=
  lazymatch goal with
  | |- Evolves _ ?w ?w => apply Evolves_refl
  | |- Evolves _ _ (UserSessionManager.mutate _ _ _) => apply Evolves_push_sop; [apply _|]
  | |- Evolves _ _ (touch _ _) => apply Evolves_push_sop; [apply _|]
  | |- Evolves _ _ (TimerManager._clearTimer _ _ _) =>
      eapply Evolves_trans; [|apply Evolves_clearTimer]
  | |- Evolves _ _ (TimerManager.cancelAllTimers _ _) =>
      eapply Evolves_trans; [|apply Evolves_cancelAllTimers]
  | |- Evolves _ _ (TimerManager.cleanup _ _) =>
      eapply Evolves_trans; [|apply Evolves_cleanup]
  | |- Evolves _ _ (BufferManager.stopSending _ _) =>
      eapply Evolves_trans; [|apply Evolves_stopSending]
  | |- Evolves _ _ (StateOrchestrator.stopSending _ _) =>
      eapply Evolves_trans; [|apply Evolves_stopSending]
  | |- Evolves _ _ (clearTimeout _ _) =>
      eapply Evolves_trans; [|apply Evolves_clearTimeout]
  | |- Evolves _ _ (TimerManager._setTimer _ _ _ _ _) => apply Evolves_push_setTimer
  | |- Evolves _ _ (setTimeout _ _ _).2 => apply Evolves_push_setTimeout
  | |- Evolves _ _ (?f ?X) => apply (Evolves_push_same _ _ X (f X) eq_refl eq_refl)
  end.

Ltac evolves := unfold_sm; unfold_tm; repeat evolves1.

Lemma Evolves_push_weak (P Q : Task -> Prop) w X Y :
  (forall t, Q t -> P t) -> Evolves Q X Y -> Evolves P w X -> Evolves P w Y.
Proof.
  intros HQP HXY HwX. eapply Evolves_trans; [apply HwX|].
  eapply Evolves_weaken; [apply HQP | apply HXY].
Qed.

Section EvolvesFacts.
Import UserSessionManager StateOrchestrator.

Lemma notEndUpdate_gate w0 t : notEndUpdate t -> endUpdateGate w0 t.
Proof. intros H r cb ->. by destruct (H r cb). Qed.

Lemma noTask_notEndUpdate t : False -> notEndUpdate t.
Proof. done. Qed.

Lemma endUpdateGate_ext w0 w1 t :
  (forall u, flagOf u w1 = flagOf u w0) -> endUpdateGate w1 t -> endUpdateGate w0 t.
Proof.
  intros Hf H r cb Ht. destruct (H r cb Ht) as (u & -> & Hu).
  exists u. by rewrite <- Hf.
Qed.

Lemma flagOf_ext u w w' : sessionOf u w = sessionOf u w' -> flagOf u w = flagOf u w'.
Proof. unfold flagOf. by intros ->. Qed.

Lemma Evolves_handleGroupComplete u g w :
  Evolves notEndUpdate w (_handleGroupComplete u g w).
Proof.
  unfold _handleGroupComplete. readers.
  destruct (needsUpdate _ && waitingForGroup _); evolves. by intros r r' cb.
Qed.

Lemma Evolves_handleBufferComplete_of u w :
  Evolves (endUpdateGateOf u w) w (_handleBufferComplete u w).
Proof.
  unfold _handleBufferComplete, getSocket. readers. frame.
  destruct (userSockets w !! u) as [s|]; frame;
    destruct (needsUpdate _); [evolves | | evolves |];
    try (by intros r r' cb);
    destruct (userMessagedSinceLastEndUpdate _) eqn:Hflag; evolves;
    by intros r r' cb [= -> <-].
Qed.

Lemma Evolves_handleBufferComplete u w :
  Evolves (endUpdateGate w) w (_handleBufferComplete u w).
Proof.
  eapply Evolves_weaken; [|apply Evolves_handleBufferComplete_of].
  intros t H r cb Ht. destruct (H r cb Ht) as [-> Hf]. by exists u.
Qed.

(** The emission step of the server: the only timer it can start besides
    the group delay is the endUpdate timer, behind the gate. *)
Lemma Evolves_sendNextBlock u s g bc w :
  Evolves (endUpdateGate w) w (_sendNextBlock u s g bc w).
Proof.
  unfold _sendNextBlock, BufferManager._sendNextBlock, BufferManager.socketGone.
  destruct s as [s|]; [|evolves].
  destruct (isConnected s w); simpl; [|evolves].
  readers. destruct (isPaused _); [evolves|]. frame.
  destruct (needsUpdate _ && negb _); [evolves|].
  case_bool_decide; cbv beta iota zeta.
  - destruct bc as [[]|]; simpl; [|evolves].
    eapply Evolves_push_weak; [|apply Evolves_handleBufferComplete|evolves].
    intros t. apply endUpdateGate_ext. intros u'. unfold flagOf.
    frame. by case_decide.
  - rewrite !touch_touch.
    destruct (blocks _ !! _) as [b|] eqn:Hb.
    + rewrite sendBlock_eq; cbv zeta. evolves; [by intros r cb|].
      case_bool_decide; [destruct g as [[]|]|]; simpl; unfold afterEmission; evolves.
      eapply Evolves_push_weak;
        [apply notEndUpdate_gate | apply Evolves_handleGroupComplete | evolves].
    + destruct bc as [[]|]; simpl; [|evolves].
      eapply Evolves_push_weak; [|apply Evolves_handleBufferComplete|evolves].
      intros t. apply endUpdateGate_ext. intros u'. unfold flagOf. by frame.
Qed.

Lemma Evolves_startSendingBuffer u s g bc w :
  (forall u', flagOf u' w = flagOf u' w) ->
  Evolves (endUpdateGate w) w (startSendingBuffer u s g bc w).
Proof.
  intros _. unfold startSendingBuffer, BufferManager.startSendingBuffer.
  destruct (socketDead s w); [evolves|].
  eapply Evolves_push_weak; [|apply Evolves_sendNextBlock|].
  - intros t. apply endUpdateGate_ext. intros u'. unfold flagOf.
    destruct s; frame; by case_decide.
  - destruct s; evolves.
Qed.

Lemma Evolves_triggerUpdateBuffer P u w : Evolves P w (triggerUpdateBuffer u w).
Proof. rewrite triggerUpdateBuffer_eq. evolves. Qed.

Lemma Evolves_triggerUpdateCheck P u w : Evolves P w (triggerUpdateCheck u w).
Proof. rewrite triggerUpdateCheck_eq. evolves. Qed.

Lemma Evolves_updateBufferResolved u bs w :
  Evolves (endUpdateGate w) w (updateBufferResolved u bs w).
Proof.
  unfold updateBufferResolved, getSocket. frame.
  destruct (userSockets w !! u) as [s|]; [|evolves].
  eapply Evolves_push_weak; [|apply Evolves_startSendingBuffer; done|evolves].
  intros t. apply endUpdateGate_ext. intros u'. unfold flagOf.
  frame. by repeat case_decide.
Qed.

Lemma Evolves_updateBufferRejected P u m w : Evolves P w (updateBufferRejected u m w).
Proof.
  unfold updateBufferRejected, getSocket. simpl.
  destruct (userSockets w !! u); evolves.
Qed.

Lemma Evolves_updateCheckSettled u needed w :
  Evolves notEndUpdate w (updateCheckSettled u needed w).
Proof.
  unfold updateCheckSettled. destruct needed; [|evolves]. readers.
  destruct (groupComplete _); evolves. by intros r r' cb.
Qed.

Lemma Evolves_handleUserMessage P u m s w : Evolves P w (handleUserMessage u m s w).
Proof.
  unfold handleUserMessage. readers.
  destruct (isSending _ _ && negb _).
  - eapply Evolves_trans; [|apply Evolves_triggerUpdateCheck]. evolves.
  - eapply Evolves_trans; [|apply Evolves_triggerUpdateBuffer]. evolves.
Qed.

Lemma Evolves_handleTypingStatus u b s w :
  Evolves notEndUpdate w (handleTypingStatus u b s w).
Proof.
  unfold handleTypingStatus. destruct b; readers.
  - destruct (timerActive _); evolves; by intros r r' cb.
  - destruct (shouldUseIdleTimer _); evolves. by intros r r' cb.
Qed.

Lemma Evolves_invokeTimerCallback cb w :
  Evolves notEndUpdate w (invokeTimerCallback cb w).
Proof.
  destruct cb as [u|u|u|u|u]; simpl;
    try (eapply Evolves_trans; [|apply Evolves_triggerUpdateBuffer]; evolves).
  readers. destruct (isTyping _); evolves. by intros r r' cb.
Qed.

Lemma Evolves_stopAIResponse P u s w : Evolves P w (stopAIResponse u s w).
Proof. unfold stopAIResponse. destruct s; evolves. Qed.

Lemma Evolves_orchestrator_cleanup P u w : Evolves P w (StateOrchestrator.cleanup u w).
Proof.
  unfold StateOrchestrator.cleanup, BufferManager.cleanup, clearSession. evolves.
Qed.

Lemma flagOf_pending u m w : flagOf u (set_pending m w) = flagOf u w.
Proof. done. Qed.

(** Every turn of the event loop keeps the endUpdate timer behind its
    gate. *)
Lemma Evolves_step e w w' : step e w = Some w' -> Evolves (endUpdateGate w) w w'.
Proof.
  destruct e as [s|s m|s b|s|s|s|id|k res|k needed|t]; unfold step.
  - destruct (connected w !! s); [done|]. intros <-%(inj Some). evolves.
  - destruct (isConnected s w); [|done]. intros <-%(inj Some).
    eapply Evolves_trans; [|apply Evolves_handleUserMessage]. evolves.
  - destruct (isConnected s w); [|done]. intros <-%(inj Some).
    eapply Evolves_weaken; [apply notEndUpdate_gate | apply Evolves_handleTypingStatus].
  - destruct (isConnected s w); [|done]. intros <-%(inj Some). apply Evolves_stopAIResponse.
  - destruct (isConnected s w); [|done]. intros <-%(inj Some).
    eapply Evolves_trans; [apply Evolves_stopAIResponse | apply Evolves_orchestrator_cleanup].
  - destruct (isConnected s w); [|done]. intros <-%(inj Some).
    eapply Evolves_trans; [|apply Evolves_orchestrator_cleanup]. evolves.
  - destruct (pending w !! id) as [[tk ms]|] eqn:Hid; [|done]. intros <-%(inj Some).
    assert (Evolves (endUpdateGate w) w (set_pending (delete id (pending w)) w)) as H0.
    { split; [done|]. intros i t; simpl. rewrite lookup_delete. case_decide; [done|auto]. }
    destruct tk as [r n cb | u s g bc]; unfold task, runTask.
    + eapply Evolves_push_weak;
        [apply notEndUpdate_gate | apply Evolves_invokeTimerCallback |].
      eapply Evolves_push_same; [| |apply H0]; done.
    + eapply Evolves_push_weak; [|apply Evolves_sendNextBlock|apply H0].
      intros t. by apply endUpdateGate_ext.
  - destruct (inflight w !! k) as [[u h p | u h bs i]|]; try done.
    destruct res as [m | bs]; intros <-%(inj Some).
    + eapply Evolves_trans; [|apply Evolves_updateBufferRejected]. evolves.
    + eapply Evolves_push_weak; [|apply Evolves_updateBufferResolved|evolves].
      intros t. by apply endUpdateGate_ext.
  - destruct (inflight w !! k) as [[u h p | u h bs i]|]; try done. intros <-%(inj Some).
    eapply Evolves_push_weak;
      [apply notEndUpdate_gate | apply Evolves_updateCheckSettled | evolves].
  - intros <-%(inj Some). evolves.
Qed.

End EvolvesFacts.

(** ** The invariant is kept *)

Lemma Inv_ext w w' :
  timers w' = timers w -> timerObjects w' = timerObjects w ->
  nextObject w' = nextObject w -> sendingTimeouts w' = sendingTimeouts w ->
  pending w' = pending w -> nextTimeout w' = nextTimeout w ->
  userSockets w' = userSockets w ->
  Inv w -> Inv w'.
Proof.
  intros Ht Ho Hn Hs Hp Hnt Hu [Hids Hrefs Htim Hpac Hsock].
  split; unfold TimerManager.deref in *; rewrite ?Ht, ?Ho, ?Hn, ?Hs, ?Hp, ?Hnt, ?Hu; done.
Qed.

Lemma Inv_sop f `{!SessionOp f} w : Inv w -> Inv (f w).
Proof.
  apply Inv_ext; [apply sop_timers | apply sop_timerObjects | apply sop_nextObject
    | apply sop_sendingTimeouts | apply sop_pending | apply sop_nextTimeout
    | apply sop_userSockets].
Qed.

Lemma Inv_unschedule id w : Inv w -> Inv (set_pending (delete id (pending w)) w).
Proof.
  intros [Hids Hrefs Htim Hpac Hsock]. split; simpl; try done.
  - intros i t. rewrite lookup_delete. case_decide; [done | apply Hids].
  - intros i r n cb d. rewrite lookup_delete. case_decide; [done | apply Htim].
  - intros i u s g b d. rewrite lookup_delete. case_decide; [done | apply Hpac].
Qed.

Lemma Inv_clearTimeout id w : Inv w -> Inv (clearTimeout id w).
Proof. apply Inv_unschedule. Qed.

Lemma NoChain_unschedule u id w : NoChain u w -> NoChain u (set_pending (delete id (pending w)) w).
Proof.
  intros H i s g b d; simpl. rewrite lookup_delete. case_decide; [done | apply H].
Qed.

(** Forgetting the chain of a user that has none scheduled. *)
Lemma Inv_forget_chain u w :
  NoChain u w -> Inv w -> Inv (set_sendingTimeouts (delete u (sendingTimeouts w)) w).
Proof.
  intros Hno [Hids Hrefs Htim Hpac Hsock]. split; simpl; try done.
  intros i u' s g b d Hi. destruct (Hpac _ _ _ _ _ _ Hi) as [Hs ->].
  split; [|done]. rewrite lookup_delete_ne; [done|].
  intros <-. by eapply Hno.
Qed.

Lemma stopSending_NoChain u w : Inv w -> NoChain u (BufferManager.stopSending u w).
Proof.
  intros HI i s g b d. rewrite stopSending_eq.
  destruct (sendingTimeouts w !! u) as [id|] eqn:E; simpl.
  - rewrite lookup_delete. case_decide as Hne; [done|]. intros Hi.
    destruct (inv_pacer _ HI _ _ _ _ _ _ Hi) as [Hs _]. congruence.
  - intros Hi. destruct (inv_pacer _ HI _ _ _ _ _ _ Hi). congruence.
Qed.

Lemma Inv_stopSending u w : Inv w -> Inv (BufferManager.stopSending u w).
Proof.
  intros HI. pose proof (stopSending_NoChain u w HI) as Hno.
  rewrite stopSending_eq in *.
  destruct (sendingTimeouts w !! u) as [id|] eqn:E; [|done].
  apply (Inv_forget_chain u (clearTimeout id w)); [|by apply Inv_clearTimeout].
  intros i s g b d Hi. by eapply (Hno i s g b d).
Qed.

Lemma Inv_registerSocket s w : Inv w -> Inv (StateOrchestrator.registerSocket s s w).
Proof.
  intros [Hids Hrefs Htim Hpac Hsock]. split; simpl; try done.
  intros u s'. rewrite lookup_insert. case_decide; [by intros [= <-] | apply Hsock].
Qed.

Lemma Inv_forget_socket u w :
  Inv w -> Inv (set_userSockets (delete u (userSockets w)) w).
Proof.
  intros [Hids Hrefs Htim Hpac Hsock]. split; simpl; try done.
  intros u' s'. rewrite lookup_delete. case_decide; [done | apply Hsock].
Qed.

(** Scheduling the next emission step of a user that has no chain. *)
Lemma Inv_schedule_chain u g bc ms w :
  NoChain u w -> Inv w ->
  Inv (set_sendingTimeouts (<[u := nextTimeout w]> (sendingTimeouts w))
         (setTimeout (TaskSendNext u (Some u) g bc) ms w).2).
Proof.
  intros Hno [Hids Hrefs Htim Hpac Hsock]. split; simpl; try done.
  - intros i t. rewrite lookup_insert. case_decide; [intros _; lia|].
    intros H'. apply Hids in H'. lia.
  - intros i r n cb d. rewrite lookup_insert. case_decide; [done | apply Htim].
  - intros i u' s g' b d. rewrite lookup_insert. case_decide as Hi.
    + intros [= <- <- <- <-]. subst i. split; [apply lookup_insert_eq | done].
    + intros Hp. destruct (Hpac _ _ _ _ _ _ Hp) as [Hs ->]. split; [|done].
      rewrite lookup_insert_ne; [done|]. intros <-. by eapply Hno.
Qed.

(** A timer that fires: its timeout is gone and its entry deleted. *)
Lemma Inv_fire_timer id r n cb ms w :
  Inv w -> pending w !! id = Some (mkTimeout (TaskTimer r n cb) ms) ->
  Inv (TimerManager.deleteEntry r n (set_pending (delete id (pending w)) w)).
Proof.
  intros HI Hid. destruct (inv_timer _ HI _ _ _ _ _ Hid) as (Hreg & Hent & Hty).
  destruct HI as [Hids Hrefs Htim Hpac Hsock]. split; simpl; try done.
  - intros i t. rewrite lookup_delete. case_decide; [done | apply Hids].
  - intros i r' n' cb' d. rewrite lookup_delete. case_decide as Hne; [done|].
    intros Hi. destruct (Htim _ _ _ _ _ Hi) as (Hreg' & Hent' & Hty').
    split_and!; [done | | done].
    rewrite deref_deleteEntry. case_decide as Hr; [|done]. subst r'.
    rewrite lookup_delete. case_decide as Hn; [|done]. subst n'.
    unfold TimerManager.deref in *. simpl in *. congruence.
  - intros i u s g b d. rewrite lookup_delete. case_decide; [done | apply Hpac].
Qed.

(** A chain that fires leaves the user without a chain. *)
Lemma NoChain_fire_chain id u s g bc ms w :
  Inv w -> pending w !! id = Some (mkTimeout (TaskSendNext u s g bc) ms) ->
  NoChain u (set_pending (delete id (pending w)) w) /\ s = Some u.
Proof.
  intros HI Hid. destruct (inv_pacer _ HI _ _ _ _ _ _ Hid) as [Hs ->].
  split; [|done]. intros i s' g' b' d; simpl.
  rewrite lookup_delete. case_decide as Hne; [done|]. intros Hi.
  destruct (inv_pacer _ HI _ _ _ _ _ _ Hi) as [Hs' _]. congruence.
Qed.

Ltac inv1 :=
  lazymatch goal with
  | H : Inv ?w |- Inv ?w => exact H
  | |- Inv (UserSessionManager.mutate _ _ _) => apply Inv_sop; [apply _|]
  | |- Inv (touch _ _) => apply Inv_sop; [apply _|]
  | |- Inv (TimerManager._clearTimer _ _ _) => apply Inv_clearTimer
  | |- Inv (TimerManager._setTimer _ _ _ _ _) =>
      apply Inv_setTimer; [reflexivity | reflexivity |]
  | |- Inv (TimerManager.cancelAllTimers _ _) => apply Inv_cancelAllTimers
  | |- Inv (TimerManager.cleanup _ _) => apply Inv_cleanup
  | |- Inv (BufferManager.stopSending _ _) => apply Inv_stopSending
  | |- Inv (StateOrchestrator.stopSending _ _) => apply Inv_stopSending
  | |- Inv (clearTimeout _ _) => apply Inv_clearTimeout
  | |- Inv (StateOrchestrator.registerSocket ?s ?s _) => apply Inv_registerSocket
  | |- Inv (?f ?X) =>
      apply (Inv_ext X (f X) eq_refl eq_refl eq_refl eq_refl eq_refl eq_refl eq_refl)
  end.

Ltac keep_inv := unfold_sm; unfold_tm; repeat inv1.

Section InvariantFacts.
Import UserSessionManager StateOrchestrator.

Lemma timerTask_not_chain u t : isTimerTask t -> forall s g b, t <> TaskSendNext u s g b.
Proof. by destruct t. Qed.

Lemma Evolves_timers_handleGroupComplete u g w :
  Evolves isTimerTask w (_handleGroupComplete u g w).
Proof.
  unfold _handleGroupComplete. readers.
  destruct (needsUpdate _ && waitingForGroup _); evolves. done.
Qed.

Lemma Evolves_timers_handleBufferComplete u w :
  Evolves isTimerTask w (_handleBufferComplete u w).
Proof.
  unfold _handleBufferComplete, getSocket. readers. frame.
  destruct (userSockets w !! u) as [s|]; frame;
    destruct (needsUpdate _); [evolves | | evolves |]; try done;
    destruct (userMessagedSinceLastEndUpdate _); evolves; done.
Qed.

Lemma Inv_handleGroupComplete u g w : Inv w -> Inv (_handleGroupComplete u g w).
Proof.
  intros HI. unfold _handleGroupComplete. readers.
  destruct (needsUpdate _ && waitingForGroup _); keep_inv.
Qed.

Lemma Inv_handleBufferComplete u w : Inv w -> Inv (_handleBufferComplete u w).
Proof.
  intros HI. unfold _handleBufferComplete, getSocket. readers. frame.
  destruct (userSockets w !! u) as [s|]; frame;
    destruct (needsUpdate _); [keep_inv | | keep_inv |];
    destruct (userMessagedSinceLastEndUpdate _); keep_inv.
Qed.

Lemma NoChain_ext u w w' : pending w' = pending w -> NoChain u w -> NoChain u w'.
Proof. intros Hp H i s g b d. rewrite Hp. apply H. Qed.

Lemma NoChain_sop u f `{!SessionOp f} w : NoChain u w -> NoChain u (f w).
Proof. apply NoChain_ext, sop_pending. Qed.

(** The emission step of a user without a scheduled chain. *)
Lemma Inv_sendNextBlock u g bc w :
  NoChain u w -> Inv w -> Inv (_sendNextBlock u (Some u) g bc w).
Proof.
  intros Hno HI.
  unfold _sendNextBlock, BufferManager._sendNextBlock, BufferManager.socketGone.
  destruct (isConnected u w); simpl; [|keep_inv].
  readers. destruct (isPaused _); [keep_inv|]. frame.
  destruct (needsUpdate _ && negb _).
  { match goal with
    | |- Inv (set_sendingTimeouts _ ?X) => apply (Inv_forget_chain u X)
    end; [by apply (NoChain_ext u w) | keep_inv]. }
  assert (forall X, pending X = pending w -> Inv X ->
            Inv (match bc with
                 | Some cb => invokeBufferComplete cb u
                     (set_sendingTimeouts (delete u (sendingTimeouts X)) X)
                 | None => set_sendingTimeouts (delete u (sendingTimeouts X)) X
                 end)) as Hdone.
  { intros X HX HIX.
    assert (Inv (set_sendingTimeouts (delete u (sendingTimeouts X)) X)) as H1.
    { apply Inv_forget_chain; [by apply (NoChain_ext u w) | done]. }
    destruct bc as [[]|]; [|done]. simpl. by apply Inv_handleBufferComplete. }
  case_bool_decide; cbv beta iota zeta.
  - apply Hdone; [by frame | keep_inv].
  - rewrite !touch_touch. destruct (blocks _ !! _) as [b|] eqn:Hb.
    + rewrite sendBlock_eq; cbv zeta.
      set (w1 := afterEmission u u b (touch u w)).
      assert (Inv w1 /\ NoChain u w1) as [HI1 Hno1].
      { split.
        - unfold w1, afterEmission. keep_inv.
        - apply (NoChain_ext u w); [|done]. unfold w1, afterEmission. by frame. }
      match goal with
      | |- Inv (set_sendingTimeouts (<[u := nextTimeout ?X]> _) _) =>
          assert (Inv X /\ NoChain u X) as [HIX HnoX]
      end.
      { case_bool_decide; [destruct g as [[]|]|]; simpl; try done.
        split; [by apply Inv_handleGroupComplete|].
        eapply NoChain_Evolves;
          [apply timerTask_not_chain | apply Evolves_timers_handleGroupComplete | done]. }
      by apply Inv_schedule_chain.
    + apply Hdone; [by frame | keep_inv].
Qed.

Lemma Inv_startSendingBuffer u g bc w :
  Inv w -> Inv (startSendingBuffer u (Some u) g bc w).
Proof.
  intros HI. unfold startSendingBuffer, BufferManager.startSendingBuffer.
  destruct (socketDead _ _); [keep_inv|].
  apply Inv_sendNextBlock.
  - unfold resumeBuffer. apply NoChain_sop; [apply _|].
    apply stopSending_NoChain. keep_inv.
  - keep_inv.
Qed.

Lemma Inv_callLLM c w : Inv w -> Inv (callLLM c w).
Proof. intros HI. keep_inv. Qed.

Lemma Inv_triggerUpdateBuffer u w : Inv w -> Inv (triggerUpdateBuffer u w).
Proof. intros HI. rewrite triggerUpdateBuffer_eq. keep_inv. Qed.

Lemma Inv_triggerUpdateCheck u w : Inv w -> Inv (triggerUpdateCheck u w).
Proof. intros HI. rewrite triggerUpdateCheck_eq. keep_inv. Qed.

Lemma Inv_updateBufferResolved u bs w : Inv w -> Inv (updateBufferResolved u bs w).
Proof.
  intros HI. unfold updateBufferResolved, getSocket. frame.
  destruct (userSockets w !! u) as [s|] eqn:Hs; [|keep_inv].
  apply (inv_sockets _ HI) in Hs as ->.
  apply Inv_startSendingBuffer. keep_inv.
Qed.

Lemma Inv_updateBufferRejected u m w : Inv w -> Inv (updateBufferRejected u m w).
Proof.
  intros HI. unfold updateBufferRejected, getSocket. simpl.
  destruct (userSockets w !! u); keep_inv.
Qed.

Lemma Inv_updateCheckSettled u needed w : Inv w -> Inv (updateCheckSettled u needed w).
Proof.
  intros HI. unfold updateCheckSettled. destruct needed; [|keep_inv]. readers.
  destruct (groupComplete _); keep_inv.
Qed.

Lemma Inv_handleUserMessage u m w : Inv w -> Inv (handleUserMessage u m u w).
Proof.
  intros HI. unfold handleUserMessage. readers.
  destruct (isSending _ _ && negb _).
  - apply Inv_triggerUpdateCheck. keep_inv.
  - apply Inv_triggerUpdateBuffer. keep_inv.
Qed.

Lemma Inv_handleTypingStatus u b w : Inv w -> Inv (handleTypingStatus u b u w).
Proof.
  intros HI. unfold handleTypingStatus. destruct b; readers.
  - destruct (timerActive _); keep_inv.
  - destruct (shouldUseIdleTimer _); keep_inv.
Qed.

Lemma Inv_invokeTimerCallback cb w : Inv w -> Inv (invokeTimerCallback cb w).
Proof.
  intros HI. destruct cb as [u|u|u|u|u]; simpl;
    try (apply Inv_triggerUpdateBuffer; keep_inv).
  readers. destruct (isTyping _); keep_inv.
Qed.

Lemma Inv_stopAIResponse u s w : Inv w -> Inv (stopAIResponse u s w).
Proof. intros HI. unfold stopAIResponse. destruct s; keep_inv. Qed.

Lemma Inv_orchestrator_cleanup u w : Inv w -> Inv (StateOrchestrator.cleanup u w).
Proof.
  intros HI. unfold StateOrchestrator.cleanup, BufferManager.cleanup, clearSession.
  apply Inv_forget_socket. keep_inv.
Qed.

Lemma Inv_initial : Inv initialWorld.
Proof. split; simpl; intros *; by rewrite lookup_empty. Qed.

Lemma Inv_step e w w' : Inv w -> step e w = Some w' -> Inv w'.
Proof.
  intros HI. destruct e as [s|s m|s b|s|s|s|id|k res|k needed|t]; unfold step.
  - destruct (connected w !! s); [done|]. intros <-%(inj Some). keep_inv.
  - destruct (isConnected s w); [|done]. intros <-%(inj Some).
    apply Inv_handleUserMessage. keep_inv.
  - destruct (isConnected s w); [|done]. intros <-%(inj Some).
    by apply Inv_handleTypingStatus.
  - destruct (isConnected s w); [|done]. intros <-%(inj Some).
    by apply Inv_stopAIResponse.
  - destruct (isConnected s w); [|done]. intros <-%(inj Some).
    by apply Inv_orchestrator_cleanup, Inv_stopAIResponse.
  - destruct (isConnected s w); [|done]. intros <-%(inj Some).
    apply Inv_orchestrator_cleanup. keep_inv.
  - destruct (pending w !! id) as [[tk ms]|] eqn:Hid; [|done]. intros <-%(inj Some).
    destruct tk as [r n cb | u s g bc]; unfold task, runTask.
    + apply Inv_invokeTimerCallback. by eapply Inv_fire_timer.
    + destruct (NoChain_fire_chain _ _ _ _ _ _ _ HI Hid) as [Hno ->].
      apply Inv_sendNextBlock; [done | by apply Inv_unschedule].
  - destruct (inflight w !! k) as [[u h p | u h bs i]|]; try done.
    destruct res as [m | bs]; intros <-%(inj Some).
    + apply Inv_updateBufferRejected. keep_inv.
    + apply Inv_updateBufferResolved. keep_inv.
  - destruct (inflight w !! k) as [[u h p | u h bs i]|]; try done. intros <-%(inj Some).
    apply Inv_updateCheckSettled. keep_inv.
  - intros <-%(inj Some). keep_inv.
Qed.

Lemma Inv_run es : forall w w', Inv w -> run es w = Some w' -> Inv w'.
Proof.
  induction es as [|e es IH]; intros w w' HI; simpl.
  - by intros [= <-].
  - destruct (step e w) as [w1|] eqn:Hs; [|done]. intros Hr.
    eapply IH; [|apply Hr]. by eapply Inv_step.
Qed.

Lemma Inv_reachable w : reachable w -> Inv w.
Proof. intros [es Hr]. eapply Inv_run; [apply Inv_initial | apply Hr]. Qed.

End InvariantFacts.

(** ** Timers that are active *)

Section TimerActiveFacts.
Import TimerManager.

Lemma isTimerActive_registered u r n w :
  timers w !! u = Some r ->
  (isTimerActive u n w).1 = bool_decide (is_Some (deref r w !! n)) || inherited n.
Proof.
  intros Hreg. unfold isTimerActive. rewrite getUserTimers_eq.
  by destruct (alloc_registered _ _ _ Hreg) as [-> ->].
Qed.

Lemma isTimerActive_ext u n w w' :
  timers w' = timers w -> timerObjects w' = timerObjects w -> nextObject w' = nextObject w ->
  (isTimerActive u n w').1 = (isTimerActive u n w).1.
Proof.
  intros Ht Ho Hn. unfold isTimerActive, _getUserTimers, deref. rewrite Ht.
  destruct (timers w !! u); simpl; by rewrite ?Ho, ?Hn.
Qed.

Lemma isTimerActive_cancelAllTimers u n w :
  (isTimerActive u n (cancelAllTimers u w)).1 = inherited n.
Proof.
  rewrite (isTimerActive_registered _ _ _ _ (cancelAllTimers_registered u w)).
  by rewrite cancelAllTimers_empty, lookup_empty.
Qed.

Lemma callbackType_own cb : inherited (callbackType cb) = false.
Proof. by destruct cb. Qed.

Lemma timers_setTimer u n cb ms w : timers (_setTimer u n cb ms w) = timers (alloc u w).
Proof.
  rewrite setTimer_eq; simpl. by rewrite alloc_clearTimer, timers_clearTimer.
Qed.

(** Setting a timer leaves the entries of the other types alone. *)
Lemma deref_setTimer_other u r n n' cb ms w :
  timers w !! u = Some r -> n <> n' ->
  timers (_setTimer u n cb ms w) !! u = Some r /\
  deref r (_setTimer u n cb ms w) !! n' = deref r w !! n'.
Proof.
  intros Hreg Hne. destruct (alloc_registered _ _ _ Hreg) as [Ha Hr].
  split; [by rewrite timers_setTimer, Ha|].
  rewrite setTimer_eq; simpl. rewrite alloc_clearTimer, timerRef_clearTimer, Hr.
  unfold deref at 1; simpl. rewrite lookup_insert_eq; simpl.
  rewrite lookup_insert_ne by done.
  pose proof (deref_clearTimer u n n' w) as Hc. rewrite Hr, Ha in Hc.
  rewrite decide_False in Hc by done. apply Hc.
Qed.

End TimerActiveFacts.

(** ** What an interrupt watches is left alone *)

Section WatchFacts.
Import UserSessionManager StateOrchestrator.

Lemma watch_ext u w w' :
  sessionOf u w' = sessionOf u w -> out w' = out w -> watch u w' = watch u w.
Proof. unfold watch. by intros -> ->. Qed.

Lemma watch_sessions u w w' :
  sessions w' = sessions w -> out w' = out w -> watch u w' = watch u w.
Proof. intros Hs Ho. apply watch_ext; [by apply sessionOf_ext | done]. Qed.

Lemma watch_top u f `{!TimerOp f} w : watch u (f w) = watch u w.
Proof. apply watch_sessions; [apply top_sessions | apply top_out]. Qed.

Lemma watch_cop u f `{!ChainOp f} w : watch u (f w) = watch u w.
Proof. apply watch_sessions; [apply cop_sessions | apply cop_out]. Qed.

Lemma watch_touch u u' w : watch u (touch u' w) = watch u w.
Proof. apply watch_ext; [apply sessionOf_touch | done]. Qed.

Lemma watch_mutate u u' f w :
  u' <> u \/ (forall s, watchSession (f s) = watchSession s) ->
  watch u (mutate u' f w) = watch u w.
Proof.
  intros H. unfold watch. rewrite sessionOf_mutate, (sop_out (f := mutate u' f)).
  case_decide; [|done]. destruct H as [? | H]; [done | by rewrite H].
Qed.

Lemma watch_emit u s e w :
  s <> u \/ isAiBlock e = false -> watch u (emit s e w) = watch u w.
Proof.
  intros H. unfold watch, aiBlocksTo; simpl. rewrite List.filter_app; simpl.
  change (sessionOf u (emit s e w)) with (sessionOf u w).
  destruct H as [H | H].
  - rewrite bool_decide_eq_false_2 by done. simpl. by rewrite app_nil_r.
  - rewrite H, andb_false_r. by rewrite app_nil_r.
Qed.

Lemma watch_clearSession u u' w : u' <> u -> watch u (clearSession u' w) = watch u w.
Proof.
  intros Hne. apply watch_ext; [|done]. unfold sessionOf, clearSession; simpl.
  by rewrite lookup_delete_ne.
Qed.

End WatchFacts.

(** Rewrites [watch u (f X)] to [watch u X], outermost change first. *)
Ltac watch1 :=
  match goal with
  | |- context [watch ?u (touch ?u' ?X)] => rewrite (watch_touch u u' X)
  | |- context [watch ?u (UserSessionManager.mutate ?u' ?f ?X)] =>
      rewrite (watch_mutate u u' f X);
      [| first [ right; intros ?; reflexivity | left; congruence ] ]
  | |- context [watch ?u (emit ?s ?e ?X)] =>
      rewrite (watch_emit u s e X);
      [| first [ right; reflexivity | left; congruence ] ]
  | |- context [watch ?u (UserSessionManager.clearSession ?u' ?X)] =>
      rewrite (watch_clearSession u u' X) by congruence
  | |- context [watch ?u (?f ?X)] => rewrite (watch_top u f X)
  | |- context [watch ?u (?f ?X)] => rewrite (watch_cop u f X)
  | |- context [watch ?u (log ?l ?X)] =>
      change (watch u (log l X)) with (watch u X)
  | |- context [watch ?u (StateOrchestrator.callLLM ?c ?X)] =>
      change (watch u (StateOrchestrator.callLLM c X)) with (watch u X)
  | |- context [watch ?u (StateOrchestrator.registerSocket ?a ?b ?X)] =>
      change (watch u (StateOrchestrator.registerSocket a b X)) with (watch u X)
  | |- context [watch ?u (set_sendingTimeouts ?m ?X)] =>
      change (watch u (set_sendingTimeouts m X)) with (watch u X)
  | |- context [watch ?u (set_bmUserSockets ?m ?X)] =>
      change (watch u (set_bmUserSockets m X)) with (watch u X)
  | |- context [watch ?u (set_userSockets ?m ?X)] =>
      change (watch u (set_userSockets m X)) with (watch u X)
  | |- context [watch ?u (set_connected ?m ?X)] =>
      change (watch u (set_connected m X)) with (watch u X)
  | |- context [watch ?u (set_pending ?m ?X)] =>
      change (watch u (set_pending m X)) with (watch u X)
  | |- context [watch ?u (set_inflight ?m ?X)] =>
      change (watch u (set_inflight m X)) with (watch u X)
  | |- context [watch ?u (set_now ?m ?X)] =>
      change (watch u (set_now m X)) with (watch u X)
  | |- context [watch ?u (setTimeout ?t ?ms ?X).2] =>
      change (watch u (setTimeout t ms X).2) with (watch u X)
  end.

Arguments watch : simpl never.

Ltac watching := unfold_sm; unfold_tm; repeat watch1.

Section QuietFacts.
Import UserSessionManager StateOrchestrator.

Lemma watch_handleGroupComplete u u' g w :
  u' <> u -> watch u (_handleGroupComplete u' g w) = watch u w.
Proof.
  intros Hne. unfold _handleGroupComplete. readers.
  destruct (needsUpdate _ && waitingForGroup _); by watching.
Qed.

Lemma watch_handleBufferComplete u u' w :
  watch u (_handleBufferComplete u' w) = watch u w.
Proof.
  unfold _handleBufferComplete, getSocket. readers. frame.
  destruct (userSockets w !! u') as [s|]; frame;
    destruct (needsUpdate _); try (by watching);
    destruct (userMessagedSinceLastEndUpdate _); by watching.
Qed.

(** The emission step of a user with a committed interrupt. *)
Lemma watch_sendNextBlock_committed u s g bc w :
  committed u w = true -> watch u (_sendNextBlock u s g bc w) = watch u w.
Proof.
  intros Hc. unfold _sendNextBlock. rewrite sendNextBlock_committed by done.
  unfold BufferManager.socketGone.
  destruct (socketDead s w); [by watching|].
  destruct (isPaused _); by watching.
Qed.

(** The emission step of another user, on its own socket. *)
Lemma watch_sendNextBlock_other u u' g bc w :
  u' <> u -> watch u (_sendNextBlock u' (Some u') g bc w) = watch u w.
Proof.
  intros Hne.
  unfold _sendNextBlock, BufferManager._sendNextBlock, BufferManager.socketGone.
  destruct (isConnected u' w); simpl; [|by watching].
  readers. destruct (isPaused _); [by watching|]. frame.
  destruct (needsUpdate _ && negb _); [by watching|].
  assert (forall X, watch u X = watch u w ->
            watch u (match bc with
                     | Some cb => invokeBufferComplete cb u'
                         (set_sendingTimeouts (delete u' (sendingTimeouts X)) X)
                     | None => set_sendingTimeouts (delete u' (sendingTimeouts X)) X
                     end) = watch u w) as Hdone.
  { intros X HX. destruct bc as [[]|]; cbn [invokeBufferComplete];
      rewrite ?watch_handleBufferComplete; by watching. }
  case_bool_decide; cbv beta iota zeta.
  - apply Hdone. by watching.
  - rewrite !touch_touch. destruct (blocks _ !! _) as [b|] eqn:Hb.
    + rewrite sendBlock_eq; cbv zeta. watching.
      case_bool_decide; [destruct g as [[]|]|]; cbn [invokeGroupComplete];
        rewrite ?watch_handleGroupComplete by done;
        unfold afterEmission; by watching.
    + apply Hdone. by watching.
Qed.

Lemma watch_startSendingBuffer_other u u' g bc w :
  u' <> u -> watch u (startSendingBuffer u' (Some u') g bc w) = watch u w.
Proof.
  intros Hne. unfold startSendingBuffer, BufferManager.startSendingBuffer.
  destruct (socketDead _ _); [by watching|].
  fold (_sendNextBlock u' (Some u') g bc).
  rewrite watch_sendNextBlock_other by done. by watching.
Qed.

Lemma watch_triggerUpdateBuffer u u' w : watch u (triggerUpdateBuffer u' w) = watch u w.
Proof. rewrite triggerUpdateBuffer_eq. unfold stopSending. by watching. Qed.

Lemma watch_triggerUpdateCheck u u' w : watch u (triggerUpdateCheck u' w) = watch u w.
Proof. rewrite triggerUpdateCheck_eq. by watching. Qed.

Lemma watch_updateBufferResolved_other u u' bs w :
  Inv w -> u' <> u -> watch u (updateBufferResolved u' bs w) = watch u w.
Proof.
  intros HI Hne. unfold updateBufferResolved, getSocket. frame.
  destruct (userSockets w !! u') as [s|] eqn:Hs; [|by watching].
  apply (inv_sockets _ HI) in Hs as ->.
  rewrite watch_startSendingBuffer_other by done. by watching.
Qed.

Lemma watch_updateBufferRejected u u' m w :
  watch u (updateBufferRejected u' m w) = watch u w.
Proof.
  unfold updateBufferRejected, getSocket. simpl.
  destruct (userSockets w !! u'); by watching.
Qed.

Lemma watch_updateCheckSettled_other u u' needed w :
  u' <> u -> watch u (updateCheckSettled u' needed w) = watch u w.
Proof.
  intros Hne. unfold updateCheckSettled. destruct needed; [|by watching]. readers.
  destruct (groupComplete _); unfold stopSending; by watching.
Qed.

Lemma watch_handleUserMessage u u' m s w :
  watch u (handleUserMessage u' m s w) = watch u w.
Proof.
  unfold handleUserMessage. readers.
  destruct (isSending _ _ && negb _);
    rewrite ?watch_triggerUpdateCheck, ?watch_triggerUpdateBuffer; by watching.
Qed.

Lemma watch_handleTypingStatus u u' b s w :
  watch u (handleTypingStatus u' b s w) = watch u w.
Proof.
  unfold handleTypingStatus. destruct b; readers.
  - destruct (timerActive _); by watching.
  - destruct (shouldUseIdleTimer _); by watching.
Qed.

Lemma watch_invokeTimerCallback u cb w : watch u (invokeTimerCallback cb w) = watch u w.
Proof.
  destruct cb as [u'|u'|u'|u'|u']; simpl; rewrite ?watch_triggerUpdateBuffer;
    try (by watching).
  readers. destruct (isTyping _); by watching.
Qed.

Lemma watch_stopAIResponse u u' s w : watch u (stopAIResponse u' s w) = watch u w.
Proof. unfold stopAIResponse, stopSending. destruct s; by watching. Qed.

Lemma watch_cleanup_other u u' w :
  u' <> u -> watch u (StateOrchestrator.cleanup u' w) = watch u w.
Proof.
  intros Hne. unfold StateOrchestrator.cleanup, BufferManager.cleanup. by watching.
Qed.

Lemma committed_watch u w w' : watch u w' = watch u w -> committed u w' = committed u w.
Proof.
  unfold watch, watchSession, committed. intros [= Hn Hw _ _ _]. by rewrite Hn, Hw.
Qed.

(** A turn of the event loop that does not disturb a committed interrupt
    leaves what the interrupt watches alone. *)
Lemma watch_step u e w w' :
  Inv w -> committed u w = true -> disturbs u w e = false ->
  step e w = Some w' -> watch u w' = watch u w.
Proof.
  intros HI Hc Hd. destruct e as [s|s m|s b|s|s|s|id|k res|k needed|t]; unfold step.
  - destruct (connected w !! s); [done|]. intros <-%(inj Some). by watching.
  - destruct (isConnected s w); [|done]. intros <-%(inj Some).
    rewrite watch_handleUserMessage. by watching.
  - destruct (isConnected s w); [|done]. intros <-%(inj Some).
    apply watch_handleTypingStatus.
  - destruct (isConnected s w); [|done]. intros <-%(inj Some).
    apply watch_stopAIResponse.
  - destruct (isConnected s w); [|done]. intros <-%(inj Some).
    simpl in Hd. apply bool_decide_eq_false in Hd.
    rewrite watch_cleanup_other by done. apply watch_stopAIResponse.
  - destruct (isConnected s w); [|done]. intros <-%(inj Some).
    simpl in Hd. apply bool_decide_eq_false in Hd.
    rewrite watch_cleanup_other by done. by watching.
  - destruct (pending w !! id) as [[tk ms]|] eqn:Hid; [|done]. intros <-%(inj Some).
    destruct tk as [r n cb | u' s g bc]; unfold task, runTask.
    + rewrite watch_invokeTimerCallback. by watching.
    + destruct (inv_pacer _ HI _ _ _ _ _ _ Hid) as [_ ->].
      destruct (decide (u' = u)) as [-> | Hne].
      * rewrite watch_sendNextBlock_committed by done. by watching.
      * rewrite watch_sendNextBlock_other by done. by watching.
  - simpl in Hd.
    destruct (inflight w !! k) as [[u' h p | u' h bs i]|]; try done.
    destruct res as [m | bs]; intros <-%(inj Some).
    + rewrite watch_updateBufferRejected. by watching.
    + apply bool_decide_eq_false in Hd.
      rewrite watch_updateBufferResolved_other; [by watching | | done].
      revert HI. apply Inv_ext; done.
  - simpl in Hd.
    destruct (inflight w !! k) as [[u' h p | u' h bs i]|]; try done.
    intros <-%(inj Some). apply bool_decide_eq_false in Hd.
    rewrite watch_updateCheckSettled_other by done. by watching.
  - intros <-%(inj Some). by watching.
Qed.

Lemma watch_run u es : forall w w',
  Inv w -> committed u w = true -> undisturbed u es w = true ->
  run es w = Some w' -> watch u w' = watch u w.
Proof.
  induction es as [|e es IH]; intros w w' HI Hc Hu; simpl in *.
  - by intros [= <-].
  - apply andb_true_iff in Hu as [Hd Hrest]. apply negb_true_iff in Hd.
    destruct (step e w) as [w1|] eqn:Hs; [|done]. intros Hr.
    pose proof (watch_step _ _ _ _ HI Hc Hd Hs) as H1.
    rewrite <- H1. apply IH; [by eapply Inv_step | | done | done].
    by rewrite (committed_watch _ _ _ H1).
Qed.

End QuietFacts.

(** * The claims *)

Section PacerClaims.
Import UserSessionManager.

(** C6.  In an emission step that sends a block, the block sent is the one
    under the cursor, the cursor then moves on by one, and the group
    callback is called with the group held before the move exactly when the
    group read after the move differs from it; past the last block the new
    group is null, which differs from every group.  A call of the callback
    shows as the console line of _handleGroupComplete. *)
Theorem pacer_group_boundary u s g bc b w :
  nextEmission u s w = Some b ->
  let w' := StateOrchestrator._sendNextBlock u (Some s) g bc w in
  let buf := buffer (sessionOf u w) in
  let buf' := buffer (sessionOf u w') in
  let previousGroup := currentGroup buf in
  let newGroup := group <$> blocks buf !! S (currentIndex buf) in
  blocks buf !! currentIndex buf = Some b /\
  out w' = out w ++ [(s, AiBlock (text b) (group b) (now w))] /\
  blocks buf' = blocks buf /\
  currentIndex buf' = S (currentIndex buf) /\
  currentGroup buf' = newGroup /\
  console w' =
    console w ++ LogBlock (currentIndex buf + 1) previousGroup ::
      match g with
      | Some _ => if decide (previousGroup = newGroup) then []
                  else [LogGroupComplete previousGroup]
      | None => []
      end.
Proof.
  intros He. pose proof (nextEmission_Some _ _ _ _ He) as (_ & _ & _ & Hb).
  unfold StateOrchestrator._sendNextBlock.
  rewrite sendNextBlock_emits with (b := b) by done.
  rewrite sendBlock_eq. cbv zeta.
  rewrite !sessionOf_afterEmission; frame.
  destruct (advanceBuffer_spec (buffer (sessionOf u w))) as (Hbl & Hidx & Hgrp).
  rewrite Hgrp.
  set (prev := currentGroup (buffer (sessionOf u w))).
  set (new := group <$> blocks (buffer (sessionOf u w)) !! S (currentIndex (buffer (sessionOf u w)))).
  split; [done|].
  case_bool_decide as Hne; [destruct g as [[]|]|]; simpl;
    rewrite ?out_handleGroupComplete, ?console_handleGroupComplete,
      ?buffer_handleGroupComplete;
    rewrite ?sessionOf_afterEmission, ?out_afterEmission, ?console_afterEmission; frame;
    rewrite ?Hbl, ?Hidx, ?Hgrp; fold prev; fold new.
  - rewrite decide_False by done. by rewrite <- app_assoc.
  - done.
  - assert (prev = new) as Heq by (by destruct (decide (prev = new))).
    rewrite decide_True by done. by destruct g.
Qed.

Lemma pacer_group_boundary_witness :
  nextEmission "s" "s" midStream = Some blockB /\
  console (StateOrchestrator._sendNextBlock "s" (Some "s") (Some OnGroupComplete)
             (Some OnBufferComplete) midStream)
  = console midStream ++ [LogBlock 2 (Some 1%Z); LogGroupComplete (Some 1%Z)].
Proof.
  split; [vm_compute; reflexivity|].
  refine (proj2 (proj2 (proj2 (proj2 (proj2
    (pacer_group_boundary "s" "s" (Some OnGroupComplete) (Some OnBufferComplete)
       blockB midStream _)))))).
  vm_compute; reflexivity.
Defined.

(** C7.  After a block has been sent the next emission step is scheduled
    with a delay of max(typingTime * 1000, 1000) milliseconds, which is
    exactly 1000 for a block whose typingTime is below one second. *)
Theorem pacer_delay u s g bc b w :
  nextEmission u s w = Some b ->
  let w' := StateOrchestrator._sendNextBlock u (Some s) g bc w in
  let ms := Math_max (typingTime b * 1000) 1000 in
  (exists id,
     sendingTimeouts w' !! u = Some id /\
     pending w' !! id = Some (mkTimeout (TaskSendNext u (Some s) g bc) ms)) /\
  (typingTime b * 1000 <= ms)%Q /\ (1000 <= ms)%Q /\
  (ms = (typingTime b * 1000)%Q \/ ms = 1000%Q) /\
  ((typingTime b < 1)%Q -> ms = 1000%Q).
Proof.
  intros He. unfold StateOrchestrator._sendNextBlock.
  rewrite sendNextBlock_emits with (b := b) by done.
  rewrite sendBlock_eq. cbv zeta. split.
  { eexists. simpl. split; [apply lookup_insert_eq|]. apply lookup_insert_eq. }
  unfold Math_max. destruct (Qlt_le_dec _ _) as [Hlt | Hle].
  - split_and!; [by apply Qlt_le_weak | apply Qle_refl | by right | done].
  - split_and!; [apply Qle_refl | done | by left |].
    intros H1. exfalso. apply (Qlt_irrefl 1000).
    eapply Qle_lt_trans; [apply Hle|].
    change 1000%Q with (1 * 1000)%Q at 2.
    apply Qmult_lt_compat_r; [reflexivity | done].
Qed.

Lemma pacer_delay_witness :
  nextEmission "s" "s" midStreamQuick = Some blockQuick /\
  Math_max (typingTime blockQuick * 1000) 1000 = 1000%Q.
Proof.
  split; [vm_compute; reflexivity|].
  refine (proj2 (proj2 (proj2 (proj2
    (pacer_delay "s" "s" (Some OnGroupComplete) (Some OnBufferComplete)
       blockQuick midStreamQuick _)))) _); vm_compute; reflexivity.
Defined.

End PacerClaims.

Section PromptClaims.
Import GeminiService.

Lemma string_append_assoc (s1 s2 s3 : string) :
  (s1 +:+ s2) +:+ s3 = s1 +:+ s2 +:+ s3.
Proof.
  induction s1 as [|a s1 IH]; [reflexivity|].
  change (String a ((s1 +:+ s2) +:+ s3) = String a (s1 +:+ s2 +:+ s3)).
  by rewrite IH.
Qed.

Lemma userMessages_skip_model h1 m h2 :
  role m = Model -> userMessages (h1 ++ m :: h2) = userMessages (h1 ++ h2).
Proof.
  intros Hm. unfold userMessages.
  rewrite !List.filter_app; simpl. unfold isUser at 2. by rewrite Hm.
Qed.

Lemma join_concat sep parts : join sep parts = String.concat sep parts.
Proof.
  induction parts as [|p rest IH]; [reflexivity|].
  destruct rest as [|q rest]; [reflexivity|].
  change (p +:+ sep +:+ join sep (q :: rest) = p +:+ sep +:+ String.concat sep (q :: rest)).
  by rewrite IH.
Qed.

Lemma filter_userContentsSpec h :
  content <$> List.filter isUser h = userContentsSpec h.
Proof.
  induction h as [|m h IH]; [reflexivity|].
  cbn [List.filter userContentsSpec]. unfold isUser at 1.
  destruct (role m); [|exact IH]. rewrite fmap_cons. by rewrite IH.
Qed.

Lemma userContentsSpec_app h1 h2 :
  userContentsSpec (h1 ++ h2) = userContentsSpec h1 ++ userContentsSpec h2.
Proof.
  induction h1 as [|m h1 IH]; [reflexivity|].
  rewrite <- app_comm_cons. cbn [userContentsSpec].
  destruct (role m); [|exact IH]. rewrite <- app_comm_cons. by rewrite IH.
Qed.

Lemma blocksText_sectionSpec bs : blocksText bs = sectionSpec (text <$> bs).
Proof.
  unfold blocksText. destruct bs as [|b bs].
  - reflexivity.
  - rewrite bool_decide_eq_true_2 by (cbn [length]; lia).
    rewrite join_concat. reflexivity.
Qed.

Lemma sentBlocks_take currentBuffer index :
  sentBlocks currentBuffer index = take index currentBuffer.
Proof.
  unfold sentBlocks. case_bool_decide as Hl; [done|].
  destruct currentBuffer; [by rewrite take_nil | cbn [length] in Hl; lia].
Qed.

Lemma pendingBlocks_drop currentBuffer index :
  pendingBlocks currentBuffer index = drop index currentBuffer.
Proof.
  unfold pendingBlocks. case_bool_decide as Hl; [done|].
  destruct currentBuffer; [by rewrite drop_nil | cbn [length] in Hl; lia].
Qed.

(** C10.  The prompt of updateCheck is the evaluator prompt followed by
    three sections, line by line as checkPromptSpec gives them.  The USER
    MESSAGES section, the last one, holds the contents of exactly the
    entries of recentHistory with role user, in the order of the history:
    every entry with role user contributes its content, and removing an
    entry with role model does not change the prompt.  The buffer is split
    at currentIndex: the SENT BLOCKS section lists the texts of the blocks
    at the indices below it, the PENDING BLOCKS section those of the blocks
    from it on, and each of the two reads None when it has no block. *)
Theorem updateCheck_prompt_sections evaluatorPrompt recentHistory currentBuffer index :
  let sent := sentBlocks currentBuffer index in
  let waiting := pendingBlocks currentBuffer index in
  checkPrompt evaluatorPrompt recentHistory currentBuffer index =
    String.concat newline
      (checkPromptSpec evaluatorPrompt recentHistory currentBuffer index) /\
  (exists before,
     checkPrompt evaluatorPrompt recentHistory currentBuffer index =
     before +:+ "USER MESSAGES:" +:+ newline +:+
     String.concat newline (userContentsSpec recentHistory)) /\
  (forall c, c ∈ userContentsSpec recentHistory <->
     exists m, m ∈ recentHistory /\ role m = User /\ content m = c) /\
  (forall h1 m h2, recentHistory = h1 ++ m :: h2 -> role m = User ->
     userContentsSpec recentHistory =
     userContentsSpec h1 ++ content m :: userContentsSpec h2) /\
  (forall h1 m h2, recentHistory = h1 ++ m :: h2 -> role m = Model ->
     checkPrompt evaluatorPrompt recentHistory currentBuffer index =
     checkPrompt evaluatorPrompt (h1 ++ h2) currentBuffer index) /\
  (exists before between after,
     checkPrompt evaluatorPrompt recentHistory currentBuffer index =
     before +:+ "SENT BLOCKS:" +:+ newline +:+ sectionSpec (text <$> sent) +:+
     between +:+ "PENDING BLOCKS:" +:+ newline +:+ sectionSpec (text <$> waiting) +:+
     after) /\
  sent ++ waiting = currentBuffer /\
  (forall i b, sent !! i = Some b <-> i < index /\ currentBuffer !! i = Some b) /\
  (forall i b, waiting !! i = Some b <-> currentBuffer !! (index + i) = Some b).
Proof.
  cbv zeta. rewrite sentBlocks_take, pendingBlocks_drop.
  assert (checkPrompt evaluatorPrompt recentHistory currentBuffer index =
          evaluatorPrompt +:+ newline +:+ newline +:+
          "SENT BLOCKS:" +:+ newline +:+
          sectionSpec (text <$> take index currentBuffer) +:+ newline +:+ newline +:+
          "PENDING BLOCKS:" +:+ newline +:+
          sectionSpec (text <$> drop index currentBuffer) +:+ newline +:+ newline +:+
          "USER MESSAGES:" +:+ newline +:+
          String.concat newline (userContentsSpec recentHistory)) as Hprompt.
  { unfold checkPrompt, userMessages.
    by rewrite sentBlocks_take, pendingBlocks_drop, !blocksText_sectionSpec,
      join_concat, filter_userContentsSpec. }
  split_and!.
  - rewrite Hprompt. reflexivity.
  - rewrite Hprompt.
    exists (evaluatorPrompt +:+ newline +:+ newline +:+
            "SENT BLOCKS:" +:+ newline +:+
            sectionSpec (text <$> take index currentBuffer) +:+ newline +:+ newline +:+
            "PENDING BLOCKS:" +:+ newline +:+
            sectionSpec (text <$> drop index currentBuffer) +:+ newline +:+ newline).
    by rewrite !string_append_assoc.
  - intros c. rewrite <- filter_userContentsSpec. split.
    + intros (m & -> & Hm)%list_elem_of_fmap.
      apply list_elem_of_In, List.filter_In in Hm as [Hin Hu].
      exists m. split_and!; [by apply list_elem_of_In | | done].
      unfold isUser in Hu. by destruct (role m).
    + intros (m & Hin & Hu & <-). apply list_elem_of_fmap. exists m. split; [done|].
      apply list_elem_of_In, List.filter_In. split; [by apply list_elem_of_In|].
      unfold isUser. by rewrite Hu.
  - intros h1 m h2 -> Hm. rewrite userContentsSpec_app.
    cbn [userContentsSpec]. by rewrite Hm.
  - intros h1 m h2 -> Hm. unfold checkPrompt. by rewrite userMessages_skip_model.
  - rewrite Hprompt.
    exists (evaluatorPrompt +:+ newline +:+ newline), (newline +:+ newline),
      (newline +:+ newline +:+ "USER MESSAGES:" +:+ newline +:+
       String.concat newline (userContentsSpec recentHistory)).
    by rewrite !string_append_assoc.
  - apply take_drop.
  - intros i b.
    destruct (decide (i < index)) as [Hlt | Hge].
    + rewrite lookup_take_lt by done. naive_solver.
    + rewrite lookup_take_ge by lia. naive_solver.
  - intros i b. by rewrite lookup_drop.
Qed.

(** The prompt for a buffer of three blocks of which one was sent, and a
    history of two user messages around an answer of the model. *)
Lemma updateCheck_prompt_sections_witness :
  checkPrompt "Decide." exampleHistory [blockA; blockB; blockC] 1 =
    String.concat newline
      ["Decide."; "";
       "SENT BLOCKS:"; "a"; "";
       "PENDING BLOCKS:"; "b"; "c"; "";
       "USER MESSAGES:"; "hi"; "wait"] /\
  checkPrompt "Decide." exampleHistory [blockA; blockB; blockC] 1 =
    checkPrompt "Decide." [mkEntry User "hi" 1; mkEntry User "wait" 3]
      [blockA; blockB; blockC] 1 /\
  userContentsSpec exampleHistory = ["hi"; "wait"].
Proof.
  pose proof (updateCheck_prompt_sections "Decide." exampleHistory
                [blockA; blockB; blockC] 1) as (Hprompt & _ & _ & Huser & Hmodel & _).
  split_and!.
  - rewrite Hprompt. vm_compute. reflexivity.
  - exact (Hmodel [mkEntry User "hi" 1] (mkEntry Model "hello" 2)
             [mkEntry User "wait" 3] eq_refl eq_refl).
  - exact (Huser [mkEntry User "hi" 1; mkEntry Model "hello" 2]
             (mkEntry User "wait" 3) [] eq_refl eq_refl).
Defined.

End PromptClaims.

Section StopClaims.
Import UserSessionManager StateOrchestrator.

Lemma markBufferComplete_twice u w :
  markBufferComplete u (markBufferComplete u w) = markBufferComplete u w.
Proof.
  unfold markBufferComplete. rewrite (mutate_eq u _ (mutate u _ w)).
  rewrite sessionOf_mutate, decide_True by done.
  rewrite mutate_eq; simpl. by rewrite insert_insert_eq.
Qed.

Lemma mutate_emit u f s e w : mutate u f (emit s e w) = emit s e (mutate u f w).
Proof. by rewrite !mutate_eq. Qed.

(** The state a Stop leaves is one in which a further Stop finds nothing
    to cancel. *)
Lemma stopAIResponse_settled u s w :
  let w1 := stopAIResponse u s w in
  TimerManager.cancelAllTimers u w1 = w1 /\
  BufferManager.stopSending u w1 = w1 /\
  markBufferComplete u w1 = w1.
Proof.
  unfold stopAIResponse, stopSending.
  set (w0 := TimerManager.cancelAllTimers u w).
  set (w2 := markBufferComplete u (BufferManager.stopSending u w0)).
  assert (TimerManager.cancelAllTimers u w2 = w2) as Hc.
  { apply cancelAllTimers_none with (r := timerRef u w).
    - unfold w2, markBufferComplete. frame. apply cancelAllTimers_registered.
    - unfold TimerManager.deref, w2, markBufferComplete. frame.
      apply cancelAllTimers_empty. }
  assert (BufferManager.stopSending u w2 = w2) as Hs.
  { apply stopSending_none. unfold w2, markBufferComplete. frame.
    rewrite sendingTimeouts_stopSending. apply lookup_delete_eq. }
  assert (markBufferComplete u w2 = w2) as Hm by apply markBufferComplete_twice.
  destruct s as [s|]; simpl; [|done].
  split_and!.
  - apply cancelAllTimers_none with (r := timerRef u w).
    + simpl. unfold w2, markBufferComplete. frame. apply cancelAllTimers_registered.
    + unfold TimerManager.deref; simpl. unfold w2, markBufferComplete. frame.
      apply cancelAllTimers_empty.
  - apply stopSending_none. simpl. unfold w2, markBufferComplete. frame.
    rewrite sendingTimeouts_stopSending. apply lookup_delete_eq.
  - unfold markBufferComplete in *. rewrite mutate_emit. by rewrite Hm.
Qed.

(** C8 (amended).  A second Stop right after a first one changes nothing
    in the state (timers, pacer, sessions) but emits ai_complete again:
    two Stops emit two ai_complete events, one Stop emits one. *)
Theorem stop_twice u s w :
  let w1 := stopAIResponse u (Some s) w in
  stopAIResponse u (Some s) w1 = emit s AiComplete w1 /\
  out w1 = out w ++ [(s, AiComplete)] /\
  out (stopAIResponse u (Some s) w1) = out w ++ [(s, AiComplete); (s, AiComplete)].
Proof.
  destruct (stopAIResponse_settled u (Some s) w) as (Hc & Hs & Hm).
  cbv zeta in *. split_and!.
  - unfold stopAIResponse at 1. unfold stopSending. by rewrite Hc, Hs, Hm.
  - unfold stopAIResponse, stopSending, markBufferComplete. by frame.
  - unfold stopAIResponse at 1. unfold stopSending. rewrite Hc, Hs, Hm.
    unfold stopAIResponse, stopSending, markBufferComplete. frame.
    by rewrite <- app_assoc.
Qed.

(** C8 as claimed fails: the second Stop is observable. *)
Lemma stop_twice_counterexample : ~ StopIdempotent.
Proof.
  intros H.
  destruct (H (exec [EConnection "s"])
              "s"
              (exec [EConnection "s"; EStopAiResponse "s"])
              (exec [EConnection "s"; EStopAiResponse "s"; EStopAiResponse "s"]))
    as [Hout _]; [vm_compute; reflexivity | vm_compute; reflexivity |].
  vm_compute in Hout. discriminate Hout.
Qed.

End StopClaims.

Section EndUpdateClaims.
Import UserSessionManager StateOrchestrator.

Lemma handleBufferComplete_flag_false u w :
  flagOf u w = false -> Evolves notEndUpdate w (_handleBufferComplete u w).
Proof.
  intros Hflag. unfold flagOf in Hflag.
  unfold _handleBufferComplete, getSocket. readers. frame.
  destruct (userSockets w !! u) as [s|]; frame; rewrite Hflag;
    destruct (needsUpdate _); evolves; by intros r r' cb.
Qed.

(** C4.  Whatever turn of the event loop schedules an endUpdate timer, the
    timer is the one _handleBufferComplete sets for a user whose
    userMessagedSinceLastEndUpdate flag is true (no step of the turn before
    _handleBufferComplete writes the flag, so this is its value when
    _handleBufferComplete runs); and _handleBufferComplete schedules no
    endUpdate timer when the flag is false. *)
Theorem endUpdate_gate :
  (forall e w w' i r cb ms,
     step e w = Some w' ->
     pending w' !! i = Some (mkTimeout (TaskTimer r "endUpdate" cb) ms) ->
     pending w !! i = Some (mkTimeout (TaskTimer r "endUpdate" cb) ms) \/
     exists u, cb = CbEndUpdate u /\ flagOf u w = true) /\
  (forall u w i r cb ms,
     pending (_handleBufferComplete u w) !! i
       = Some (mkTimeout (TaskTimer r "endUpdate" cb) ms) ->
     pending w !! i = Some (mkTimeout (TaskTimer r "endUpdate" cb) ms) \/
     (cb = CbEndUpdate u /\ flagOf u w = true)).
Proof.
  split.
  - intros e w w' i r cb ms Hstep Hi.
    destruct (Evolves_step _ _ _ Hstep) as [_ H].
    destruct (H _ _ Hi) as [Hold | [_ Hgate]]; [by left | right].
    by apply (Hgate r cb).
  - intros u w i r cb ms Hi.
    destruct (Evolves_handleBufferComplete_of u w) as [_ H].
    destruct (H _ _ Hi) as [Hold | [_ Hgate]]; [by left | right].
    by apply (Hgate r cb).
Qed.

Lemma endUpdate_gate_witness :
  exists u, CbEndUpdate "s" = CbEndUpdate u /\ flagOf u lastBlockSent = true.
Proof.
  destruct (proj1 endUpdate_gate (ETimeout 0) lastBlockSent
              (exec [EConnection "s"; EUserMessage "s" "hi";
                     EUpdateBufferSettled 0 (inr [blockA]); ETimeout 0])
              1 0 (CbEndUpdate "s") 25000%Q) as [Hold | Hnew].
  - vm_compute; reflexivity.
  - vm_compute; reflexivity.
  - vm_compute in Hold. discriminate Hold.
  - exact Hnew.
Defined.

End EndUpdateClaims.

Section TimerClaims.
Import UserSessionManager StateOrchestrator.

Lemma isTimerActive_triggerUpdateBuffer u n w :
  (TimerManager.isTimerActive u n (triggerUpdateBuffer u w)).1 = TimerManager.inherited n.
Proof.
  rewrite triggerUpdateBuffer_eq.
  rewrite (isTimerActive_ext u n (TimerManager.cancelAllTimers u (log LogGenerating w)))
    by (unfold stopSending; by frame).
  apply isTimerActive_cancelAllTimers.
Qed.

Lemma isTimerActive_sop u n f `{!SessionOp f} w :
  (TimerManager.isTimerActive u n (f w)).1 = (TimerManager.isTimerActive u n w).1.
Proof.
  apply isTimerActive_ext; [apply sop_timers | apply sop_timerObjects | apply sop_nextObject].
Qed.

(** C9.  In every reachable state at most one scheduled callback exists for
    a user and a timer type.  When a timer fires, its entry has been
    deleted from the timer object of its user by the time its callback is
    called, so isTimerActive answers false for it at that moment, and it
    still does when the callback has returned. *)
Theorem timer_single_and_cleared w :
  reachable w ->
  (forall userId timerType i j ti tj,
     pending w !! i = Some ti -> pending w !! j = Some tj ->
     isTimerOf userId timerType ti -> isTimerOf userId timerType tj -> i = j) /\
  (forall id r timerType cb ms,
     pending w !! id = Some (mkTimeout (TaskTimer r timerType cb) ms) ->
     let atCall :=
       TimerManager.deleteEntry r timerType (set_pending (delete id (pending w)) w) in
     step (ETimeout id) w = Some (invokeTimerCallback cb atCall) /\
     (TimerManager.isTimerActive (callbackUser cb) timerType atCall).1 = false /\
     (TimerManager.isTimerActive (callbackUser cb) timerType
        (invokeTimerCallback cb atCall)).1 = false).
Proof.
  intros HI%Inv_reachable. split.
  - intros u n i j [ti di] [tj dj] Hi Hj (ri & cbi & Hti & Hui) (rj & cbj & Htj & Huj).
    simpl in *. subst ti tj.
    destruct (inv_timer _ HI _ _ _ _ _ Hi) as (Hri & Hei & _).
    destruct (inv_timer _ HI _ _ _ _ _ Hj) as (Hrj & Hej & _).
    rewrite Hui in Hri. rewrite Huj in Hrj.
    assert (ri = rj) as -> by congruence. congruence.
  - intros id r n cb ms Hid atCall.
    destruct (inv_timer _ HI _ _ _ _ _ Hid) as (Hreg & Hent & Hty).
    assert (timers atCall !! callbackUser cb = Some r) as Hreg' by done.
    assert (TimerManager.deref r atCall !! n = None) as Hnone.
    { unfold atCall. rewrite deref_deleteEntry, decide_True by done.
      apply lookup_delete_eq. }
    assert (TimerManager.inherited n = false) as Hown.
    { rewrite Hty. apply callbackType_own. }
    split_and!.
    + unfold step. by rewrite Hid.
    + rewrite (isTimerActive_registered _ _ _ _ Hreg'), Hnone, Hown. reflexivity.
    + destruct cb as [u|u|u|u|u]; simpl in *;
        try (rewrite isTimerActive_triggerUpdateBuffer; exact Hown).
      rewrite getTypingState_eq; cbv beta iota zeta.
      assert (timers (touch u atCall) !! u = Some r) as Hreg2 by done.
      assert (TimerManager.deref r (touch u atCall) !! n = None) as Hnone2 by done.
      destruct (isTyping _).
      * unfold enableIdleTimer. rewrite isTimerActive_sop by apply _.
        rewrite (isTimerActive_registered _ _ _ _ Hreg2), Hnone2, Hown. reflexivity.
      * unfold TimerManager.startTypingIdleTimer.
        destruct (deref_setTimer_other u r "typingIdle" n (CbIdleAfterGroupDelay u)
                    5000 (touch u atCall) Hreg2) as [Hreg3 Hsame].
        { by rewrite Hty. }
        rewrite (isTimerActive_registered _ _ _ _ Hreg3), Hsame, Hnone2, Hown.
        reflexivity.
Qed.

Lemma timer_single_and_cleared_witness :
  (TimerManager.isTimerActive "s" "maxTyping" clientTyping).1 = true /\
  (TimerManager.isTimerActive "s" "maxTyping"
     (invokeTimerCallback (CbMaxTyping "s")
        (TimerManager.deleteEntry 0 "maxTyping"
           (set_pending (delete 0 (pending clientTyping)) clientTyping)))).1 = false.
Proof.
  split; [vm_compute; reflexivity|].
  refine (proj2 (proj2 (proj2 (timer_single_and_cleared clientTyping _)
                          0 0 "maxTyping" (CbMaxTyping "s") 30000%Q _))).
  - exists [EConnection "s"; ETypingStatus "s" true]. vm_compute; reflexivity.
  - vm_compute; reflexivity.
Defined.

End TimerClaims.

Section StartClaims.
Import UserSessionManager StateOrchestrator.

(** C5 (amended).  In every reachable state at most one emission chain is
    scheduled for a user.  Start called with a connected socket cancels the
    chain scheduled before it begins the new emission loop; Start called
    with a missing or disconnected socket returns at once and leaves the
    state, the scheduled chain included, as it was. *)
Theorem single_chain w :
  reachable w ->
  (forall u i j ti tj,
     pending w !! i = Some ti -> pending w !! j = Some tj ->
     isChainOf u ti -> isChainOf u tj -> i = j) /\
  (forall u s g bc i t,
     socketDead s w = false ->
     pending w !! i = Some t -> isChainOf u t ->
     pending (startSendingBuffer u s g bc w) !! i = None) /\
  (forall u s g bc,
     socketDead s w = true ->
     startSendingBuffer u s g bc w = log LogCannotStart w).
Proof.
  intros HI%Inv_reachable. split_and!.
  - intros u i j [ti di] [tj dj] Hi Hj (si & gi & bi & Hti) (sj & gj & bj & Htj).
    simpl in *. subst ti tj.
    destruct (inv_pacer _ HI _ _ _ _ _ _ Hi) as [Hsi _].
    destruct (inv_pacer _ HI _ _ _ _ _ _ Hj) as [Hsj _]. congruence.
  - intros u s g bc i [t d] Hlive Hi (s' & g' & b' & Ht). simpl in Ht. subst t.
    destruct (inv_pacer _ HI _ _ _ _ _ _ Hi) as [Hs _].
    pose proof (inv_ids _ HI _ _ Hi) as Hlt.
    unfold startSendingBuffer, BufferManager.startSendingBuffer. rewrite Hlive.
    match goal with
    | |- pending (BufferManager._sendNextBlock _ _ _ _ _ _ ?X) !! _ = None =>
        set (w1 := X);
        destruct (Evolves_sendNextBlock u s g bc w1) as [_ Hev]
    end.
    assert (pending w1 !! i = None) as Hgone.
    { unfold w1, resumeBuffer. frame. rewrite stopSending_eq.
      assert (sendingTimeouts
                match s with
                | Some s0 => set_bmUserSockets (<[u:=s0]> (bmUserSockets w)) w
                | None => w
                end = sendingTimeouts w) as -> by by destruct s.
      rewrite Hs. simpl. destruct s; apply lookup_delete_eq. }
    assert (nextTimeout w1 = nextTimeout w) as Hnt.
    { unfold w1, resumeBuffer. frame. by destruct s. }
    destruct (pending (BufferManager._sendNextBlock _ _ _ _ _ _ w1) !! i) as [t'|] eqn:Hi';
      [|done].
    destruct (Hev _ _ Hi') as [Hold | [Hrange _]]; [congruence | lia].
  - intros u s g bc Hdead. unfold startSendingBuffer, BufferManager.startSendingBuffer.
    by rewrite Hdead.
Qed.

Lemma single_chain_witness :
  pending (startSendingBuffer "s" (Some "s") (Some OnGroupComplete) (Some OnBufferComplete)
             midStream) !! 0 = None.
Proof.
  refine (proj1 (proj2 (single_chain midStream _)) "s" (Some "s") (Some OnGroupComplete)
            (Some OnBufferComplete) 0
            (mkTimeout (TaskSendNext "s" (Some "s") (Some OnGroupComplete)
                          (Some OnBufferComplete)) 1000%Q) _ _ _).
  - exists [EConnection "s"; EUserMessage "s" "hi";
            EUpdateBufferSettled 0 (inr [blockA; blockB; blockC])].
    vm_compute; reflexivity.
  - vm_compute; reflexivity.
  - vm_compute; reflexivity.
  - by exists (Some "s"), (Some OnGroupComplete), (Some OnBufferComplete).
Defined.

(** C5 as claimed fails: Start without a socket leaves the chain
    scheduled. *)
Lemma single_chain_counterexample : ~ StartAlwaysCancels.
Proof.
  intros H.
  assert (reachable midStream) as Hr.
  { exists [EConnection "s"; EUserMessage "s" "hi";
            EUpdateBufferSettled 0 (inr [blockA; blockB; blockC])].
    vm_compute; reflexivity. }
  specialize (H midStream Hr "s" None (Some OnGroupComplete) (Some OnBufferComplete) 0
                (mkTimeout (TaskSendNext "s" (Some "s") (Some OnGroupComplete)
                              (Some OnBufferComplete)) 1000%Q)).
  assert (pending midStream !! 0 =
          Some (mkTimeout (TaskSendNext "s" (Some "s") (Some OnGroupComplete)
                             (Some OnBufferComplete)) 1000%Q)) as Hp
    by (vm_compute; reflexivity).
  specialize (H Hp).
  assert (isChainOf "s" (mkTimeout (TaskSendNext "s" (Some "s") (Some OnGroupComplete)
                                      (Some OnBufferComplete)) 1000%Q)) as Hc
    by (by exists (Some "s"), (Some OnGroupComplete), (Some OnBufferComplete)).
  specialize (H Hc). vm_compute in H. discriminate H.
Qed.

End StartClaims.

Section RegenerationClaims.
Import UserSessionManager StateOrchestrator.

Lemma isSending_triggerUpdateBuffer u w : isSending u (triggerUpdateBuffer u w) = false.
Proof.
  rewrite triggerUpdateBuffer_eq. unfold isSending, BufferManager.isSending, stopSending.
  frame. rewrite sendingTimeouts_stopSending, lookup_delete_eq.
  apply bool_decide_eq_false_2. by intros [? ?].
Qed.

Lemma inflight_triggerUpdateBuffer u w :
  inflight (triggerUpdateBuffer u w) !! nextCall w =
  Some (CallUpdateBuffer u (history (sessionOf u w))
          (drop (currentIndex (buffer (sessionOf u w))) (blocks (buffer (sessionOf u w))))).
Proof.
  rewrite triggerUpdateBuffer_eq. unfold stopSending. simpl. frame.
  apply lookup_insert_eq.
Qed.

(** Once the call to the model is pending, nothing of the user is
    scheduled any more. *)
Lemma triggerUpdateBuffer_nothing_scheduled u w :
  Inv w ->
  forall i t, pending (triggerUpdateBuffer u w) !! i = Some t ->
    ~ isChainOf u t /\ forall n, ~ isTimerOf u n t.
Proof.
  intros HI i [t d] Hi.
  pose proof (Inv_triggerUpdateBuffer u w HI) as HI1.
  split.
  - intros (s & g & b & Ht). simpl in Ht. subst t.
    destruct (inv_pacer _ HI1 _ _ _ _ _ _ Hi) as [Hs _].
    pose proof (isSending_triggerUpdateBuffer u w) as Hno.
    unfold isSending, BufferManager.isSending in Hno. rewrite Hs in Hno.
    apply bool_decide_eq_false in Hno. apply Hno. by eexists.
  - intros n (r & cb & Ht & Hu). simpl in Ht. subst t.
    destruct (inv_timer _ HI1 _ _ _ _ _ Hi) as (Hreg & Hent & Hty).
    rewrite Hu in Hreg.
    pose proof (isTimerActive_triggerUpdateBuffer u n w) as Hno.
    rewrite (isTimerActive_registered _ _ _ _ Hreg), Hent in Hno.
    rewrite Hty, callbackType_own in Hno. discriminate Hno.
Qed.

Lemma buffer_handleBufferComplete u u' w :
  buffer (sessionOf u' (_handleBufferComplete u w)) = buffer (sessionOf u' w).
Proof.
  unfold _handleBufferComplete, getSocket. readers. frame.
  destruct (userSockets w !! u) as [s|]; frame;
    destruct (needsUpdate _); unfold_tm; frame; try done;
    destruct (userMessagedSinceLastEndUpdate _); unfold_tm; frame; try done;
    by case_decide.
Qed.

(** The pacer never changes the list of blocks of a buffer. *)
Lemma blocks_sendNextBlock u u' s g bc w :
  blocks (buffer (sessionOf u' (_sendNextBlock u s g bc w))) = blocks (buffer (sessionOf u' w)).
Proof.
  unfold _sendNextBlock, BufferManager._sendNextBlock, BufferManager.socketGone.
  destruct s as [s|]; [|by frame].
  destruct (isConnected s w); cbn [negb]; [|by frame].
  readers. destruct (isPaused _); [by frame|]. frame.
  destruct (needsUpdate _ && negb _); [by frame|].
  case_bool_decide; cbv beta iota zeta.
  - destruct bc as [[]|]; cbn [invokeBufferComplete];
      rewrite ?buffer_handleBufferComplete; frame; by case_decide.
  - rewrite !touch_touch. destruct (blocks _ !! _) as [b|] eqn:Hb.
    + rewrite sendBlock_eq; cbv zeta. frame.
      case_bool_decide; [destruct g as [[]|]|]; cbn [invokeGroupComplete];
        rewrite ?buffer_handleGroupComplete, ?sessionOf_afterEmission;
        unfold afterEmission; frame;
        (case_decide; [|done]); cbn [withBuffer withHistory buffer history];
        apply advanceBuffer_spec.
    + destruct bc as [[]|]; cbn [invokeBufferComplete];
        rewrite ?buffer_handleBufferComplete; by frame.
Qed.

Lemma blocks_startSendingBuffer u u' s g bc w :
  blocks (buffer (sessionOf u' (startSendingBuffer u s g bc w)))
  = blocks (buffer (sessionOf u' w)).
Proof.
  unfold startSendingBuffer, BufferManager.startSendingBuffer.
  destruct (socketDead s w); [by frame|].
  fold (_sendNextBlock u s g bc). rewrite blocks_sendNextBlock.
  destruct s; frame; by case_decide.
Qed.

(** C2 (amended).  triggerUpdateBuffer cancels every timer of the user and
    stops the pacer before it calls the model.  When the answer arrives the
    buffer is installed at once, whatever the state of the socket; the
    socket is looked at only afterwards, to start the pacer: with no socket
    registered, or a disconnected one, nothing is sent and nothing is
    scheduled, and the new buffer stays in the session. *)
Theorem regenerate_installs_then_checks :
  (forall u w,
     let w1 := triggerUpdateBuffer u w in
     inflight w1 !! nextCall w =
       Some (CallUpdateBuffer u (history (sessionOf u w))
               (drop (currentIndex (buffer (sessionOf u w)))
                  (blocks (buffer (sessionOf u w))))) /\
     isSending u w1 = false /\
     (forall n, (TimerManager.isTimerActive u n w1).1 = TimerManager.inherited n) /\
     (reachable w -> forall i t, pending w1 !! i = Some t ->
        ~ isChainOf u t /\ forall n, ~ isTimerOf u n t)) /\
  (forall u newBlocks w,
     let w' := updateBufferResolved u newBlocks w in
     blocks (buffer (sessionOf u w')) = newBlocks /\
     exists w0,
       buffer (sessionOf u w0) = installed newBlocks /\
       is_Some (sessions w0 !! u) /\
       committed u w0 = false /\
       out w0 = out w /\ pending w0 = pending w /\
       sendingTimeouts w0 = sendingTimeouts w /\
       w' = match getSocket u w with
            | Some socket =>
                startSendingBuffer u (Some socket) (Some OnGroupComplete)
                  (Some OnBufferComplete) w0
            | None => log LogNoSocket w0
            end) /\
  (forall u newBlocks w,
     socketDead (getSocket u w) w = true ->
     let w' := updateBufferResolved u newBlocks w in
     buffer (sessionOf u w') = installed newBlocks /\
     is_Some (sessions w' !! u) /\
     out w' = out w /\ pending w' = pending w /\
     sendingTimeouts w' = sendingTimeouts w).
Proof.
  assert (forall u bs w,
    let w0 := setWaitingForGroup u false (setUpdateCheckNeeded u false (setBuffer u bs w)) in
    buffer (sessionOf u w0) = installed bs /\
    is_Some (sessions w0 !! u) /\
    committed u w0 = false /\
    out w0 = out w /\ pending w0 = pending w /\
    sendingTimeouts w0 = sendingTimeouts w /\
    getSocket u w0 = getSocket u w /\
    (forall s, socketDead s w0 = socketDead s w)) as Hinstall.
  { intros u bs w w0. split_and!.
    - unfold w0. frame. by rewrite !decide_True by done.
    - unfold w0, setWaitingForGroup. rewrite mutate_eq.
      cbn [sessions set_sessions]. rewrite lookup_insert_eq. by eexists.
    - unfold w0, committed. frame. by rewrite !decide_True by done.
    - unfold w0. by frame.
    - unfold w0. by frame.
    - unfold w0. by frame.
    - unfold getSocket, w0. by frame.
    - intros [s|]; [|done]. unfold socketDead, isConnected, w0. by frame. }
  split_and!.
  - intros u w w1. split_and!.
    + apply inflight_triggerUpdateBuffer.
    + apply isSending_triggerUpdateBuffer.
    + intros n. apply isTimerActive_triggerUpdateBuffer.
    + intros Hr. apply triggerUpdateBuffer_nothing_scheduled. by apply Inv_reachable.
  - intros u bs w.
    destruct (Hinstall u bs w) as (Hb & Hs & Hc & Ho & Hp & Hst & Hg & Hd).
    cbv zeta. unfold updateBufferResolved. rewrite Hg. split.
    + destruct (getSocket u w) as [s|].
      * rewrite blocks_startSendingBuffer. by rewrite Hb.
      * change (sessionOf u (log LogNoSocket ?X)) with (sessionOf u X). by rewrite Hb.
    + eexists. split_and!; [exact Hb | exact Hs | exact Hc | exact Ho | exact Hp
                            | exact Hst | reflexivity].
  - intros u bs w Hdead.
    destruct (Hinstall u bs w) as (Hb & Hs & Hc & Ho & Hp & Hst & Hg & Hd).
    cbv zeta. unfold updateBufferResolved. rewrite Hg.
    destruct (getSocket u w) as [s|] eqn:Hsock; [|done].
    unfold startSendingBuffer, BufferManager.startSendingBuffer.
    by rewrite Hd, Hdead.
Qed.

(** The answer is installed after the client has disconnected, and also
    while the client is connected. *)
Lemma regenerate_installs_then_checks_witness :
  blocks (buffer (sessionOf "s" (updateBufferResolved "s" [blockA] goneBeforeAnswer)))
  = [blockA] /\
  blocks (buffer (sessionOf "s" (updateBufferResolved "s" [blockA; blockC] awaitingAnswer)))
  = [blockA; blockC].
Proof.
  split.
  - refine (f_equal blocks (proj1 (proj2 (proj2 regenerate_installs_then_checks) "s" [blockA]
                                     goneBeforeAnswer _))).
    vm_compute; reflexivity.
  - exact (proj1 (proj1 (proj2 regenerate_installs_then_checks) "s" [blockA; blockC] awaitingAnswer)).
Defined.

(** C2 as claimed fails: the buffer that arrives after the disconnect is
    installed, in a session created anew. *)
Lemma regenerate_installs_then_checks_counterexample : ~ DropsBufferWhenNotLive.
Proof.
  intros H.
  specialize (H goneBeforeAnswer 0 "s"
                [mkEntry User "hi" 0] [] [blockA]
                (exec [EConnection "s"; EUserMessage "s" "hi"; EDisconnect "s";
                       EUpdateBufferSettled 0 (inr [blockA])])).
  assert (sessions (exec [EConnection "s"; EUserMessage "s" "hi"; EDisconnect "s";
                          EUpdateBufferSettled 0 (inr [blockA])]) !! "s"
          = sessions goneBeforeAnswer !! "s") as Hs.
  { f_equal. apply H; vm_compute; reflexivity. }
  vm_compute in Hs. discriminate Hs.
Qed.

Lemma updateBufferRejected_eq u message w :
  updateBufferRejected u message w =
  match userSockets w !! u with
  | Some s => emit s (ErrorEvent "Failed to generate response" (Some message))
                (log (LogUpdateBufferError message) w)
  | None => log (LogUpdateBufferError message) w
  end.
Proof. reflexivity. Qed.

(** C3 (amended).  When the call to the model fails, the catch block emits
    one error event on the socket registered for the user (none when no
    socket is registered) and changes nothing else: the sessions, the
    buffer with its isComplete flag included, are as they were, and so are
    the timers and the pacer.  Since the pacer was stopped before the call,
    the next user message the server receives while the pacer is not
    sending calls the model for a new buffer again. *)
Theorem regenerate_failure u message w :
  let w' := updateBufferRejected u message w in
  sessions w' = sessions w /\
  pending w' = pending w /\ sendingTimeouts w' = sendingTimeouts w /\
  timers w' = timers w /\ timerObjects w' = timerObjects w /\
  out w' = out w ++
    match userSockets w !! u with
    | Some s => [(s, ErrorEvent "Failed to generate response" (Some message))]
    | None => []
    end /\
  isSending u (triggerUpdateBuffer u w) = false /\
  (forall m s, isSending u w' = false ->
     exists h p,
       inflight (handleUserMessage u m s w') !! nextCall w' =
       Some (CallUpdateBuffer u h p)).
Proof.
  cbv zeta.
  assert (forall m s W, isSending u W = false ->
            exists h p, inflight (handleUserMessage u m s W) !! nextCall W =
                        Some (CallUpdateBuffer u h p)) as Hagain.
  { intros m s W Hs. unfold handleUserMessage. readers.
    match goal with
    | |- context [isSending u ?X] => assert (isSending u X = false) as ->
    end.
    { unfold isSending, BufferManager.isSending in *. unfold_tm. frame. apply Hs. }
    cbn [andb]. do 2 eexists.
    match goal with
    | |- inflight (triggerUpdateBuffer u ?X) !! _ = _ =>
        assert (nextCall W = nextCall X) as -> by (unfold_tm; by frame)
    end.
    apply inflight_triggerUpdateBuffer. }
  rewrite updateBufferRejected_eq.
  split_and!.
  - by destruct (userSockets w !! u).
  - by destruct (userSockets w !! u).
  - by destruct (userSockets w !! u).
  - by destruct (userSockets w !! u).
  - by destruct (userSockets w !! u).
  - destruct (userSockets w !! u); cbn [out emit set_out log set_console];
      [done | by rewrite app_nil_r].
  - apply isSending_triggerUpdateBuffer.
  - intros m s. apply Hagain.
Qed.

Lemma regenerate_failure_witness :
  exists h p,
    inflight (handleUserMessage "s" "again" "s"
                (updateBufferRejected "s" "boom" awaitingAnswer))
      !! nextCall (updateBufferRejected "s" "boom" awaitingAnswer)
    = Some (CallUpdateBuffer "s" h p).
Proof.
  refine (proj2 (proj2 (proj2 (proj2 (proj2 (proj2 (proj2
    (regenerate_failure "s" "boom" awaitingAnswer))))))) "again" "s" _).
  vm_compute; reflexivity.
Defined.

(** C3 as claimed fails: after a failed first generation the buffer is not
    marked complete. *)
Lemma regenerate_failure_counterexample : ~ FailureMarksComplete.
Proof.
  intros H.
  specialize (H awaitingAnswer 0 "s" [mkEntry User "hi" 0] [] "boom"
                (exec [EConnection "s"; EUserMessage "s" "hi";
                       EUpdateBufferSettled 0 (inl "boom")])).
  assert (isComplete (buffer (sessionOf "s"
            (exec [EConnection "s"; EUserMessage "s" "hi";
                   EUpdateBufferSettled 0 (inl "boom")]))) = true) as Hc.
  { apply H; vm_compute; reflexivity. }
  vm_compute in Hc. discriminate Hc.
Qed.

End RegenerationClaims.

Section InterruptClaims.
Import UserSessionManager StateOrchestrator.

(** C1 (amended).  While an interrupt is committed for a user
    (needsUpdate && !waitingForGroup), the emission step of the user reads
    no block: it emits nothing, calls no callback, schedules nothing and
    leaves the session as it is.  The interrupt stays committed, the buffer
    and its cursor stay as they are and no block is sent to the user,
    through every event except the answer to a further relevance check of
    the user (asked when the user sends another message while the pacer is
    still scheduled), a new buffer for the user, and the end of the user's
    session. *)
Theorem committed_interrupt w u :
  reachable w -> committed u w = true ->
  (forall s g bc,
     let w' := _sendNextBlock u s g bc w in
     out w' = out w /\
     sessionOf u w' = sessionOf u w /\
     console w' = console w ++
       (if socketDead s w then [LogSocketDisconnected u]
        else if isPaused (buffer (sessionOf u w)) then []
        else [LogStoppingSend]) /\
     Evolves (fun _ => False) w w') /\
  (forall es w',
     undisturbed u es w = true -> run es w = Some w' ->
     committed u w' = true /\ watch u w' = watch u w).
Proof.
  intros HI%Inv_reachable Hc. split.
  - intros s g bc. cbv zeta. unfold _sendNextBlock.
    rewrite sendNextBlock_committed by done. unfold BufferManager.socketGone.
    destruct (socketDead s w); [|destruct (isPaused _)]; split_and!; frame;
      rewrite ?app_nil_r; try done; evolves.
  - intros es w' Hu Hr.
    pose proof (watch_run u es w w' HI Hc Hu Hr) as Hw.
    split; [|done]. by rewrite (committed_watch _ _ _ Hw).
Qed.

Lemma interruptCommitted_reachable : reachable interruptCommitted.
Proof.
  exists [EConnection "s"; EUserMessage "s" "hi";
          EUpdateBufferSettled 0 (inr [blockA; blockB; blockC]);
          EUserMessage "s" "wait"; EUpdateCheckSettled 1 true; ETimeout 0].
  vm_compute; reflexivity.
Defined.

Lemma interruptCommitted_committed : committed "s" interruptCommitted = true.
Proof. vm_compute; reflexivity. Defined.

Lemma committed_interrupt_witness :
  committed "s" pacerWakes = true /\
  watch "s" pacerWakes = watch "s" interruptCommitted.
Proof.
  apply (proj2 (committed_interrupt interruptCommitted "s"
                  interruptCommitted_reachable interruptCommitted_committed)
           [ETimeout 1; ETimeout 2] pacerWakes).
  - vm_compute; reflexivity.
  - vm_compute; reflexivity.
Defined.

(** C1 as claimed fails: a further message of the user, whose relevance
    check answers no, clears needsUpdate, and the pacer sends the next
    block of the old buffer. *)
Lemma committed_interrupt_counterexample : ~ NoStaleEmission.
Proof.
  intros H.
  assert (aiBlocksTo "s" (out staleBlockSent) = aiBlocksTo "s" (out interruptCommitted))
    as Hout.
  { apply (H interruptCommitted interruptCommitted_reachable "s"
             interruptCommitted_committed secondThoughts staleBlockSent).
    - vm_compute; reflexivity.
    - intros e He. unfold secondThoughts in He.
      repeat (apply elem_of_cons in He as [-> | He]; [reflexivity|]).
      by apply elem_of_nil in He. }
  vm_compute in Hout. discriminate Hout.
Qed.

End InterruptClaims.
(** * Further properties of the session, timer and buffer managers *)

(** ** The cursor of the buffer stays within the blocks *)

Section CursorFacts.
Import UserSessionManager StateOrchestrator.

Lemma wellFormed_cursor b b' : cursorOf b' = cursorOf b -> wellFormed b -> wellFormed b'.
Proof.
  unfold cursorOf, wellFormed. intros [= Hb Hi Hg]. by rewrite Hb, Hi, Hg.
Qed.

Lemma wellFormed_fresh : wellFormed (buffer freshSession).
Proof. split; cbn; [lia | done]. Qed.

Lemma wellFormed_installed bs : wellFormed (installed bs).
Proof. split; cbn; [lia | by destruct bs]. Qed.

Lemma wellFormed_advance b blk :
  blocks b !! currentIndex b = Some blk -> wellFormed (advanceBuffer b).
Proof.
  intros Hb. destruct (advanceBuffer_spec b) as (Hbs & Hi & Hg).
  unfold wellFormed. rewrite Hbs, Hi, Hg.
  split; [|done]. apply lookup_lt_Some in Hb. lia.
Qed.

Lemma groupComplete_wellFormed b :
  wellFormed b -> groupComplete b = isComplete b || exhausted b.
Proof.
  intros [Hi Hg]. unfold groupComplete, exhausted.
  destruct (isComplete b); [done|]. case_bool_decide as Hlen; [done|].
  cbn [orb]. apply negb_false_iff.
  destruct (blocks b !! currentIndex b) as [blk|] eqn:Hb;
    [|apply lookup_ge_None in Hb; lia].
  rewrite (drop_S _ _ _ Hb). cbn [existsb].
  rewrite Hg. cbn [fmap option_fmap option_map]. by rewrite bool_decide_eq_true_2.
Qed.

End CursorFacts.

Ltac wf_close :=
  repeat case_decide; subst; try done;
  cbn [withBuffer withHistory withTyping withUpdateCheck withEndUpdate buffer];
  first [ done
        | by apply wellFormed_installed
        | by apply wellFormed_fresh
        | (eapply wellFormed_cursor; [|eassumption]; reflexivity) ].

Section CursorInvariant.
Import UserSessionManager StateOrchestrator.

Lemma wf_sendNextBlock u u' s g bc w :
  wellFormed (buffer (sessionOf u' w)) ->
  wellFormed (buffer (sessionOf u' (_sendNextBlock u s g bc w))).
Proof.
  intros Hwf.
  unfold _sendNextBlock, BufferManager._sendNextBlock, BufferManager.socketGone.
  destruct s as [s|]; [|by frame].
  destruct (isConnected s w); cbn [negb]; [|by frame].
  readers. destruct (isPaused _); [by frame|]. frame.
  destruct (needsUpdate _ && negb _); [by frame|].
  case_bool_decide; cbv beta iota zeta.
  - destruct bc as [[]|]; cbn [invokeBufferComplete];
      rewrite ?buffer_handleBufferComplete; frame; wf_close.
  - rewrite !touch_touch. destruct (blocks _ !! _) as [b|] eqn:Hb.
    + rewrite sendBlock_eq; cbv zeta. frame.
      case_bool_decide; [destruct g as [[]|]|]; cbn [invokeGroupComplete];
        rewrite ?buffer_handleGroupComplete, ?sessionOf_afterEmission;
        unfold afterEmission; frame;
        (case_decide; [|done]); subst;
        cbn [withBuffer withHistory buffer history];
        by apply (wellFormed_advance _ b).
    + destruct bc as [[]|]; cbn [invokeBufferComplete];
        rewrite ?buffer_handleBufferComplete; by frame.
Qed.

Lemma wf_startSendingBuffer u u' s g bc w :
  wellFormed (buffer (sessionOf u' w)) ->
  wellFormed (buffer (sessionOf u' (startSendingBuffer u s g bc w))).
Proof.
  intros Hwf. unfold startSendingBuffer, BufferManager.startSendingBuffer.
  destruct (socketDead s w); [by frame|].
  fold (_sendNextBlock u s g bc). apply wf_sendNextBlock.
  destruct s; frame; wf_close.
Qed.

Lemma wf_updateBufferResolved u u' bs w :
  wellFormed (buffer (sessionOf u' w)) ->
  wellFormed (buffer (sessionOf u' (updateBufferResolved u bs w))).
Proof.
  intros Hwf. unfold updateBufferResolved, getSocket. frame.
  destruct (userSockets w !! u) as [s|].
  - apply wf_startSendingBuffer. frame. wf_close.
  - frame. wf_close.
Qed.

Lemma buffer_triggerUpdateBuffer u u' w :
  buffer (sessionOf u' (triggerUpdateBuffer u w)) = buffer (sessionOf u' w).
Proof. rewrite triggerUpdateBuffer_eq. unfold stopSending. by frame. Qed.

Lemma buffer_triggerUpdateCheck u u' w :
  buffer (sessionOf u' (triggerUpdateCheck u w)) = buffer (sessionOf u' w).
Proof. rewrite triggerUpdateCheck_eq. by frame. Qed.

Lemma buffer_updateBufferRejected u u' m w :
  buffer (sessionOf u' (updateBufferRejected u m w)) = buffer (sessionOf u' w).
Proof.
  unfold updateBufferRejected, getSocket. cbn [userSockets log set_console].
  destruct (userSockets w !! u); by frame.
Qed.

Lemma buffer_updateCheckSettled u u' needed w :
  buffer (sessionOf u' (updateCheckSettled u needed w)) = buffer (sessionOf u' w).
Proof.
  unfold updateCheckSettled. destruct needed; [|frame; repeat case_decide; done]. readers.
  destruct (groupComplete _); unfold stopSending; unfold_tm; frame; repeat case_decide; done.
Qed.

Lemma buffer_handleUserMessage u u' m s w :
  buffer (sessionOf u' (handleUserMessage u m s w)) = buffer (sessionOf u' w).
Proof.
  unfold handleUserMessage. readers.
  destruct (isSending _ _ && negb _);
    rewrite ?buffer_triggerUpdateCheck, ?buffer_triggerUpdateBuffer;
    unfold_tm; frame; repeat case_decide; done.
Qed.

Lemma buffer_handleTypingStatus u u' b s w :
  buffer (sessionOf u' (handleTypingStatus u b s w)) = buffer (sessionOf u' w).
Proof.
  unfold handleTypingStatus. destruct b; readers.
  - destruct (timerActive _); unfold_tm; frame; repeat case_decide; done.
  - destruct (shouldUseIdleTimer _); unfold_tm; frame; repeat case_decide; done.
Qed.

Lemma buffer_invokeTimerCallback u' cb w :
  buffer (sessionOf u' (invokeTimerCallback cb w)) = buffer (sessionOf u' w).
Proof.
  destruct cb as [u|u|u|u|u]; cbn [invokeTimerCallback];
    rewrite ?buffer_triggerUpdateBuffer; try (frame; repeat case_decide; done).
  readers. destruct (isTyping _); unfold_tm; frame; repeat case_decide; done.
Qed.

Lemma wf_stopAIResponse u u' s w :
  wellFormed (buffer (sessionOf u' w)) ->
  wellFormed (buffer (sessionOf u' (stopAIResponse u s w))).
Proof.
  intros Hwf. unfold stopAIResponse, stopSending. destruct s; frame; wf_close.
Qed.

Lemma wf_cleanup u u' w :
  wellFormed (buffer (sessionOf u' w)) ->
  wellFormed (buffer (sessionOf u' (StateOrchestrator.cleanup u w))).
Proof.
  intros Hwf. unfold StateOrchestrator.cleanup, BufferManager.cleanup, clearSession.
  unfold sessionOf at 1. cbn [sessions set_userSockets set_sessions].
  destruct (decide (u = u')) as [-> | Hne].
  - rewrite lookup_delete_eq. apply wellFormed_fresh.
  - rewrite lookup_delete_ne by done. fold (sessionOf u' (stopSending u (TimerManager.cleanup u w))).
    unfold stopSending. by frame.
Qed.

Lemma wf_step e w w' :
  (forall u, wellFormed (buffer (sessionOf u w))) ->
  step e w = Some w' ->
  forall u, wellFormed (buffer (sessionOf u w')).
Proof.
  intros Hwf Hs u. specialize (Hwf u). revert Hs.
  destruct e as [s|s m|s b|s|s|s|id|k res|k needed|t]; unfold step.
  - destruct (connected w !! s); [done|]. intros <-%(inj Some). by frame.
  - destruct (isConnected s w); [|done]. intros <-%(inj Some).
    rewrite buffer_handleUserMessage. by frame.
  - destruct (isConnected s w); [|done]. intros <-%(inj Some).
    by rewrite buffer_handleTypingStatus.
  - destruct (isConnected s w); [|done]. intros <-%(inj Some).
    by apply wf_stopAIResponse.
  - destruct (isConnected s w); [|done]. intros <-%(inj Some).
    by apply wf_cleanup, wf_stopAIResponse.
  - destruct (isConnected s w); [|done]. intros <-%(inj Some).
    apply wf_cleanup. by frame.
  - destruct (pending w !! id) as [[tk ms]|] eqn:Hid; [|done]. intros <-%(inj Some).
    destruct tk as [r n cb | u' s g bc]; unfold task, runTask.
    + rewrite buffer_invokeTimerCallback. by frame.
    + apply wf_sendNextBlock. by frame.
  - destruct (inflight w !! k) as [[u' h p | u' h bs i]|]; try done.
    destruct res as [m | bs]; intros <-%(inj Some).
    + rewrite buffer_updateBufferRejected. by frame.
    + apply wf_updateBufferResolved. by frame.
  - destruct (inflight w !! k) as [[u' h p | u' h bs i]|]; try done.
    intros <-%(inj Some). rewrite buffer_updateCheckSettled. by frame.
  - intros <-%(inj Some). by frame.
Qed.

Lemma wf_run es : forall w w',
  (forall u, wellFormed (buffer (sessionOf u w))) ->
  run es w = Some w' ->
  forall u, wellFormed (buffer (sessionOf u w')).
Proof.
  induction es as [|e es IH]; intros w w' Hwf; cbn [run].
  - by intros <-%(inj Some).
  - destruct (step e w) as [w1|] eqn:Hs; [|done]. intros Hr.
    eapply IH; [|exact Hr]. by eapply wf_step.
Qed.

Lemma wf_reachable w u : reachable w -> wellFormed (buffer (sessionOf u w)).
Proof.
  intros [es Hr]. eapply wf_run; [|exact Hr]. intros u'. apply wellFormed_fresh.
Qed.

End CursorInvariant.

Section CursorProperties.
Import UserSessionManager StateOrchestrator.

Lemma firstBlockSent_reachable : reachable firstBlockSent.
Proof.
  exists [EConnection "s"; EUserMessage "s" "hi";
          EUpdateBufferSettled 0 (inr [blockA; blockB; blockC])].
  vm_compute; reflexivity.
Defined.

(** X1.  In every state the server can reach, the cursor of the buffer of
    every session is within the blocks or just past them, and currentGroup
    is the group of the block under the cursor, null past the end. *)
Theorem buffer_cursor_in_range w u s :
  reachable w -> sessions w !! u = Some s ->
  currentIndex (buffer s) <= length (blocks (buffer s)) /\
  currentGroup (buffer s) = group <$> blocks (buffer s) !! currentIndex (buffer s).
Proof.
  intros Hr Hs. pose proof (wf_reachable w u Hr) as Hwf.
  unfold sessionOf in Hwf. rewrite Hs in Hwf. exact Hwf.
Qed.

(** After the first of three blocks has been sent the cursor is at 1, on
    the second block of group 1. *)
Lemma buffer_cursor_in_range_witness :
  currentIndex (buffer (sessionOf "s" firstBlockSent)) <= 3 /\
  currentGroup (buffer (sessionOf "s" firstBlockSent)) = Some 1%Z.
Proof.
  assert (sessions firstBlockSent !! "s" = Some (sessionOf "s" firstBlockSent)) as Hs
    by (vm_compute; reflexivity).
  destruct (buffer_cursor_in_range firstBlockSent "s" _ firstBlockSent_reachable Hs)
    as [Hi Hg].
  split; [exact Hi | rewrite Hg; vm_compute; reflexivity].
Defined.

(** X2.  In a reachable state isCurrentGroupComplete answers true only
    when the buffer is marked complete or every block has been sent:
    currentGroup is the group of the block under the cursor, so the loop
    finds a block of the current group at its first iteration. *)
Theorem group_complete_only_at_end w u :
  reachable w ->
  (isCurrentGroupComplete u w).1 =
  isComplete (buffer (sessionOf u w)) ||
  bool_decide (length (blocks (buffer (sessionOf u w))) <= currentIndex (buffer (sessionOf u w))).
Proof.
  intros Hr. rewrite isCurrentGroupComplete_eq. cbn [fst].
  apply groupComplete_wellFormed. by apply wf_reachable.
Qed.

Lemma group_complete_only_at_end_witness :
  (isCurrentGroupComplete "s" firstBlockSent).1 = false.
Proof.
  rewrite (group_complete_only_at_end firstBlockSent "s" firstBlockSent_reachable).
  vm_compute; reflexivity.
Defined.

(** X3.  While the buffer of a reachable state is neither marked complete
    nor exhausted, a YES of the relevance check never stops the pacer at
    once: the server records needsUpdate and waitingForGroup, and leaves
    the scheduled timeouts, the pacer, the timers and the emissions as
    they were. *)
Theorem updateCheck_yes_waits_for_group w u :
  reachable w ->
  isComplete (buffer (sessionOf u w)) = false ->
  currentIndex (buffer (sessionOf u w)) < length (blocks (buffer (sessionOf u w))) ->
  let w' := updateCheckSettled u true w in
  updateCheck (sessionOf u w') = mkUpdateCheck true true (Some (now w)) /\
  buffer (sessionOf u w') = buffer (sessionOf u w) /\
  pending w' = pending w /\
  sendingTimeouts w' = sendingTimeouts w /\
  timers w' = timers w /\ timerObjects w' = timerObjects w /\
  out w' = out w.
Proof.
  intros Hr Hc Hi. cbv zeta.
  assert (groupComplete (buffer (sessionOf u (setUpdateCheckNeeded u true w))) = false) as Hg.
  { frame. rewrite decide_True by done. cbn [withUpdateCheck buffer].
    rewrite groupComplete_wellFormed by (by apply wf_reachable).
    unfold exhausted. rewrite Hc. cbn [orb]. apply bool_decide_eq_false_2. lia. }
  unfold updateCheckSettled. rewrite isCurrentGroupComplete_eq. cbv beta iota zeta.
  rewrite Hg. split_and!; frame; by rewrite ?decide_True by done.
Qed.

Lemma updateCheck_yes_waits_for_group_witness :
  pending (updateCheckSettled "s" true firstBlockSent) = pending firstBlockSent /\
  waitingForGroup (updateCheck (sessionOf "s" (updateCheckSettled "s" true firstBlockSent)))
  = true.
Proof.
  assert (isComplete (buffer (sessionOf "s" firstBlockSent)) = false) as Hc
    by (vm_compute; reflexivity).
  assert (currentIndex (buffer (sessionOf "s" firstBlockSent))
          < length (blocks (buffer (sessionOf "s" firstBlockSent)))) as Hi
    by (vm_compute; lia).
  destruct (updateCheck_yes_waits_for_group firstBlockSent "s"
              firstBlockSent_reachable Hc Hi) as (Hu & _ & Hp & _).
  split; [exact Hp | by rewrite Hu].
Defined.

End CursorProperties.

(** ** The history a call to the model receives *)

Section HistoryProperties.
Import UserSessionManager StateOrchestrator.

Lemma lastN_suffix {A} n (l : list A) : lastN n l `suffix_of` l.
Proof. unfold lastN. apply suffix_drop. Qed.

Lemma lastN_length {A} n (l : list A) : length (lastN n l) = Nat.min n (length l).
Proof. unfold lastN. rewrite length_drop. lia. Qed.

(** X4.  getHistory with a limit returns the last entries of the history,
    as many as the limit says, or all when there are fewer.  Without a
    limit, and with the limit 0, it returns the whole history. *)
Theorem getHistory_limit u limit w :
  let whole := history (sessionOf u w) in
  let h := (getHistory u limit w).1 in
  h `suffix_of` whole /\
  length h = match limit with
             | Some (S n) => Nat.min (S n) (length whole)
             | _ => length whole
             end /\
  (forall u', sessionOf u' (getHistory u limit w).2 = sessionOf u' w).
Proof.
  cbv zeta. rewrite getHistory_eq. cbn [fst snd]. split_and!.
  - destruct limit as [[|n]|]; [done | apply lastN_suffix | done].
  - destruct limit as [[|n]|]; [done | apply lastN_length | done].
  - intros u'. apply sessionOf_touch.
Qed.

(** X5.  triggerUpdateCheck calls the model with the last 20 entries of
    the history (all of them when there are fewer), the whole buffer and
    the cursor; it registers this one call and changes nothing else. *)
Theorem updateCheck_call_arguments u w :
  let b := buffer (sessionOf u w) in
  let w' := triggerUpdateCheck u w in
  exists recent,
    inflight w' !! nextCall w =
      Some (CallUpdateCheck u recent (blocks b) (currentIndex b)) /\
    recent `suffix_of` history (sessionOf u w) /\
    length recent = Nat.min 20 (length (history (sessionOf u w))) /\
    (forall k, k <> nextCall w -> inflight w' !! k = inflight w !! k) /\
    (forall u', sessionOf u' w' = sessionOf u' w) /\
    out w' = out w /\ pending w' = pending w /\
    sendingTimeouts w' = sendingTimeouts w.
Proof.
  cbv zeta. rewrite triggerUpdateCheck_eq.
  exists (lastN 20 (history (sessionOf u w))). split_and!.
  - unfold callLLM. cbn [inflight set_nextCall set_inflight nextCall touch set_sessions].
    apply lookup_insert_eq.
  - apply lastN_suffix.
  - apply lastN_length.
  - intros k Hk. unfold callLLM.
    cbn [inflight set_nextCall set_inflight nextCall].
    by rewrite lookup_insert_ne.
  - intros u'. by frame.
  - done.
  - done.
  - done.
Qed.

Lemma updateCheck_call_arguments_witness :
  inflight (triggerUpdateCheck "s" firstBlockSent) !! 5 = inflight firstBlockSent !! 5.
Proof.
  destruct (updateCheck_call_arguments "s" firstBlockSent)
    as (recent & _ & _ & _ & Hk & _).
  apply Hk. vm_compute. lia.
Defined.

End HistoryProperties.

(** ** A user message *)

Section MessageProperties.
Import UserSessionManager StateOrchestrator.

Lemma handleUserMessage_eq u m s w :
  handleUserMessage u m s w =
  let w0 := messageRecorded u m s w in
  if isSending u (touch u w0) && negb (isComplete (buffer (sessionOf u w0)))
  then triggerUpdateCheck u (touch u w0)
  else triggerUpdateBuffer u (touch u w0).
Proof.
  unfold handleUserMessage, messageRecorded. cbv zeta.
  rewrite isBufferComplete_eq. cbv beta iota zeta. reflexivity.
Qed.

Lemma sessionOf_messageRecorded u m s w :
  sessionOf u (messageRecorded u m s w) =
  mkSession (history (sessionOf u w) ++ [mkEntry User m (now w)])
    (buffer (sessionOf u w))
    (mkTyping false None false)
    (updateCheck (sessionOf u w))
    (mkEndUpdate false None true).
Proof.
  unfold messageRecorded, registerSocket. unfold_tm. frame.
  by rewrite !decide_True by done.
Qed.

Lemma frame_messageRecorded u m s w :
  sendingTimeouts (messageRecorded u m s w) = sendingTimeouts w /\
  userSockets (messageRecorded u m s w) = <[u := s]> (userSockets w) /\
  nextCall (messageRecorded u m s w) = nextCall w /\
  inflight (messageRecorded u m s w) = inflight w /\
  out (messageRecorded u m s w) = out w.
Proof.
  unfold messageRecorded, registerSocket. unfold_tm. split_and!; by frame.
Qed.

Lemma frame_triggerUpdateCheck u w :
  let w' := triggerUpdateCheck u w in
  sessionOf u w' = sessionOf u w /\
  userSockets w' = userSockets w /\
  nextCall w' = S (nextCall w) /\
  sendingTimeouts w' = sendingTimeouts w /\
  inflight w' !! nextCall w =
    Some (CallUpdateCheck u (lastN 20 (history (sessionOf u w)))
            (blocks (buffer (sessionOf u w))) (currentIndex (buffer (sessionOf u w)))).
Proof.
  cbv zeta. rewrite triggerUpdateCheck_eq. unfold callLLM.
  split_and!; frame; try done. apply lookup_insert_eq.
Qed.

Lemma frame_triggerUpdateBuffer u w :
  let w' := triggerUpdateBuffer u w in
  sessionOf u w' = sessionOf u w /\
  userSockets w' = userSockets w /\
  nextCall w' = S (nextCall w) /\
  isSending u w' = false /\
  inflight w' !! nextCall w =
    Some (CallUpdateBuffer u (history (sessionOf u w))
            (drop (currentIndex (buffer (sessionOf u w))) (blocks (buffer (sessionOf u w))))).
Proof.
  cbv zeta. split_and!.
  - rewrite triggerUpdateBuffer_eq. unfold callLLM, stopSending. by frame.
  - rewrite triggerUpdateBuffer_eq. unfold callLLM, stopSending. by frame.
  - rewrite triggerUpdateBuffer_eq. unfold callLLM, stopSending. by frame.
  - rewrite triggerUpdateBuffer_eq. unfold callLLM, isSending, BufferManager.isSending.
    frame. apply bool_decide_eq_false_2. unfold stopSending.
    rewrite sendingTimeouts_stopSending, lookup_delete_eq. by intros [? ?].
  - rewrite triggerUpdateBuffer_eq. unfold callLLM, stopSending. frame.
    apply lookup_insert_eq.
Qed.

(** X6.  handleUserMessage records the message in the history, sets the
    userMessagedSinceLastEndUpdate flag, clears the typing state, and then
    calls the model exactly once: the relevance check when the pacer is
    sending and the buffer is not marked complete, in which case the pacer
    keeps its timeout; a regeneration otherwise, with the pacer stopped. *)
Theorem user_message_dispatch u m s w :
  let w' := handleUserMessage u m s w in
  let b := buffer (sessionOf u w) in
  let h := history (sessionOf u w) ++ [mkEntry User m (now w)] in
  history (sessionOf u w') = h /\
  buffer (sessionOf u w') = b /\
  userMessagedSinceLastEndUpdate (endUpdate (sessionOf u w')) = true /\
  timerActive (endUpdate (sessionOf u w')) = false /\
  isTyping (typing (sessionOf u w')) = false /\
  getSocket u w' = Some s /\
  nextCall w' = S (nextCall w) /\
  (if isSending u w && negb (isComplete b)
   then inflight w' !! nextCall w =
          Some (CallUpdateCheck u (lastN 20 h) (blocks b) (currentIndex b)) /\
        sendingTimeouts w' = sendingTimeouts w
   else inflight w' !! nextCall w =
          Some (CallUpdateBuffer u h (drop (currentIndex b) (blocks b))) /\
        isSending u w' = false).
Proof.
  cbv zeta. rewrite handleUserMessage_eq. cbv zeta.
  pose proof (sessionOf_messageRecorded u m s w) as Hs.
  destruct (frame_messageRecorded u m s w) as (Hst & Hus & Hnc & _ & _).
  generalize dependent (messageRecorded u m s w). intros w0 Hs Hst Hus Hnc.
  assert (sessionOf u (touch u w0) = sessionOf u w0) as Ht by apply sessionOf_touch.
  assert (isSending u (touch u w0) = isSending u w) as ->.
  { unfold isSending, BufferManager.isSending.
    change (sendingTimeouts (touch u w0)) with (sendingTimeouts w0). by rewrite Hst. }
  assert (buffer (sessionOf u w0) = buffer (sessionOf u w)) as -> by (by rewrite Hs).
  destruct (isSending u w && negb (isComplete (buffer (sessionOf u w)))).
  - destruct (frame_triggerUpdateCheck u (touch u w0)) as (H1 & H2 & H3 & H4 & H5).
    unfold getSocket. rewrite H1, H2, H3, H4, Ht, Hs.
    cbn [history buffer endUpdate typing userMessagedSinceLastEndUpdate timerActive
         isTyping].
    change (nextCall (touch u w0)) with (nextCall w0) in *.
    change (userSockets (touch u w0)) with (userSockets w0).
    change (sendingTimeouts (touch u w0)) with (sendingTimeouts w0).
    rewrite Hnc in *. rewrite H5, Ht, Hs, Hus, Hst. cbn [history buffer].
    split_and!; try done. apply lookup_insert_eq.
  - destruct (frame_triggerUpdateBuffer u (touch u w0)) as (H1 & H2 & H3 & H4 & H5).
    unfold getSocket. rewrite H1, H2, H3, H4, Ht, Hs.
    cbn [history buffer endUpdate typing userMessagedSinceLastEndUpdate timerActive
         isTyping].
    change (nextCall (touch u w0)) with (nextCall w0) in *.
    change (userSockets (touch u w0)) with (userSockets w0).
    rewrite Hnc in *. rewrite H5, Ht, Hs, Hus. cbn [history buffer].
    split_and!; try done. apply lookup_insert_eq.
Qed.

End MessageProperties.

(** ** A disconnect *)

Section DisconnectProperties.
Import UserSessionManager StateOrchestrator.

Lemma cleanup_forgets u w :
  let w' := StateOrchestrator.cleanup u w in
  sessions w' !! u = None /\ timers w' !! u = None /\ userSockets w' !! u = None /\
  bmUserSockets w' !! u = None /\ sendingTimeouts w' !! u = None /\
  out w' = out w /\ inflight w' = inflight w /\ connected w' = connected w.
Proof.
  cbv zeta. unfold StateOrchestrator.cleanup, BufferManager.cleanup, clearSession,
    TimerManager.cleanup.
  cbn [sessions timers userSockets bmUserSockets sendingTimeouts out inflight connected
       set_userSockets set_sessions set_bmUserSockets].
  split_and!.
  - apply lookup_delete_eq.
  - rewrite (cop_timers (f := BufferManager.stopSending u)).
    cbn [timers set_timers]. apply lookup_delete_eq.
  - apply lookup_delete_eq.
  - apply lookup_delete_eq.
  - rewrite sendingTimeouts_stopSending. apply lookup_delete_eq.
  - rewrite (cop_out (f := BufferManager.stopSending u)).
    cbn [out set_timers]. apply (top_out (f := TimerManager.cancelAllTimers u)).
  - rewrite (cop_inflight (f := BufferManager.stopSending u)).
    cbn [inflight set_timers]. apply (top_inflight (f := TimerManager.cancelAllTimers u)).
  - rewrite (cop_connected (f := BufferManager.stopSending u)).
    cbn [connected set_timers]. apply (top_connected (f := TimerManager.cancelAllTimers u)).
Qed.

(** X7.  After a client has disconnected from a reachable state, the
    server holds nothing for it: no session, no timer object, no socket,
    no pacer timeout, and no scheduled timeout is a timer or an emission
    step of this user.  The calls to the model that are awaited stay
    awaited. *)
Theorem disconnect_forgets_user w s w' :
  reachable w -> step (EDisconnect s) w = Some w' ->
  sessions w' !! s = None /\ timers w' !! s = None /\
  userSockets w' !! s = None /\ bmUserSockets w' !! s = None /\
  sendingTimeouts w' !! s = None /\
  isConnected s w' = false /\
  (forall i t, pending w' !! i = Some t ->
     ~ isChainOf s t /\ forall n, ~ isTimerOf s n t) /\
  out w' = out w /\ inflight w' = inflight w.
Proof.
  intros Hr Hs.
  assert (Inv w') as HI by (eapply Inv_step; [by apply Inv_reachable | exact Hs]).
  revert Hs. unfold step. destruct (isConnected s w); [|done]. intros Hs%(inj Some).
  destruct (cleanup_forgets s (set_connected (<[s := false]> (connected w)) w))
    as (H1 & H2 & H3 & H4 & H5 & H6 & H7 & H8).
  rewrite Hs in *. split_and!; try done.
  - unfold isConnected. rewrite H8. cbn [connected set_connected].
    by rewrite lookup_insert_eq.
  - intros i [t d] Hi. split.
    + intros (so & g & b & Ht). cbn [task] in Ht. subst t.
      destruct (inv_pacer _ HI _ _ _ _ _ _ Hi) as [Hp _]. congruence.
    + intros n (r & cb & Ht & Hu). cbn [task] in Ht. subst t.
      destruct (inv_timer _ HI _ _ _ _ _ Hi) as (Hreg & _). rewrite Hu in Hreg. congruence.
Qed.

End DisconnectProperties.

Lemma disconnect_forgets_user_witness :
  sessions afterDisconnect !! "s" = None /\
  inflight afterDisconnect = inflight firstBlockSent.
Proof.
  assert (step (EDisconnect "s") firstBlockSent = Some afterDisconnect) as Hs
    by (vm_compute; reflexivity).
  destruct (disconnect_forgets_user firstBlockSent "s" afterDisconnect
              firstBlockSent_reachable Hs) as (H1 & _ & _ & _ & _ & _ & _ & _ & H9).
  split; [exact H1 | exact H9].
Defined.

(** ** Starting and cancelling a timer *)

Section TimerProperties.
Import TimerManager.

Lemma clearTimer_alloc u n w : _clearTimer u n (alloc u w) = _clearTimer u n w.
Proof. by rewrite !clearTimer_eq, alloc_alloc, timerRef_alloc. Qed.

Lemma setTimer_alloc u n cb ms w : _setTimer u n cb ms (alloc u w) = _setTimer u n cb ms w.
Proof. by rewrite !setTimer_eq, clearTimer_alloc. Qed.

Lemma isTimerActive_alloc u n w :
  (isTimerActive u n (alloc u w)).1 = (isTimerActive u n w).1.
Proof. unfold isTimerActive. by rewrite !getUserTimers_eq, alloc_alloc, timerRef_alloc. Qed.

Lemma nextTimeout_clearTimer u n w : nextTimeout (_clearTimer u n w) = nextTimeout w.
Proof.
  rewrite clearTimer_eq. destruct (deref _ _ !! n); cbn; apply nextTimeout_alloc.
Qed.

Lemma setTimer_registered u n cb ms w :
  timers (_setTimer u n cb ms w) !! u = Some (timerRef u w).
Proof. rewrite timers_setTimer. apply timers_alloc. Qed.

Lemma deref_setTimer_same u n cb ms w :
  deref (timerRef u w) (_setTimer u n cb ms w) !! n = Some (nextTimeout w).
Proof.
  rewrite setTimer_eq. cbv zeta. rewrite alloc_clearTimer, timerRef_clearTimer.
  unfold deref at 1. cbn [timerObjects set_timerObjects].
  rewrite lookup_insert_eq. cbn [from_option id]. rewrite lookup_insert_eq.
  by rewrite nextTimeout_clearTimer.
Qed.

Lemma pending_setTimer u n cb ms w :
  pending (_setTimer u n cb ms w) =
  <[nextTimeout w := mkTimeout (TaskTimer (timerRef u w) n cb) ms]>
    (pending (_clearTimer u n w)).
Proof.
  rewrite setTimer_eq. cbv zeta. rewrite alloc_clearTimer, timerRef_clearTimer.
  cbn [pending set_timerObjects setTimeout snd set_nextTimeout set_pending].
  by rewrite nextTimeout_clearTimer.
Qed.

Lemma setTimer_startsTimer n ms :
  inherited n = false -> startsTimer (fun u cb => _setTimer u n cb ms) n ms.
Proof.
  intros Hown u cb w. cbv zeta.
  pose proof (setTimer_registered u n cb ms w) as Hreg.
  pose proof (deref_setTimer_same u n cb ms w) as Hset.
  split_and!.
  - rewrite (isTimerActive_registered _ _ _ _ Hreg), Hset.
    by rewrite bool_decide_eq_true_2 by (by eexists).
  - rewrite pending_setTimer. apply lookup_insert_eq.
  - rewrite setTimer_eq. cbv zeta.
    cbn [nextTimeout set_timerObjects setTimeout snd set_nextTimeout].
    by rewrite alloc_clearTimer, nextTimeout_clearTimer.
  - intros n' Hne.
    rewrite <- (isTimerActive_alloc u n' w), <- (setTimer_alloc u n cb ms w).
    pose proof (timers_alloc u w) as Hreg0.
    destruct (deref_setTimer_other u _ n n' cb ms _ Hreg0) as [Hreg1 Hsame]; [done|].
    by rewrite (isTimerActive_registered _ _ _ _ Hreg1),
      (isTimerActive_registered _ _ _ _ Hreg0), Hsame.
  - destruct (alloc_registered _ _ _ Hreg) as [Ha Hr].
    assert (timers (_clearTimer u n (_setTimer u n cb ms w)) !! u = Some (timerRef u w))
      as Hreg2 by (by rewrite timers_clearTimer, Ha).
    rewrite (isTimerActive_registered _ _ _ _ Hreg2), Hown, orb_false_r.
    pose proof (deref_clearTimer_same u n (_setTimer u n cb ms w)) as Hc.
    rewrite Hr in Hc. rewrite Hc. apply bool_decide_eq_false_2. by intros [? ?].
  - destruct (alloc_registered _ _ _ Hreg) as [Ha Hr].
    rewrite clearTimer_eq, Ha, Hr, Hset.
    cbn [pending deleteEntry set_timerObjects clearTimeout set_pending].
    apply lookup_delete_eq.
Qed.

(** X8.  The four start methods of the TimerManager schedule one timeout
    each, under their timer type and with their fixed delay: 5 seconds for
    typingIdle, 30 for maxTyping, 2 for groupDelay and 25 for endUpdate.
    The timer started is active, the timers of the other types are as they
    were, and clearing the timer removes the timeout again. *)
Theorem start_methods_schedule_one_timeout :
  startsTimer startTypingIdleTimer "typingIdle" 5000 /\
  startsTimer startMaxTypingTimer "maxTyping" 30000 /\
  startsTimer startGroupDelayTimer "groupDelay" 2000 /\
  startsTimer startEndUpdateTimer "endUpdate" 25000.
Proof. split_and!; by apply setTimer_startsTimer. Qed.

Lemma start_methods_schedule_one_timeout_witness :
  (isTimerActive "s" "typingIdle"
     (startTypingIdleTimer "s" (CbTypingIdle "s") initialWorld)).1 = true /\
  (isTimerActive "s" "endUpdate"
     (startTypingIdleTimer "s" (CbTypingIdle "s") initialWorld)).1 =
  (isTimerActive "s" "endUpdate" initialWorld).1.
Proof.
  destruct (proj1 start_methods_schedule_one_timeout "s" (CbTypingIdle "s") initialWorld)
    as (Hactive & _ & _ & Hother & _).
  split; [exact Hactive | apply Hother; discriminate].
Defined.

End TimerProperties.

(** ** The prompt of the relevance check at the ends of the buffer *)

Section PromptProperties.
Import GeminiService.

Lemma checkPrompt_spec ep h buf i :
  checkPrompt ep h buf i = String.concat newline (checkPromptSpec ep h buf i).
Proof.
  unfold checkPrompt, userMessages.
  by rewrite sentBlocks_take, pendingBlocks_drop, !blocksText_sectionSpec,
    join_concat, filter_userContentsSpec.
Qed.

(** X9.  In the prompt of updateCheck a section without blocks reads None:
    both sections for an empty buffer, whatever the index; the SENT BLOCKS
    section when the index is 0; the PENDING BLOCKS section when the index
    is the length of the buffer or more.  With an empty history the USER
    MESSAGES section is empty. *)
Theorem updateCheck_prompt_edges ep h b buf k :
  checkPrompt ep h [] k =
    String.concat newline
      [ep; ""; "SENT BLOCKS:"; "None"; ""; "PENDING BLOCKS:"; "None"; "";
       "USER MESSAGES:"; String.concat newline (userContentsSpec h)] /\
  checkPrompt ep h (b :: buf) 0 =
    String.concat newline
      [ep; ""; "SENT BLOCKS:"; "None"; "";
       "PENDING BLOCKS:"; String.concat newline (text <$> b :: buf); "";
       "USER MESSAGES:"; String.concat newline (userContentsSpec h)] /\
  checkPrompt ep h (b :: buf) (length (b :: buf) + k) =
    String.concat newline
      [ep; ""; "SENT BLOCKS:"; String.concat newline (text <$> b :: buf); "";
       "PENDING BLOCKS:"; "None"; "";
       "USER MESSAGES:"; String.concat newline (userContentsSpec h)] /\
  checkPrompt ep [] (b :: buf) 0 =
    String.concat newline
      [ep; ""; "SENT BLOCKS:"; "None"; "";
       "PENDING BLOCKS:"; String.concat newline (text <$> b :: buf); "";
       "USER MESSAGES:"; ""].
Proof.
  rewrite !checkPrompt_spec. unfold checkPromptSpec.
  rewrite take_nil, drop_nil, take_0, drop_0.
  rewrite take_ge, drop_ge by lia.
  split_and!; reflexivity.
Qed.

End PromptProperties.

(** ** The emission step at the end of the buffer *)

Section BufferEndProperties.
Import UserSessionManager StateOrchestrator.

Lemma out_handleBufferComplete u w :
  out (_handleBufferComplete u w) =
  out w ++ match getSocket u w with Some s => [(s, AiComplete)] | None => [] end.
Proof.
  unfold _handleBufferComplete, getSocket. readers. frame.
  destruct (userSockets w !! u) as [s|]; frame;
    destruct (needsUpdate _); unfold_tm; frame; try done;
    try (by rewrite app_nil_r);
    destruct (userMessagedSinceLastEndUpdate _); unfold_tm; frame; try done;
    by rewrite app_nil_r.
Qed.

Lemma sendingTimeouts_handleBufferComplete u w :
  sendingTimeouts (_handleBufferComplete u w) = sendingTimeouts w.
Proof.
  unfold _handleBufferComplete, getSocket. readers. frame.
  destruct (userSockets w !! u) as [s|]; frame;
    destruct (needsUpdate _); unfold_tm; frame; try done;
    destruct (userMessagedSinceLastEndUpdate _); unfold_tm; by frame.
Qed.

(** X10.  When the emission step finds every block sent (the socket is
    connected, the buffer is not paused and no interrupt is committed), it
    marks the buffer complete, forgets the pacer timeout and calls the
    buffer callback, which emits ai_complete on the socket registered for
    the user; no block is emitted and the cursor stays where it is. *)
Theorem pacer_buffer_end u s g w :
  isConnected s w = true ->
  isPaused (buffer (sessionOf u w)) = false ->
  committed u w = false ->
  length (blocks (buffer (sessionOf u w))) <= currentIndex (buffer (sessionOf u w)) ->
  let w' := _sendNextBlock u (Some s) g (Some OnBufferComplete) w in
  isComplete (buffer (sessionOf u w')) = true /\
  cursorOf (buffer (sessionOf u w')) = cursorOf (buffer (sessionOf u w)) /\
  isSending u w' = false /\
  out w' = out w ++ match getSocket u w with
                    | Some socket => [(socket, AiComplete)]
                    | None => []
                    end.
Proof.
  intros Hc Hp Hcom Hlen. cbv zeta.
  unfold _sendNextBlock, BufferManager._sendNextBlock.
  rewrite Hc. cbn [negb]. readers. rewrite Hp. frame.
  unfold committed in Hcom. rewrite Hcom.
  rewrite bool_decide_eq_true_2 by done. cbv beta iota zeta.
  cbn [invokeBufferComplete]. split_and!.
  - rewrite buffer_handleBufferComplete. frame. by rewrite decide_True by done.
  - rewrite buffer_handleBufferComplete. frame. by rewrite decide_True by done.
  - unfold isSending, BufferManager.isSending.
    rewrite sendingTimeouts_handleBufferComplete.
    cbn [sendingTimeouts set_sendingTimeouts]. rewrite lookup_delete_eq.
    apply bool_decide_eq_false_2. by intros [? ?].
  - rewrite out_handleBufferComplete. unfold getSocket. by frame.
Qed.

Lemma pacer_buffer_end_witness :
  out (_sendNextBlock "s" (Some "s") (Some OnGroupComplete) (Some OnBufferComplete)
         lastBlockSent)
  = out lastBlockSent ++ [("s", AiComplete)].
Proof.
  refine (proj2 (proj2 (proj2
    (pacer_buffer_end "s" "s" (Some OnGroupComplete) lastBlockSent _ _ _ _)))).
  - vm_compute; reflexivity.
  - vm_compute; reflexivity.
  - vm_compute; reflexivity.
  - vm_compute; lia.
Defined.

End BufferEndProperties.

(** ** The typing status *)

Section TypingProperties.
Import UserSessionManager StateOrchestrator TimerManager.

Lemma isTimerActive_eq u n w :
  (isTimerActive u n w).1 =
  bool_decide (is_Some (deref (timerRef u w) (alloc u w) !! n)) || inherited n.
Proof. unfold isTimerActive. by rewrite getUserTimers_eq. Qed.

Lemma isTimerActive_clearTimer u n n' w :
  (isTimerActive u n' (_clearTimer u n w)).1 =
  if decide (n = n') then inherited n' else (isTimerActive u n' w).1.
Proof.
  assert (timers (_clearTimer u n w) !! u = Some (timerRef u w)) as Hreg.
  { rewrite timers_clearTimer. apply timers_alloc. }
  rewrite (isTimerActive_registered _ _ _ _ Hreg), deref_clearTimer.
  case_decide; [|by rewrite isTimerActive_eq].
  rewrite bool_decide_eq_false_2; [done | by intros [? ?]].
Qed.

Lemma isTimerActive_setTimer u n n' cb ms w :
  (isTimerActive u n' (_setTimer u n cb ms w)).1 =
  if decide (n = n') then true else (isTimerActive u n' w).1.
Proof.
  case_decide as Hn.
  - subst n'. rewrite (isTimerActive_registered _ _ _ _ (setTimer_registered u n cb ms w)).
    rewrite deref_setTimer_same. by rewrite bool_decide_eq_true_2 by (by eexists).
  - rewrite <- (isTimerActive_alloc u n' w), <- (setTimer_alloc u n cb ms w).
    pose proof (timers_alloc u w) as Hreg0.
    destruct (deref_setTimer_other u _ n n' cb ms _ Hreg0) as [Hreg1 Hsame]; [done|].
    by rewrite (isTimerActive_registered _ _ _ _ Hreg1),
      (isTimerActive_registered _ _ _ _ Hreg0), Hsame.
Qed.

Lemma isTimerActive_mutate u n u' f w :
  (isTimerActive u n (mutate u' f w)).1 = (isTimerActive u n w).1.
Proof. apply isTimerActive_ext; by rewrite mutate_eq. Qed.

Lemma isTimerActive_touch u n u' w :
  (isTimerActive u n (touch u' w)).1 = (isTimerActive u n w).1.
Proof. by apply isTimerActive_ext. Qed.

Lemma isTimerActive_registerSocket u n u' s w :
  (isTimerActive u n (registerSocket u' s w)).1 = (isTimerActive u n w).1.
Proof. by apply isTimerActive_ext. Qed.

End TypingProperties.

Ltac timers1 :=
  first [ rewrite isTimerActive_mutate
        | rewrite isTimerActive_touch
        | rewrite isTimerActive_registerSocket
        | rewrite isTimerActive_clearTimer
        | rewrite isTimerActive_setTimer ].

Ltac timers_active :=
  unfold_sm; unfold_tm; repeat timers1; repeat case_decide; try done.

Section TypingStatus.
Import UserSessionManager StateOrchestrator TimerManager.

(** X11.  When the client starts typing, the server records it, cancels
    the typingIdle and groupDelay timers and starts the maxTyping timer; an
    endUpdate timer whose activity the session records is cancelled too,
    and the idle timer is enabled for the pause that follows.  When the
    client stops typing, the maxTyping timer is cancelled and the
    typingIdle timer is started exactly when the idle timer is enabled. *)
Theorem typing_status_timers u s w :
  (let w' := handleTypingStatus u true s w in
   let wasActive := timerActive (endUpdate (sessionOf u w)) in
   typing (sessionOf u w') =
     mkTyping true (Some (now w))
       (wasActive || shouldUseIdleTimer (typing (sessionOf u w))) /\
   timerActive (endUpdate (sessionOf u w')) = false /\
   (isTimerActive u "maxTyping" w').1 = true /\
   (isTimerActive u "typingIdle" w').1 = false /\
   (isTimerActive u "groupDelay" w').1 = false /\
   (isTimerActive u "endUpdate" w').1 =
     negb wasActive && (isTimerActive u "endUpdate" w).1) /\
  (let w' := handleTypingStatus u false s w in
   let idle := shouldUseIdleTimer (typing (sessionOf u w)) in
   typing (sessionOf u w') = mkTyping false None idle /\
   (isTimerActive u "maxTyping" w').1 = false /\
   (isTimerActive u "typingIdle" w').1 = idle /\
   (isTimerActive u "groupDelay" w').1 = (isTimerActive u "groupDelay" w).1 /\
   (isTimerActive u "endUpdate" w').1 = (isTimerActive u "endUpdate" w).1).
Proof.
  split; cbv zeta; unfold handleTypingStatus; readers.
  - assert (timerActive (endUpdate (sessionOf u
              (cancelGroupDelayTimer u (cancelTypingTimers u
                 (setTypingState u true (registerSocket u s w))))))
            = timerActive (endUpdate (sessionOf u w))) as ->.
    { unfold registerSocket. unfold_tm. frame. by rewrite decide_True by done. }
    destruct (timerActive (endUpdate (sessionOf u w))) eqn:Hact; cbn [orb negb andb].
    + split_and!; try (by timers_active);
        unfold registerSocket; unfold_tm; frame; by rewrite ?decide_True by done.
    + split_and!; try (by timers_active);
        unfold registerSocket; unfold_tm; frame; rewrite ?decide_True by done;
        done.
  - assert (shouldUseIdleTimer (typing (sessionOf u
              (cancelTypingTimers u (setTypingState u false (registerSocket u s w)))))
            = shouldUseIdleTimer (typing (sessionOf u w))) as ->.
    { unfold registerSocket. unfold_tm. frame. by rewrite decide_True by done. }
    destruct (shouldUseIdleTimer (typing (sessionOf u w))) eqn:Hidle.
    + split_and!; try (by timers_active);
        unfold registerSocket; unfold_tm; frame; rewrite ?decide_True by done;
        cbn [typing withTyping]; by rewrite ?Hidle.
    + split_and!; try (by timers_active);
        unfold registerSocket; unfold_tm; frame; rewrite ?decide_True by done;
        cbn [typing withTyping]; by rewrite ?Hidle.
Qed.

End TypingStatus.
